(** * SET 0.3.4 (pglg/setlang.py): lexer, parser and interpreter

    A shallow embedding of the three stages of [setlang.py] and of the
    parts of the host language they rely on, followed by the properties
    proved about them.

    Conventions of the embedding:
    - a host string is a [string]; each [ascii] stands for the code point
      of the same number, so texts range over U+0000..U+00FF;
    - a host [int] is a [Z]; a host [float] is an IEEE 754 binary64 number,
      a [spec_float] with [prec = 53] and [emax = 1024];
    - a host exception is a value of [exn]; what raises returns [Err];
    - the host is CPython with its default settings on a 64-bit platform:
      [int] and [str] convert at most 4300 digits, and a size fits 63 bits;
    - resource limits of the host (recursion depth, memory) are not
      modelled. *)

From Stdlib Require Import ZArith List String Ascii Bool Lia.
From Stdlib Require Import SpecFloat DecimalString DecimalZ.
From stdpp Require Import base option gmap strings list.

Local Open Scope string_scope.
Local Open Scope Z_scope.
Set Warnings "-register-all".

(** ** Host language: exceptions and results *)

Module Py.

Inductive exn : Type :=
| ZeroDivisionError
| TypeError
| ValueError
| OverflowError
| EOFError.

Inductive result (A : Type) : Type :=
| Ok (a : A)
| Err (e : exn).
Arguments Ok {A} a.
Arguments Err {A} e.

#[export] Instance result_ret : MRet result := fun A a => Ok a.
#[export] Instance result_bind : MBind result := fun A B f m =>
  match m with Ok a => f a | Err e => Err e end.

(** ** Host language: floats *)

Definition float : Type := spec_float.

Definition prec : Z := 53.
Definition emax : Z := 1024.

Definition fadd : float -> float -> float := SFadd prec emax.
Definition fsub : float -> float -> float := SFsub prec emax.
Definition fmul : float -> float -> float := SFmul prec emax.
Definition fdiv : float -> float -> float := SFdiv prec emax.

Definition is_zero (f : float) : bool :=
  match f with S754_zero _ => true | _ => false end.

(** An integer as the operand of one correctly rounded operation (the
    mantissa is as long as the integer needs). *)
Definition exact_Z (z : Z) : float :=
  match z with
  | Z0 => S754_zero false
  | Zpos p => S754_finite false p 0
  | Zneg p => S754_finite true p 0
  end.

(** [m * 10^e] rounded to the nearest float, ties to even. *)
Definition round_decimal (m e : Z) : float :=
  if 0 <=? e then binary_normalize prec emax (m * 10 ^ e) 0 false
  else fdiv (exact_Z m) (exact_Z (10 ^ (- e))).

(** [float(n)] for an [int] [n]. *)
Definition float_of_Z (z : Z) : result float :=
  match binary_normalize prec emax z 0 false with
  | S754_infinity _ => Err OverflowError
  | f => Ok f
  end.

(** [a / b] for two [int]s. *)
Definition Z_truediv (a b : Z) : result float :=
  if b =? 0 then Err ZeroDivisionError
  else match fdiv (exact_Z a) (exact_Z b) with
       | S754_infinity _ => Err OverflowError
       | f => Ok f
       end.

(** [int(x)] for a [float] [x]: the integer part, towards zero. *)
Definition Z_of_float (f : float) : result Z :=
  match f with
  | S754_nan => Err ValueError
  | S754_infinity _ => Err OverflowError
  | S754_zero _ => Ok 0
  | S754_finite s m e =>
      let a := if 0 <=? e then Zpos m * 2 ^ e else Zpos m / 2 ^ (- e) in
      Ok (if s then - a else a)
  end.

(** Comparison of a [float] with an [int], on the exact values. *)
Definition fcompare_Z (f : float) (z : Z) : option comparison :=
  match f with
  | S754_nan => None
  | S754_infinity s => Some (if s then Lt else Gt)
  | S754_zero _ => Some (0 ?= z)
  | S754_finite s m e =>
      let n := if s then Zneg m else Zpos m in
      Some (if 0 <=? e then n * 2 ^ e ?= z else n ?= z * 2 ^ (- e))
  end.

(** ** Host language: character classes and string helpers *)

Definition code (c : ascii) : Z := Z.of_N (N_of_ascii c).

Definition in_range (lo hi : Z) (c : ascii) : bool :=
  (lo <=? code c) && (code c <=? hi).

(** [\d] on U+0000..U+00FF. *)
Definition is_digit (c : ascii) : bool := in_range 48 57 c.

Definition digit_value (c : ascii) : Z := code c - 48.

(** The white space that [int()] and [float()] strip. *)
Definition is_num_space (c : ascii) : bool :=
  in_range 9 13 c || (code c =? 32) || (code c =? 133) || (code c =? 160).

Definition lower (c : ascii) : ascii :=
  if in_range 65 90 c then ascii_of_N (N_of_ascii c + 32) else c.

Fixpoint lower_string (s : string) : string :=
  match s with
  | EmptyString => EmptyString
  | String c s' => String (lower c) (lower_string s')
  end.

Fixpoint lstrip (s : string) : string :=
  match s with
  | String c s' => if is_num_space c then lstrip s' else s
  | EmptyString => EmptyString
  end.

Fixpoint rstrip (s : string) : string :=
  match s with
  | EmptyString => EmptyString
  | String c s' =>
      match rstrip s' with
      | EmptyString => if is_num_space c then EmptyString else String c EmptyString
      | r => String c r
      end
  end.

Definition strip (s : string) : string := rstrip (lstrip s).

(** [sub in s]. *)
Fixpoint contains (sub s : string) : bool :=
  String.prefix sub s ||
  match s with
  | EmptyString => false
  | String _ s' => contains sub s'
  end.

(** [n] copies of [s]. *)
Definition repeat_string (s : string) (n : Z) : string :=
  String.concat "" (repeat s (Z.to_nat n)).

(** The most digits that [int(s)] reads and that [str(n)] writes
    ([sys.int_info.default_max_str_digits]). *)
Definition max_str_digits : Z := 4300.

(** The largest size ([sys.maxsize]). *)
Definition ssize_max : Z := 2 ^ 63 - 1.

(** ** Host language: reading numbers, [int(s)] and [float(s)] *)

(** The rest of a digit part [digit (["_"] digit)*] whose first digits are
    read: the value, the number of digits, and what follows. *)
Fixpoint digits_tail (acc : Z) (n : Z) (s : string) : Z * Z * string :=
  match s with
  | String c s' =>
      if is_digit c then digits_tail (acc * 10 + digit_value c) (n + 1) s'
      else if Ascii.eqb c "_" then
        match s' with
        | String c' s'' =>
            if is_digit c' then digits_tail (acc * 10 + digit_value c') (n + 1) s''
            else (acc, n, s)
        | EmptyString => (acc, n, s)
        end
      else (acc, n, s)
  | EmptyString => (acc, n, s)
  end.

(** A digit part, if one starts here; no digit read is reported as count 0. *)
Definition digitpart (s : string) : Z * Z * string :=
  match s with
  | String c s' => if is_digit c then digits_tail (digit_value c) 1 s' else (0, 0, s)
  | EmptyString => (0, 0, s)
  end.

(** An optional sign: [true] for [-]. *)
Definition sign (s : string) : bool * string :=
  match s with
  | String "+" s' => (false, s')
  | String "-" s' => (true, s')
  | _ => (false, s)
  end.

Definition int_of_string (s : string) : result Z :=
  let '(neg, s1) := sign (strip s) in
  match digitpart s1 with
  | (v, n, EmptyString) =>
      if (n =? 0) || (max_str_digits <? n) then Err ValueError
      else Ok (if neg then - v else v)
  | _ => Err ValueError
  end.

(** The exponent of a decimal literal, [None] when it is malformed. *)
Definition exponent (s : string) : option Z :=
  match s with
  | EmptyString => Some 0
  | String c s' =>
      if Ascii.eqb (lower c) "e" then
        let '(neg, s1) := sign s' in
        match digitpart s1 with
        | (v, n, EmptyString) =>
            if n =? 0 then None else Some (if neg then - v else v)
        | _ => None
        end
      else None
  end.

Definition decimal_of_string (s : string) : option float :=
  let '(ip, ni, r1) := digitpart s in
  let '(fp, nf, r2) :=
    match r1 with
    | String "." r => digitpart r
    | _ => (0, 0, r1)
    end in
  if ni + nf =? 0 then None
  else match exponent r2 with
       | Some e => Some (round_decimal (ip * 10 ^ nf + fp) (e - nf))
       | None => None
       end.

Definition float_of_string (s : string) : result float :=
  let '(neg, s1) := sign (strip s) in
  let l := lower_string s1 in
  let magnitude :=
    if String.eqb l "inf" || String.eqb l "infinity" then Some (S754_infinity false)
    else if String.eqb l "nan" then Some S754_nan
    else decimal_of_string s1 in
  match magnitude with
  | Some f => Ok (if neg then SFopp f else f)
  | None => Err ValueError
  end.

(** ** Host language: writing numbers, [str(n)] and [repr(x)] *)

Definition string_of_Z (z : Z) : string := NilZero.string_of_int (Z.to_int z).

Fixpoint strip_zeros_rev (r : list ascii) : list ascii :=
  match r with
  | c :: r' => if Ascii.eqb c "0" then strip_zeros_rev r' else r
  | [] => []
  end.

(** Trailing zeros removed. *)
Definition strip_zeros (s : string) : string :=
  string_of_list_ascii (rev (strip_zeros_rev (rev (list_ascii_of_string s)))).

(** The position of the decimal point of [n / d] (both positive): the [p]
    with [10^(p-1) <= n / d < 10^p]. *)
Fixpoint leading_zeros (fuel : nat) (n d : Z) (j : Z) : Z :=
  match fuel with
  | O => j
  | S fuel' => if d <=? n * 10 then j else leading_zeros fuel' (n * 10) d (j + 1)
  end.

Definition decimal_point (n d : Z) : Z :=
  if d <=? n then Z.of_nat (String.length (string_of_Z (n / d)))
  else - leading_zeros 400 n d 0.

(** The digits of the nearest decimal of [k] digits that reads back as [x],
    the float of exact value [n / d] whose decimal point is at [p]. *)
Definition digits_at (x : float) (n d p : Z) (k : Z) : option Z :=
  let num := if p <=? k then n * 10 ^ (k - p) else n in
  let den := if p <=? k then d else d * 10 ^ (p - k) in
  let lo := num / den in
  let hi := lo + 1 in
  let ok c := SFeqb (round_decimal c (p - k)) x in
  let below := num - lo * den in
  let above := hi * den - num in
  if ok lo && (negb (ok hi) || (below <? above) || ((below =? above) && Z.even lo))
  then Some lo
  else if ok hi then Some hi
  else None.

Fixpoint shortest (x : float) (n d p : Z) (count : nat) (k : Z) : Z * Z :=
  match count with
  | O => (n / d, 0)
  | S count' =>
      match digits_at x n d p k with
      | Some c => (c, p - k)
      | None => shortest x n d p count' (k + 1)
      end
  end.

(** [repr] of the positive finite float [m * 2^e]. *)
Definition repr_finite (m : positive) (e : Z) : string :=
  let n := if 0 <=? e then Zpos m * 2 ^ e else Zpos m in
  let d := if 0 <=? e then 1 else 2 ^ (- e) in
  let '(c, q) := shortest (S754_finite false m e) n d (decimal_point n d) 17 1 in
  let all := string_of_Z c in
  let decpt := q + Z.of_nat (String.length all) in
  let ds := strip_zeros all in
  let len := Z.of_nat (String.length ds) in
  if (decpt <=? -4) || (16 <? decpt) then
    let e10 := decpt - 1 in
    let mant :=
      match ds with
      | String c0 EmptyString => ds
      | String c0 rest => String c0 (String "." rest)
      | EmptyString => ds
      end in
    let ex := string_of_Z (Z.abs e10) in
    mant ++ "e" ++ (if e10 <? 0 then "-" else "+") ++
    (if Z.abs e10 <? 10 then "0" else "") ++ ex
  else if decpt <=? 0 then
    "0." ++ repeat_string "0" (- decpt) ++ ds
  else if len <=? decpt then
    ds ++ repeat_string "0" (decpt - len) ++ ".0"
  else
    substring 0 (Z.to_nat decpt) ds ++ "." ++
    substring (Z.to_nat decpt) (Z.to_nat (len - decpt)) ds.

Definition repr_float (f : float) : string :=
  match f with
  | S754_nan => "nan"
  | S754_infinity s => if s then "-inf" else "inf"
  | S754_zero s => if s then "-0.0" else "0.0"
  | S754_finite s m e => (if s then "-" else "") ++ repr_finite m e
  end.

(** ** Host language: values and operators *)

(** The values a program of the language computes with. *)
Inductive value : Type :=
| VInt (z : Z)
| VFloat (f : float)
| VStr (s : string)
| VBool (b : bool).

(** Numbers: [int] and [float]; a [bool] is the [int] 0 or 1. *)
Inductive num : Type :=
| NInt (z : Z)
| NFloat (f : float).

Definition as_num (v : value) : option num :=
  match v with
  | VInt z => Some (NInt z)
  | VBool b => Some (NInt (Z.b2z b))
  | VFloat f => Some (NFloat f)
  | VStr _ => None
  end.

Definition num_value (n : num) : value :=
  match n with NInt z => VInt z | NFloat f => VFloat f end.

Definition to_float (n : num) : result float :=
  match n with NInt z => float_of_Z z | NFloat f => Ok f end.

(** [bool(v)]. *)
Definition truthy (v : value) : bool :=
  match v with
  | VInt z => negb (z =? 0)
  | VFloat f => negb (is_zero f)
  | VStr s => negb (String.eqb s "")
  | VBool b => b
  end.

(** [int(v)]. *)
Definition py_int (v : value) : result Z :=
  match v with
  | VInt z => Ok z
  | VBool b => Ok (Z.b2z b)
  | VFloat f => Z_of_float f
  | VStr s => int_of_string s
  end.

(** [float(v)]. *)
Definition py_float (v : value) : result float :=
  match v with
  | VInt z => float_of_Z z
  | VBool b => float_of_Z (Z.b2z b)
  | VFloat f => Ok f
  | VStr s => float_of_string s
  end.

(** [str(v)], what [print(v)] writes before the end of the line; an
    integer of more than [max_str_digits] digits raises. *)
Definition py_str (v : value) : result string :=
  match v with
  | VInt z =>
      if max_str_digits <? Z.of_nat (String.length (string_of_Z (Z.abs z)))
      then Err ValueError
      else Ok (string_of_Z z)
  | VFloat f => Ok (repr_float f)
  | VStr s => Ok s
  | VBool b => Ok (if b then "True" else "False")
  end.

(** [len(v)]. *)
Definition py_len (v : value) : result value :=
  match v with
  | VStr s => Ok (VInt (Z.of_nat (String.length s)))
  | _ => Err TypeError
  end.

(** [+], [-] and [*] on two numbers: on [int]s when both are, else on
    [float]s after converting the [int] operand. *)
Definition arith (fz : Z -> Z -> Z) (ff : float -> float -> float)
    (a b : num) : result value :=
  match a, b with
  | NInt x, NInt y => Ok (VInt (fz x y))
  | _, _ => x ← to_float a; y ← to_float b; Ok (VFloat (ff x y))
  end.

Definition py_add (a b : value) : result value :=
  match a, b with
  | VStr x, VStr y => Ok (VStr (x ++ y))
  | _, _ =>
      match as_num a, as_num b with
      | Some x, Some y => arith Z.add fadd x y
      | _, _ => Err TypeError
      end
  end.

Definition py_sub (a b : value) : result value :=
  match as_num a, as_num b with
  | Some x, Some y => arith Z.sub fsub x y
  | _, _ => Err TypeError
  end.

(** [s * n] for a string and an integer: the count must fit a size, and
    so must the length of the result. *)
Definition py_repeat (s : string) (n : Z) : result value :=
  if (n <? - ssize_max - 1) || (ssize_max <? n) then Err OverflowError
  else if n <? 1 then Ok (VStr "")
  else if ssize_max / n <? Z.of_nat (String.length s) then Err OverflowError
  else Ok (VStr (repeat_string s n)).

Definition py_mul (a b : value) : result value :=
  match a, b with
  | VStr x, VInt n | VInt n, VStr x => py_repeat x n
  | VStr x, VBool n | VBool n, VStr x => py_repeat x (Z.b2z n)
  | _, _ =>
      match as_num a, as_num b with
      | Some x, Some y => arith Z.mul fmul x y
      | _, _ => Err TypeError
      end
  end.

Definition py_truediv (a b : value) : result value :=
  match as_num a, as_num b with
  | Some (NInt x), Some (NInt y) => f ← Z_truediv x y; Ok (VFloat f)
  | Some x, Some y =>
      x' ← to_float x; y' ← to_float y;
      if is_zero y' then Err ZeroDivisionError else Ok (VFloat (fdiv x' y'))
  | _, _ => Err TypeError
  end.

(** The order of two numbers, on their exact values; [None] when one is
    a NaN. *)
Definition num_compare (a b : num) : option comparison :=
  match a, b with
  | NInt x, NInt y => Some (x ?= y)
  | NFloat x, NFloat y => SFcompare x y
  | NFloat x, NInt y => fcompare_Z x y
  | NInt x, NFloat y => CompOpp <$> fcompare_Z y x
  end.

(** The order of two values, where the host defines one: [Err TypeError]
    for a string against a number. *)
Definition py_compare (a b : value) : result (option comparison) :=
  match a, b with
  | VStr x, VStr y => Ok (Some (String.compare x y))
  | _, _ =>
      match as_num a, as_num b with
      | Some x, Some y => Ok (num_compare x y)
      | _, _ => Err TypeError
      end
  end.

(** [a == b]: never raises; a string and a number are different. *)
Definition py_eq (a b : value) : bool :=
  match py_compare a b with
  | Ok (Some Eq) => true
  | _ => false
  end.

Definition py_ne (a b : value) : bool := negb (py_eq a b).

Definition py_lt (a b : value) : result value :=
  c ← py_compare a b;
  Ok (VBool match c with Some Lt => true | _ => false end).

Definition py_gt (a b : value) : result value :=
  c ← py_compare a b;
  Ok (VBool match c with Some Gt => true | _ => false end).

Definition py_le (a b : value) : result value :=
  c ← py_compare a b;
  Ok (VBool match c with Some Lt | Some Eq => true | _ => false end).

Definition py_ge (a b : value) : result value :=
  c ← py_compare a b;
  Ok (VBool match c with Some Gt | Some Eq => true | _ => false end).

End Py.

Import Py.

(** ** Tokens *)

(** The names of [Lexer.token_spec], in its order. *)
Inductive kind : Type :=
| NUMBER | STRING
| EQ | NEQ | LT | GT | LE | GE | AND | OR | PL | MN | DP | NP
| VAR | INT | FLT | BOOL | SET | IF | WSET | FCE | TRY | CATCH
| TRUE | FALSE | LEN | INP
| IDENT | ASSIGN | LBRACE | RBRACE | COLON | SKIP | NEWLINE.

#[export] Instance kind_eq_dec : EqDecision kind.
Proof. solve_decision. Defined.

(** [Token(type_, value)] as the lexer builds it: a NUMBER token carries
    the number read, every other token its text (for STRING, without the
    quotes). *)
Inductive Token : Type :=
| NumTok (n : num)
| Tok (k : kind) (v : string).

(** [tok.type]. *)
Definition type (t : Token) : kind :=
  match t with
  | NumTok _ => NUMBER
  | Tok k _ => k
  end.

(** [tok.value]. *)
Definition value_of (t : Token) : value :=
  match t with
  | NumTok n => num_value n
  | Tok _ v => VStr v
  end.

(** ** Lexer *)

Module Lexer.

(** The fragment of the host's regular expressions that [token_spec] uses,
    with the host's backtracking semantics: a character class, a greedy
    star of a class, concatenation and a greedy optional group. *)
Inductive re : Type :=
| Eps
| Class (p : ascii -> bool)
| Star (p : ascii -> bool)
| Cat (r1 r2 : re)
| Opt (r : re).

(** [p+]. *)
Definition Plus (p : ascii -> bool) : re := Cat (Class p) (Star p).

(** A literal text. *)
Fixpoint Lit (w : string) : re :=
  match w with
  | EmptyString => Eps
  | String c w' => Cat (Class (Ascii.eqb c)) (Lit w')
  end.

(** Greedy [p*] followed by the continuation [k]: the longest run first,
    then shorter ones. *)
Fixpoint star (p : ascii -> bool) (k : string -> option string) (s : string)
    : option string :=
  match s with
  | String c s' =>
      if p c then
        match star p k s' with
        | Some r => Some r
        | None => k s
        end
      else k s
  | EmptyString => k s
  end.

(** [rmatch r k s]: match [r] at the start of [s], then [k] on what is
    left; the result is what the first successful way leaves unread. *)
Fixpoint rmatch (r : re) (k : string -> option string) (s : string)
    : option string :=
  match r with
  | Eps => k s
  | Class p =>
      match s with
      | String c s' => if p c then k s' else None
      | EmptyString => None
      end
  | Star p => star p k s
  | Cat r1 r2 => rmatch r1 (rmatch r2 k) s
  | Opt r1 =>
      match rmatch r1 k s with
      | Some x => Some x
      | None => k s
      end
  end.

(** [\w] on U+0000..U+00FF. *)
Definition is_word (c : ascii) : bool :=
  is_digit c || in_range 65 90 c || in_range 97 122 c || (code c =? 95) ||
  (code c =? 170) || in_range 178 179 c || (code c =? 181) ||
  in_range 185 186 c || in_range 188 190 c || in_range 192 214 c ||
  in_range 216 246 c || in_range 248 255 c.

(** [[a-zA-Z_]]. *)
Definition is_ident_start (c : ascii) : bool :=
  in_range 97 122 c || in_range 65 90 c || (code c =? 95).

(** [[ \t]]. *)
Definition is_blank (c : ascii) : bool := (code c =? 32) || (code c =? 9).

Definition is_char (a c : ascii) : bool := Ascii.eqb a c.

Definition not_quote (c : ascii) : bool := negb (code c =? 34).

Definition quote : ascii := ascii_of_nat 34.

Definition token_spec : list (kind * re) :=
  [ (NUMBER,  Cat (Plus is_digit) (Opt (Cat (Class (is_char ".")) (Plus is_digit))));
    (STRING,  Cat (Class (is_char quote)) (Cat (Star not_quote) (Class (is_char quote))));
    (EQ,      Lit "eq");
    (NEQ,     Lit "neq");
    (LT,      Lit "lt");
    (GT,      Lit "gt");
    (LE,      Lit "le");
    (GE,      Lit "ge");
    (AND,     Lit "and");
    (OR,      Lit "or");
    (PL,      Lit "pl");
    (MN,      Lit "mn");
    (DP,      Lit "dp");
    (NP,      Lit "np");
    (VAR,     Lit "var");
    (INT,     Lit "int");
    (FLT,     Lit "flt");
    (BOOL,    Lit "bool");
    (SET,     Lit "set");
    (IF,      Lit "if");
    (WSET,    Lit "wset");
    (FCE,     Lit "fce");
    (TRY,     Lit "try");
    (CATCH,   Lit "catch");
    (TRUE,    Lit "true");
    (FALSE,   Lit "false");
    (LEN,     Lit "len");
    (INP,     Lit "inp");
    (IDENT,   Cat (Class is_ident_start) (Star is_word));
    (ASSIGN,  Lit "=");
    (LBRACE,  Lit "{");
    (RBRACE,  Lit "}");
    (COLON,   Lit ":");
    (SKIP,    Plus is_blank);
    (NEWLINE, Class (is_char (ascii_of_nat 10))) ].

(** The alternation [(?P<n1>p1)|(?P<n2>p2)|...] at the start of [s]: the
    first alternative that matches wins; the result is [m.lastgroup] and
    [m.group()]. *)
Fixpoint match_at (spec : list (kind * re)) (s : string) : option (kind * string) :=
  match spec with
  | [] => None
  | (k, r) :: spec' =>
      match rmatch r Some s with
      | Some rest => Some (k, substring 0 (String.length s - String.length rest) s)
      | None => match_at spec' s
      end
  end.

(** [re.finditer(regex, line)]: the matches from left to right, none
    overlapping; where no alternative matches, the scan moves on by one
    character. [skip] counts the characters of the last match that are
    still to pass. *)
Fixpoint finditer (spec : list (kind * re)) (skip : nat) (line : string)
    : list (kind * string) :=
  match line with
  | EmptyString => []
  | String _ rest =>
      match skip with
      | S n => finditer spec n rest
      | O =>
          match match_at spec line with
          | Some (k, v) => (k, v) :: finditer spec (String.length v - 1) rest
          | None => finditer spec O rest
          end
      end
  end.

(** The line boundaries of [str.splitlines] on U+0000..U+00FF. *)
Definition is_linebreak (c : ascii) : bool :=
  in_range 10 13 c || in_range 28 30 c || (code c =? 133).

(** [code.splitlines()]; [cur] is the line being read. *)
Fixpoint splitlines_from (cur : string) (s : string) : list string :=
  match s with
  | EmptyString => if String.eqb cur "" then [] else [cur]
  | String c s' =>
      if is_linebreak c then
        cur ::
        match s' with
        | String c' s'' =>
            if (code c =? 13) && (code c' =? 10) then splitlines_from "" s''
            else splitlines_from "" s'
        | EmptyString => []
        end
      else splitlines_from (cur ++ String c "") s'
  end.

Definition splitlines (s : string) : list string := splitlines_from "" s.

(** [line.split("#",1)[0]]. *)
Fixpoint before_hash (line : string) : string :=
  match line with
  | EmptyString => EmptyString
  | String c rest => if Ascii.eqb c "#" then EmptyString else String c (before_hash rest)
  end.

(** The body of the inner loop of [tokenize]: the token appended for a
    match, if any. *)
Definition token_of (k : kind) (v : string) : result (option Token) :=
  match k with
  | NUMBER =>
      if contains "." v
      then f ← py_float (VStr v); Ok (Some (NumTok (NFloat f)))
      else z ← py_int (VStr v); Ok (Some (NumTok (NInt z)))
  | STRING => Ok (Some (Tok STRING (substring 1 (String.length v - 2) v)))
  | SKIP | NEWLINE => Ok None
  | _ => Ok (Some (Tok k v))
  end.

Fixpoint tokens_of (ms : list (kind * string)) : result (list Token) :=
  match ms with
  | [] => Ok []
  | (k, v) :: ms' =>
      t ← token_of k v;
      ts ← tokens_of ms';
      Ok (match t with Some t => t :: ts | None => ts end)
  end.

Definition line_matches (line : string) : list (kind * string) :=
  finditer token_spec O (before_hash line).

(** [Lexer(code).tokenize()]. *)
Definition tokenize (code : string) : result (list Token) :=
  tokens_of (concat (map line_matches (splitlines code))).

End Lexer.

(** ** Syntax trees *)

(** The tags of the binary nodes: the types of the operator tokens. *)
Module Op.
Inductive binop : Type :=
| PL | MN | DP | NP | EQ | NEQ | LT | GT | LE | GE | AND | OR.

End Op.

(** [tok.type in ("PL","MN",...,"OR")], with the tag of the node. *)
Definition binop_of_kind (k : kind) : option Op.binop :=
  match k with
  | PL => Some Op.PL | MN => Some Op.MN | DP => Some Op.DP | NP => Some Op.NP
  | EQ => Some Op.EQ | NEQ => Some Op.NEQ | LT => Some Op.LT | GT => Some Op.GT
  | LE => Some Op.LE | GE => Some Op.GE | AND => Some Op.AND | OR => Some Op.OR
  | _ => None
  end.

(** Expression nodes: [("NUM",v)], [("STR",s)], [("BOOL",b)],
    [("VARREF",x)], [("INP",)], [("LEN",e)] and [(op,l,r)]. *)
Inductive node : Type :=
| Num (v : value)
| Str (s : string)
| Bool (b : bool)
| VarRef (x : string)
| Input
| Len (e : node)
| Bin (op : Op.binop) (l r : node).

(** Statement nodes: [("VAR",t,name,val)], [("SET",e)],
    [("IF",cond,then,else_)], [("WSET",cond,body)], [("BLOCK",s)],
    [("FCE",name)] and [("TRY",t,c)]. A branch or body is [None] where
    [statement] returned [None] for it. *)
Inductive stmt : Type :=
| VarDecl (tp : kind) (x : string) (e : node)
| Print (e : node)
| If (c : node) (th el : option stmt)
| While (c : node) (b : option stmt)
| Block (ss : list stmt)
| CallFunc (x : string)
| TryCatch (t c : option stmt).

(** ** Parser *)

Module Parser.

(** What a method of [Parser] raises: [RuntimeError("parser desync")],
    [RuntimeError("bad expr")], and the [AttributeError] of [.type] on the
    [None] that [current] returns at the end of the tokens. *)
Inductive error : Type :=
| parser_desync
| bad_expr
| attribute_error.

(** The outcome of a method on the tokens from [self.pos] on: a result with
    the tokens left, an exception, or [Starved] when the recursion budget of
    the embedding ran out. *)
Inductive presult (A : Type) : Type :=
| Parsed (a : A) (rest : list Token)
| Failed (e : error)
| Starved.
Arguments Parsed {A} a rest.
Arguments Failed {A} e.
Arguments Starved {A}.

Definition pbind {A B} (m : presult A) (f : A -> list Token -> presult B) : presult B :=
  match m with
  | Parsed a rest => f a rest
  | Failed e => Failed e
  | Starved => Starved
  end.

Notation "'let*' x , ts := m 'in' k" := (pbind m (fun x ts => k))
  (at level 10, x pattern, ts name, m at level 100, k at level 200).

(** [self.eat(t)]. *)
Definition eat (t : kind) (ts : list Token) : presult Token :=
  match ts with
  | tok :: rest => if decide (type tok = t) then Parsed tok rest else Failed parser_desync
  | [] => Failed parser_desync
  end.

(** [self.eat("IDENT").value]. *)
Definition eat_ident (ts : list Token) : presult string :=
  match ts with
  | Tok IDENT v :: rest => Parsed v rest
  | _ => Failed parser_desync
  end.

Fixpoint factor (ts : list Token) : presult node :=
  match ts with
  | [] => Failed attribute_error
  | NumTok n :: rest => Parsed (Num (num_value n)) rest
  | Tok k v :: rest =>
      match k with
      | NUMBER => Parsed (Num (VStr v)) rest
      | STRING => Parsed (Str v) rest
      | TRUE => Parsed (Bool true) rest
      | FALSE => Parsed (Bool false) rest
      | IDENT => Parsed (VarRef v) rest
      | INP => Parsed Input rest
      | LEN => let* n, rest' := factor rest in Parsed (Len n) rest'
      | _ => Failed bad_expr
      end
  end.

(** The loop of [expr], with [n] the node built so far. *)
Fixpoint expr_loop (fuel : nat) (n : node) (ts : list Token) : presult node :=
  match ts with
  | [] => Parsed n ts
  | tok :: rest =>
      match binop_of_kind (type tok) with
      | None => Parsed n ts
      | Some op =>
          match fuel with
          | O => Starved
          | S fuel' =>
              let* r, ts' := factor rest in
              expr_loop fuel' (Bin op n r) ts'
          end
      end
  end.

Definition expr (ts : list Token) : presult node :=
  let* n, ts' := factor ts in
  expr_loop (length ts') n ts'.

Definition set_stmt (ts : list Token) : presult (option stmt) :=
  let* _, ts := eat SET ts in
  let* e, ts := expr ts in
  Parsed (Some (Print e)) ts.

Definition var_decl (ts : list Token) : presult (option stmt) :=
  let* _, ts := eat VAR ts in
  match ts with
  | [] => Failed attribute_error
  | tok :: _ =>
      let* t, ts := eat (type tok) ts in
      let* name, ts := eat_ident ts in
      let* _, ts := eat ASSIGN ts in
      let* val, ts := expr ts in
      Parsed (Some (VarDecl (type t) name val)) ts
  end.

Definition fce_stmt (ts : list Token) : presult (option stmt) :=
  let* _, ts := eat FCE ts in
  let* name, ts := eat_ident ts in
  Parsed (Some (CallFunc name)) ts.

Section Statements.
(** [self.block_or_stmt], as the statement parsers below call it. *)
Variable block_or_stmt : list Token -> presult (option stmt).

Definition if_stmt (ts : list Token) : presult (option stmt) :=
  let* _, ts := eat IF ts in
  let* cond, ts := expr ts in
  let* then_, ts := block_or_stmt ts in
  match ts with
  | Tok COLON _ :: _ =>
      let* _, ts := eat COLON ts in
      let* else_, ts := block_or_stmt ts in
      Parsed (Some (If cond then_ else_)) ts
  | _ => Parsed (Some (If cond then_ None)) ts
  end.

Definition wset_stmt (ts : list Token) : presult (option stmt) :=
  let* _, ts := eat WSET ts in
  let* cond, ts := expr ts in
  let* body, ts := block_or_stmt ts in
  Parsed (Some (While cond body)) ts.

Definition try_stmt (ts : list Token) : presult (option stmt) :=
  let* _, ts := eat TRY ts in
  let* t, ts := block_or_stmt ts in
  let* _, ts := eat CATCH ts in
  let* c, ts := block_or_stmt ts in
  Parsed (Some (TryCatch t c)) ts.
End Statements.

(** [statement], [block_or_stmt] and the loop inside the braces, which
    call each other; [fuel] bounds the depth of the calls. *)
Fixpoint statement (fuel : nat) (ts : list Token) : presult (option stmt) :=
  match fuel with
  | O => Starved
  | S fuel' =>
      match ts with
      | [] => Parsed None ts
      | tok :: rest =>
          match type tok with
          | STRING | NUMBER | TRUE | FALSE => Parsed None rest
          | VAR => var_decl ts
          | SET => set_stmt ts
          | IF => if_stmt (block_or_stmt fuel') ts
          | WSET => wset_stmt (block_or_stmt fuel') ts
          | FCE => fce_stmt ts
          | TRY => try_stmt (block_or_stmt fuel') ts
          | _ => Parsed None rest
          end
      end
  end
with block_or_stmt (fuel : nat) (ts : list Token) : presult (option stmt) :=
  match fuel with
  | O => Starved
  | S fuel' =>
      match ts with
      | Tok LBRACE _ :: _ =>
          let* _, ts := eat LBRACE ts in
          let* s, ts := block_loop fuel' [] ts in
          let* _, ts := eat RBRACE ts in
          Parsed (Some (Block s)) ts
      | _ => statement fuel' ts
      end
  end
with block_loop (fuel : nat) (s : list stmt) (ts : list Token) : presult (list stmt) :=
  match fuel with
  | O => Starved
  | S fuel' =>
      match ts with
      | [] => Parsed s ts
      | Tok RBRACE _ :: _ => Parsed s ts
      | _ =>
          let* st, ts' := statement fuel' ts in
          block_loop fuel' (match st with Some x => s ++ [x] | None => s end) ts'
      end
  end.

(** The loop of [parse]. *)
Fixpoint parse_loop (fuel : nat) (stmts : list stmt) (ts : list Token) : presult (list stmt) :=
  match fuel with
  | O => Starved
  | S fuel' =>
      match ts with
      | [] => Parsed stmts ts
      | _ =>
          let* st, ts' := statement fuel' ts in
          parse_loop fuel' (match st with Some x => stmts ++ [x] | None => stmts end) ts'
      end
  end.

(** [Parser(tokens).parse()]; the budget is enough for every token
    sequence ([parse_total]). *)
Definition parse (ts : list Token) : presult (list stmt) :=
  parse_loop (2 * length ts + 2) [] ts.

End Parser.

(** ** Interpreter *)

Module Interpreter.

(** What the program has written: the banner that [run_code] prints first,
    and one [Line] per [print] of the interpreter, holding the text before
    the end of the line. *)
Inductive written : Type :=
| Banner
| Line (text : string).

(** The interpreter ([self.vars], [self.funcs]) and the two channels:
    the lines [input()] will read and what has been written. *)
Record state : Type := State {
  vars : gmap string value;
  funcs : gmap string (list stmt);
  stdin : list string;
  stdout : list written
}.

Definition set_vars (f : gmap string value -> gmap string value) (st : state) : state :=
  State (f (vars st)) (funcs st) (stdin st) (stdout st).

Definition set_stdin (l : list string) (st : state) : state :=
  State (vars st) (funcs st) l (stdout st).

Definition write (text : string) (st : state) : state :=
  State (vars st) (funcs st) (stdin st) (stdout st ++ [Line text]).

(** The outcome of [eval] or [run] from a state: it returns, it raises
    (the state is the one reached when the exception is raised), or the
    budget of the embedding ran out. *)
Inductive outcome (A : Type) : Type :=
| Ret (a : A) (st : state)
| Raise (e : exn) (st : state)
| Timeout.
Arguments Ret {A} a st.
Arguments Raise {A} e st.
Arguments Timeout {A}.

Definition obind {A B} (m : outcome A) (f : A -> state -> outcome B) : outcome B :=
  match m with
  | Ret a st => f a st
  | Raise e st => Raise e st
  | Timeout => Timeout
  end.

Notation "'let!' x , st := m 'in' k" := (obind m (fun x st => k))
  (at level 10, x pattern, st name, m at level 100, k at level 200).

(** A host operation in a state: its exception is raised there. *)
Definition lift {A} (r : result A) (st : state) : outcome A :=
  match r with
  | Ok a => Ret a st
  | Err e => Raise e st
  end.

(** [input()]. *)
Definition input (st : state) : outcome value :=
  match stdin st with
  | l :: rest => Ret (VStr l) (set_stdin rest st)
  | [] => Raise EOFError st
  end.

(** [f(self.eval(n[1]), self.eval(n[2]))]: the left operand first. *)
Definition both (f : value -> value -> result value)
    (l r : state -> outcome value) (st : state) : outcome value :=
  let! a, st := l st in
  let! b, st := r st in
  lift (f a b) st.

Fixpoint eval (n : node) (st : state) : outcome value :=
  match n with
  | Num v => Ret v st
  | Str s => Ret (VStr s) st
  | Bool b => Ret (VBool b) st
  | VarRef x => Ret (default (VInt 0) (vars st !! x)) st
  | Input => input st
  | Len e => let! v, st := eval e st in lift (py_len v) st
  | Bin Op.PL l r => both py_add (eval l) (eval r) st
  | Bin Op.MN l r => both py_sub (eval l) (eval r) st
  | Bin Op.DP l r => both py_mul (eval l) (eval r) st
  | Bin Op.NP l r => both py_truediv (eval l) (eval r) st
  | Bin Op.EQ l r => both (fun a b => Ok (VBool (py_eq a b))) (eval l) (eval r) st
  | Bin Op.NEQ l r => both (fun a b => Ok (VBool (py_ne a b))) (eval l) (eval r) st
  | Bin Op.LT l r => both py_lt (eval l) (eval r) st
  | Bin Op.GT l r => both py_gt (eval l) (eval r) st
  | Bin Op.LE l r => both py_le (eval l) (eval r) st
  | Bin Op.GE l r => both py_ge (eval l) (eval r) st
  | Bin Op.AND l r =>
      let! a, st := eval l st in
      if truthy a then eval r st else Ret a st
  | Bin Op.OR l r =>
      let! a, st := eval l st in
      if truthy a then Ret a st else eval r st
  end.

(** [int(val) if tp=="INT" else float(val) if tp=="FLT" else val]. *)
Definition coerce (tp : kind) (val : value) : result value :=
  match tp with
  | INT => z ← py_int val; Ok (VInt z)
  | FLT => f ← py_float val; Ok (VFloat f)
  | _ => Ok val
  end.

(** [run(stmts)]. A [None] in the list is a branch that [statement] left
    empty: taking its tag raises. [while] is unrolled: after the body, the
    same statement runs again. [fuel] bounds the statements run in a row
    and the depth of the calls. *)
Fixpoint run (fuel : nat) (stmts : list (option stmt)) (st : state) : outcome unit :=
  match stmts with
  | [] => Ret tt st
  | s :: rest =>
      match fuel with
      | O => Timeout
      | S fuel' =>
          let! _, st :=
            match s with
            | None => Raise TypeError st
            | Some (VarDecl tp n v) =>
                let! val, st := eval v st in
                let! val', st := lift (coerce tp val) st in
                Ret tt (set_vars <[n := val']> st)
            | Some (Print e) =>
                let! v, st := eval e st in
                let! text, st := lift (py_str v) st in
                Ret tt (write text st)
            | Some (If c th el) =>
                let! v, st := eval c st in
                if truthy v then run fuel' [th] st
                else match el with
                     | Some _ => run fuel' [el] st
                     | None => Ret tt st
                     end
            | Some (While c b) =>
                let! v, st := eval c st in
                if truthy v then
                  let! _, st := run fuel' [b] st in
                  run fuel' [s] st
                else Ret tt st
            | Some (Block ss) => run fuel' (map Some ss) st
            | Some (CallFunc x) =>
                match funcs st !! x with
                | Some body => run fuel' (map Some body) st
                | None => Ret tt st
                end
            | Some (TryCatch t c) =>
                match run fuel' [t] st with
                | Ret _ st' => Ret tt st'
                | Raise _ st' => run fuel' [c] st'
                | Timeout => Timeout
                end
            end in
          run fuel' rest st
      end
  end.

(** [Interpreter()], reading from [lines] and with [out] written so far. *)
Definition init (lines : list string) (out : list written) : state :=
  State ∅ {[ "hello" := [Print (Str "hello function")] ]} lines out.

End Interpreter.

(** ** The pipeline *)

Import Lexer Parser Interpreter.

(** How [run_code] ends: the exception of the lexer or of the parser
    leaves it at once; otherwise the outcome of the interpreter. *)
Inductive ending : Type :=
| LexerRaised (e : exn)
| ParserRaised (e : Parser.error)
| ParserStarved
| Ran (o : outcome unit).

(** [run_code(code)], with [lines] on the standard input. *)
Definition run_code (fuel : nat) (code : string) (lines : list string) : ending :=
  match tokenize code with
  | Err e => LexerRaised e
  | Ok tokens =>
      match parse tokens with
      | Failed e => ParserRaised e
      | Starved => ParserStarved
      | Parsed tree _ => Ran (run fuel (map Some tree) (init lines [Banner]))
      end
  end.

(** What a finished run has written. *)
Definition output (r : ending) : option (list written) :=
  match r with
  | Ran (Ret _ st) => Some (stdout st)
  | _ => None
  end.

(** [run(stmts)] from [st] ends with [o]: some budget is enough for it. *)
Definition runs (stmts : list (option stmt)) (st : state) (o : outcome unit) : Prop :=
  exists fuel, run fuel stmts st = o /\ o <> Timeout.

(** ** Vocabulary of the properties *)

(** [tok.type in ("STRING","NUMBER","TRUE","FALSE")]. *)
Definition is_literal (k : kind) : bool :=
  match k with
  | STRING | NUMBER | TRUE | FALSE => true
  | _ => false
  end.

(** The token types that [statement] hands to a statement parser. *)
Definition starts_statement (k : kind) : bool :=
  match k with
  | VAR | SET | IF | WSET | FCE | TRY => true
  | _ => false
  end.

(** The tokens [ts] are a factor that reads as the node [e], whatever
    follows them. *)
Definition reads_factor (ts : list Token) (e : node) : Prop :=
  forall rest, factor (ts ++ rest) = Parsed e rest.






(** The longest prefix of [s] in the class [p], and what follows it. *)
Fixpoint run_of (p : ascii -> bool) (s : string) : string :=
  match s with
  | String c s' => if p c then String c (run_of p s') else EmptyString
  | EmptyString => EmptyString
  end.

Fixpoint after_run (p : ascii -> bool) (s : string) : string :=
  match s with
  | String c s' => if p c then after_run p s' else s
  | EmptyString => EmptyString
  end.

Fixpoint all_in (p : ascii -> bool) (s : string) : bool :=
  match s with
  | String c s' => p c && all_in p s'
  | EmptyString => true
  end.

(** The pattern of NUMBER in [token_spec]. *)
Definition number_re : re :=
  Cat (Plus is_digit) (Opt (Cat (Class (is_char ".")) (Plus is_digit))).

(** A non-empty text of digits. *)
Definition digits1 (s : string) : Prop := s <> "" /\ all_in is_digit s = true.

(** What NUMBER matches: digits, or digits, a point and digits. *)
Inductive number_lexeme : string -> Prop :=
| lexeme_int ds : digits1 ds -> number_lexeme ds
| lexeme_float ds ds' : digits1 ds -> digits1 ds' -> number_lexeme (ds ++ "." ++ ds').

(** The end of a digit part: nothing, or a character that is neither a
    digit nor an underscore. *)
Definition ends_digits (r : string) : Prop :=
  match r with
  | EmptyString => True
  | String c _ => is_digit c = false /\ Ascii.eqb c "_" = false
  end.

(** The text of a NUMBER match that the lexer can convert: it has a
    point, and [float] reads it, or it has at most [max_str_digits]
    digits, and [int] reads it. *)
Definition number_fits (v : string) : bool :=
  contains "." v || (Z.of_nat (String.length v) <=? max_str_digits).

(** Every NUMBER match of the text can be converted. *)
Definition numbers_fit (code : string) : bool :=
  forallb (fun m => match fst m with NUMBER => number_fits (snd m) | _ => true end)
          (concat (map line_matches (splitlines code))).

(** No pattern of [token_spec] can start at the character [c]: it is no
    digit, quote, letter, underscore, punctuation of the language, blank or
    line feed. *)
Definition starts_no_token (c : ascii) : bool :=
  negb (is_digit c || is_char quote c || is_ident_start c || is_char "=" c ||
        is_char "{" c || is_char "}" c || is_char ":" c || is_blank c ||
        is_char (ascii_of_nat 10) c).

(** The expression has a [Len] node. *)
Fixpoint has_len (e : node) : bool :=
  match e with
  | Len _ => true
  | Bin _ l r => has_len l || has_len r
  | _ => false
  end.

(** The statement has a [Len] node in one of its expressions. *)
Fixpoint stmt_has_len (s : stmt) : bool :=
  let branch (b : option stmt) :=
    match b with Some s' => stmt_has_len s' | None => false end in
  match s with
  | VarDecl _ _ e => has_len e
  | Print e => has_len e
  | If c th el => has_len c || branch th || branch el
  | While c b => has_len c || branch b
  | Block ss => existsb stmt_has_len ss
  | CallFunc _ => false
  | TryCatch t c => branch t || branch c
  end.

Definition branch_has_len (b : option stmt) : bool :=
  match b with Some s => stmt_has_len s | None => false end.

(** No token of [ts] is a LEN. *)
Definition no_LEN (ts : list Token) : Prop := Forall (fun t => type t <> LEN) ts.

(** What a parser method keeps: from tokens without LEN, a result
    without [Len] and the tokens left without LEN. *)
Definition keeps {A} (clean : A -> Prop) (ts : list Token) (r : presult A) : Prop :=
  no_LEN ts ->
  match r with
  | Parsed a rest => clean a /\ no_LEN rest
  | _ => True
  end.

(** A branch, and a list of statements, without [Len]. *)
Definition clean_branch (b : option stmt) : Prop := branch_has_len b = false.
Definition clean_stmts (ss : list stmt) : Prop := existsb stmt_has_len ss = false.

(** A method did not run out of budget and, when it returned, left no
    more tokens than it got; fewer when [strict]. *)
Definition progress {A} (strict : bool) (ts : list Token) (r : presult A) : Prop :=
  match r with
  | Parsed _ rest =>
      if strict then (length rest < length ts)%nat else (length rest <= length ts)%nat
  | Failed _ => True
  | Starved => False
  end.

Definition nonempty (ts : list Token) : bool :=
  match ts with [] => false | _ => true end.

(** ** Source texts of the examples *)

(** A string literal of the language: [s] between quotes. *)
Definition quoted (s : string) : string := String quote (s ++ String quote "").

(** The end of a line. *)
Definition nl : string := String (ascii_of_nat 10) "".


(** The expression has an [Input] node. *)
Fixpoint reads_input (e : node) : bool :=
  match e with
  | Input => true
  | Len e' => reads_input e'
  | Bin _ l r => reads_input l || reads_input r
  | _ => false
  end.

(** The state an outcome ends in. *)
Definition final {A} (o : outcome A) : option state :=
  match o with
  | Ret _ st => Some st
  | Raise _ st => Some st
  | Timeout => None
  end.

(** From [st] to [st'] nothing changed but the input, of which a front
    part was read. *)
Definition only_reads (st st' : state) : Prop :=
  vars st' = vars st /\ funcs st' = funcs st /\ stdout st' = stdout st /\
  exists used, stdin st = (used ++ stdin st')%list.

Definition is_line (w : written) : Prop :=
  match w with Line _ => True | Banner => False end.

(** From [st] to [st'] the function table is the same, lines were added
    at the end of the output, and a front part of the input was read. *)
Definition only_adds (st st' : state) : Prop :=
  funcs st' = funcs st /\
  (exists more, stdout st' = (stdout st ++ more)%list /\ Forall is_line more) /\
  exists used, stdin st = (used ++ stdin st')%list.

(** Every [VarDecl] in the statement declares a name that [ok] accepts. *)
Fixpoint declares_within (ok : string -> bool) (s : stmt) : bool :=
  let branch (b : option stmt) :=
    match b with Some s' => declares_within ok s' | None => true end in
  match s with
  | VarDecl _ x _ => ok x
  | Print _ => true
  | If _ th el => branch th && branch el
  | While _ b => branch b
  | Block ss => forallb (declares_within ok) ss
  | CallFunc _ => true
  | TryCatch t c => branch t && branch c
  end.

Definition branch_declares_within (ok : string -> bool) (b : option stmt) : bool :=
  match b with Some s => declares_within ok s | None => true end.

(** Where [eval] ends from [st]: every outcome has a state, reached by
    reading input only. *)
Definition eval_ends (st : state) (o : outcome value) : Prop :=
  match final o with
  | Some st' => only_reads st st'
  | None => False
  end.

(** Where [run] ends from [st], when it ends: in a state reached by
    adding output and reading input, and where the variables that [ok]
    rejects are as they were. *)
Definition run_ends (ok : string -> bool) (st : state) (o : outcome unit) : Prop :=
  match final o with
  | Some st' =>
      only_adds st st' /\ forall x, ok x = false -> vars st' !! x = vars st !! x
  | None => True
  end.

(** Every function body of the table declares within [ok]. *)
Definition table_declares_within (ok : string -> bool) (st : state) : Prop :=
  forall f body, funcs st !! f = Some body -> forallb (declares_within ok) body = true.

(** The loop [wset x lt n { var int x = x pl 1 }]. *)
Definition count_up (n : Z) : stmt :=
  While (Bin Op.LT (VarRef "x") (Num (VInt n)))
        (Some (Block [VarDecl INT "x" (Bin Op.PL (VarRef "x") (Num (VInt 1)))])).

(** A state where [x] is the integer [k]. *)
Definition counter (k : Z) : state := State {[ "x" := VInt k ]} ∅ [] [].

(** The value is a number (a [bool] is one) that [float()] can convert. *)
Definition fits_float (v : value) : bool :=
  match as_num v with
  | Some x => match to_float x with Ok _ => true | Err _ => false end
  | None => false
  end.

(** The value is a number equal to zero: [0], [False], [0.0] or [-0.0]. *)
Definition is_zero_number (v : value) : bool :=
  match v with
  | VStr _ => false
  | _ => negb (truthy v)
  end.

(** A token that is no statement and opens no block: [block_or_stmt]
    passes it and returns [None]. *)
Definition is_stray (tok : Token) : bool :=
  negb (starts_statement (type tok)) && negb (bool_decide (type tok = LBRACE)).

(** The matches of all the lines of [code], read after the start [cur]
    of its first line: what [tokenize] makes its tokens from. *)
Definition matches_from (cur code : string) : list (kind * string) :=
  concat (map line_matches (splitlines_from cur code)).

(** No character of the text ends a line. *)
Definition one_line (s : string) : bool := all_in (fun c => negb (is_linebreak c)) s.

(** No character of the text ends a line or starts a comment. *)
Definition plain (s : string) : bool :=
  all_in (fun c => negb (is_linebreak c) && negb (Ascii.eqb c "#")) s.

(** The keywords of [token_spec] other than [len], with their types. *)
Definition keywords : list (kind * string) :=
  [ (EQ, "eq"); (NEQ, "neq"); (LT, "lt"); (GT, "gt"); (LE, "le"); (GE, "ge");
    (AND, "and"); (OR, "or"); (PL, "pl"); (MN, "mn"); (DP, "dp"); (NP, "np");
    (VAR, "var"); (INT, "int"); (FLT, "flt"); (BOOL, "bool"); (SET, "set");
    (IF, "if"); (WSET, "wset"); (FCE, "fce"); (TRY, "try"); (CATCH, "catch");
    (TRUE, "true"); (FALSE, "false"); (INP, "inp") ].

(** After a line end; a line feed after a carriage return is passed with it. *)
Definition after_break (c : ascii) (s : string) : string :=
  match s with
  | String c' s' => if (code c =? 13) && (code c' =? 10) then s' else s
  | EmptyString => EmptyString
  end.

(** A text that can stand between the quotes of a string literal: no
    quote, no line end and no [#] in it. *)
Definition literal_text (s : string) : bool :=
  all_in (fun c => not_quote c && (negb (is_linebreak c) && negb (Ascii.eqb c "#"))) s.

(** The text does not start with a blank. *)
Definition starts_unblank (s : string) : bool :=
  match s with
  | String c _ => negb (is_blank c)
  | EmptyString => true
  end.

(** The tokens a method leaves, when it returns, all have the property. *)
Definition within {A} (P : Token -> Prop) (r : presult A) : Prop :=
  match r with
  | Parsed _ rest => Forall P rest
  | _ => True
  end.

(** ** Parser, with the calls of [factor] written down *)

Module Traced.

(** The outcome of a method together with the calls of [factor] it made:
    for each call, in order, the tokens from [self.pos] on at the call. *)
Definition traced (A : Type) : Type := (list (list Token) * presult A)%type.

(** A step that calls no [factor]. *)
Definition quiet {A} (r : presult A) : traced A := ([], r).

Definition tbind {A B} (m : traced A) (f : A -> list Token -> traced B) : traced B :=
  match snd m with
  | Parsed a rest => ((fst m ++ fst (f a rest))%list, snd (f a rest))
  | Failed e => (fst m, Failed e)
  | Starved => (fst m, Starved)
  end.

Notation "'let+' x , ts := m 'in' k" := (tbind m (fun x ts => k))
  (at level 10, x pattern, ts name, m at level 100, k at level 200).

(** [self.factor()]: the call itself is written down, then those of the
    factor after a LEN token. *)
Fixpoint factor (ts : list Token) : traced node :=
  let inner :=
    match ts with
    | Tok LEN _ :: rest => let+ n, rest' := factor rest in quiet (Parsed (Len n) rest')
    | _ => quiet (Parser.factor ts)
    end in
  (ts :: fst inner, snd inner).

Fixpoint expr_loop (fuel : nat) (n : node) (ts : list Token) : traced node :=
  match ts with
  | [] => quiet (Parsed n ts)
  | tok :: rest =>
      match binop_of_kind (type tok) with
      | None => quiet (Parsed n ts)
      | Some op =>
          match fuel with
          | O => quiet Starved
          | S fuel' =>
              let+ r, ts' := factor rest in
              expr_loop fuel' (Bin op n r) ts'
          end
      end
  end.

Definition expr (ts : list Token) : traced node :=
  let+ n, ts' := factor ts in
  expr_loop (length ts') n ts'.

Definition set_stmt (ts : list Token) : traced (option stmt) :=
  let+ _, ts := quiet (eat SET ts) in
  let+ e, ts := expr ts in
  quiet (Parsed (Some (Print e)) ts).

Definition var_decl (ts : list Token) : traced (option stmt) :=
  let+ _, ts := quiet (eat VAR ts) in
  match ts with
  | [] => quiet (Failed attribute_error)
  | tok :: _ =>
      let+ t, ts := quiet (eat (type tok) ts) in
      let+ name, ts := quiet (eat_ident ts) in
      let+ _, ts := quiet (eat ASSIGN ts) in
      let+ val, ts := expr ts in
      quiet (Parsed (Some (VarDecl (type t) name val)) ts)
  end.

Section Statements.
Variable block_or_stmt : list Token -> traced (option stmt).

Definition if_stmt (ts : list Token) : traced (option stmt) :=
  let+ _, ts := quiet (eat IF ts) in
  let+ cond, ts := expr ts in
  let+ then_, ts := block_or_stmt ts in
  match ts with
  | Tok COLON _ :: _ =>
      let+ _, ts := quiet (eat COLON ts) in
      let+ else_, ts := block_or_stmt ts in
      quiet (Parsed (Some (If cond then_ else_)) ts)
  | _ => quiet (Parsed (Some (If cond then_ None)) ts)
  end.

Definition wset_stmt (ts : list Token) : traced (option stmt) :=
  let+ _, ts := quiet (eat WSET ts) in
  let+ cond, ts := expr ts in
  let+ body, ts := block_or_stmt ts in
  quiet (Parsed (Some (While cond body)) ts).

Definition try_stmt (ts : list Token) : traced (option stmt) :=
  let+ _, ts := quiet (eat TRY ts) in
  let+ t, ts := block_or_stmt ts in
  let+ _, ts := quiet (eat CATCH ts) in
  let+ c, ts := block_or_stmt ts in
  quiet (Parsed (Some (TryCatch t c)) ts).
End Statements.

Fixpoint statement (fuel : nat) (ts : list Token) : traced (option stmt) :=
  match fuel with
  | O => quiet Starved
  | S fuel' =>
      match ts with
      | [] => quiet (Parsed None ts)
      | tok :: rest =>
          match type tok with
          | STRING | NUMBER | TRUE | FALSE => quiet (Parsed None rest)
          | VAR => var_decl ts
          | SET => set_stmt ts
          | IF => if_stmt (block_or_stmt fuel') ts
          | WSET => wset_stmt (block_or_stmt fuel') ts
          | FCE => quiet (fce_stmt ts)
          | TRY => try_stmt (block_or_stmt fuel') ts
          | _ => quiet (Parsed None rest)
          end
      end
  end
with block_or_stmt (fuel : nat) (ts : list Token) : traced (option stmt) :=
  match fuel with
  | O => quiet Starved
  | S fuel' =>
      match ts with
      | Tok LBRACE _ :: _ =>
          let+ _, ts := quiet (eat LBRACE ts) in
          let+ s, ts := block_loop fuel' [] ts in
          let+ _, ts := quiet (eat RBRACE ts) in
          quiet (Parsed (Some (Block s)) ts)
      | _ => statement fuel' ts
      end
  end
with block_loop (fuel : nat) (s : list stmt) (ts : list Token) : traced (list stmt) :=
  match fuel with
  | O => quiet Starved
  | S fuel' =>
      match ts with
      | [] => quiet (Parsed s ts)
      | Tok RBRACE _ :: _ => quiet (Parsed s ts)
      | _ =>
          let+ st, ts' := statement fuel' ts in
          block_loop fuel' (match st with Some x => s ++ [x] | None => s end) ts'
      end
  end.

Fixpoint parse_loop (fuel : nat) (stmts : list stmt) (ts : list Token) : traced (list stmt) :=
  match fuel with
  | O => quiet Starved
  | S fuel' =>
      match ts with
      | [] => quiet (Parsed stmts ts)
      | _ =>
          let+ st, ts' := statement fuel' ts in
          parse_loop fuel' (match st with Some x => stmts ++ [x] | None => stmts end) ts'
      end
  end.

(** [Parser(tokens).parse()]: the tokens at which it called [factor],
    and its outcome. *)
Definition parse (ts : list Token) : traced (list stmt) :=
  parse_loop (2 * length ts + 2) [] ts.

End Traced.

(** A call of [factor] that raises "bad expr" makes the method raise it. *)
Definition raises_where_called {A} (t : Traced.traced A) : Prop :=
  forall pos, In pos (fst t) -> factor pos = Failed bad_expr -> snd t = Failed bad_expr.

(** ** Rounding an integer to a float *)

(** After [k] shifts to the right of [P]: the quotient, and where the
    remainder lies with respect to the half of [2^k]. *)
Definition shifted (P : Z) (k : Z) (mrs : shr_record) : Prop :=
  exists rem, 0 <= shr_m mrs /\ P = shr_m mrs * 2 ^ k + rem /\ 0 <= rem < 2 ^ k /\
    shr_r mrs = (2 ^ k <=? 2 * rem) /\
    shr_s mrs = negb ((rem =? 0) || (2 * rem =? 2 ^ k)).

(** [q], or [q + 1], for a remainder [rem] of the division by [X]: the
    nearer, the even one at the half. *)
Definition round_half_even (q rem X : Z) : Z :=
  if 2 * rem <? X then q
  else if X <? 2 * rem then q + 1
  else if Z.even q then q else q + 1.

(** The binary64 number [m * 2^e] is the one nearest to the integer
    [P >= 1]: its mantissa has 53 bits; it is [P] itself when [e <= 0];
    when [0 < e], no [m' * 2^e'] with a mantissa of 53 bits is nearer to
    [P], and when another one is as near, [m] is even. *)
Definition nearest_binary64 (P : Z) (m : positive) (e : Z) : Prop :=
  2 ^ 52 <= Zpos m < 2 ^ 53 /\ -52 <= e <= 971 /\
  (e <= 0 -> Zpos m = P * 2 ^ (- e)) /\
  (0 < e -> forall m' e', 2 ^ 52 <= m' < 2 ^ 53 -> 0 <= e' ->
     Z.abs (P - Zpos m * 2 ^ e) <= Z.abs (P - m' * 2 ^ e') /\
     (Z.abs (P - Zpos m * 2 ^ e) = Z.abs (P - m' * 2 ^ e') ->
      m' * 2 ^ e' <> Zpos m * 2 ^ e -> Z.even (Zpos m) = true)).

(** The least integer that [float] cannot convert: half way between
    the largest binary64 number and [2^1024]. *)
Definition float_limit : Z := 2 ^ 1024 - 2 ^ 970.

(** ** String literals in a line *)

(** No character class of the expression accepts the character [c]: a
    match cannot pass over [c]. *)
Fixpoint rejects (c : ascii) (r : re) : bool :=
  match r with
  | Eps => true
  | Class p => negb (p c)
  | Star p => negb (p c)
  | Cat r1 r2 => rejects c r1 && rejects c r2
  | Opt r1 => rejects c r1
  end.

(** The quotes of the text go in pairs; [inside] tells that a quote
    before the text is still open. *)
Fixpoint quotes_paired (inside : bool) (s : string) : bool :=
  match s with
  | EmptyString => negb inside
  | String c s' => quotes_paired (if not_quote c then inside else negb inside) s'
  end.

(** The start of a line in front of a string literal: no comment, no
    line end, and every quote in it is closed. *)
Definition before_literal (l : string) : bool := plain l && quotes_paired false l.

(** * Properties *)

Local Arguments String.append : simpl nomatch.

(** ** The budget of [run] *)

Lemma obind_not_timeout {A B} (m : outcome A) (f : A -> state -> outcome B) :
  obind m f <> Timeout -> m <> Timeout.
Proof. destruct m; simpl; congruence. Qed.

(** A run that ended keeps its outcome under any larger budget. *)
Lemma run_mono fuel : forall fuel' stmts st,
  (fuel <= fuel')%nat -> run fuel stmts st <> Timeout ->
  run fuel' stmts st = run fuel stmts st.
Proof.
  induction fuel as [|fuel IH]; intros fuel' stmts st Hle Hrun.
  - destruct stmts; [destruct fuel'; reflexivity | simpl in Hrun; congruence].
  - destruct stmts as [|s rest]; [destruct fuel'; reflexivity|].
    destruct fuel' as [|fuel']; [lia|].
    assert (Hf : (fuel <= fuel')%nat) by lia.
    simpl in *.
    match type of Hrun with obind ?b _ <> _ =>
      match goal with |- obind ?b' _ = _ => assert (Hb : b' = b) end end.
    { apply obind_not_timeout in Hrun.
      destruct s as [[tp n v|e|c th el|c b|ss|x|t c]|]; try reflexivity.
      - destruct (eval c st) as [v st1| |]; simpl in *; try reflexivity.
        destruct (truthy v); [apply IH; auto|].
        destruct el; [apply IH; auto|reflexivity].
      - destruct (eval c st) as [v st1| |]; simpl in *; try reflexivity.
        destruct (truthy v); [|reflexivity].
        pose proof (obind_not_timeout _ _ Hrun) as H1.
        rewrite (IH fuel' _ _ Hf H1).
        destruct (run fuel [b] st1) as [[] st2| |]; simpl in *; try reflexivity.
        apply IH; auto.
      - apply IH; auto.
      - destruct (funcs st !! x); [apply IH; auto|reflexivity].
      - assert (H1 : run fuel [t] st <> Timeout)
          by (intros E; rewrite E in Hrun; congruence).
        rewrite (IH fuel' _ _ Hf H1).
        destruct (run fuel [t] st) as [[] st2| |]; try reflexivity.
        apply IH; auto. }
    rewrite Hb.
    destruct (match s with Some _ => _ | None => _ end) as [[] st1| |];
      simpl in *; try reflexivity.
    apply IH; auto.
Qed.

(** The outcome of a run does not depend on the budget that reaches it. *)
Lemma runs_det stmts st o1 o2 : runs stmts st o1 -> runs stmts st o2 -> o1 = o2.
Proof.
  intros [f1 [H1 N1]] [f2 [H2 N2]].
  destruct (Nat.le_ge_cases f1 f2) as [Hle|Hle].
  - rewrite <- H1 in N1. rewrite <- (run_mono f1 f2 _ _ Hle N1) in H1. congruence.
  - rewrite <- H2 in N2. rewrite <- (run_mono f2 f1 _ _ Hle N2) in H2. congruence.
Qed.

(** One statement: what [run([s])] does after the body of the loop. *)
Lemma run_single_end fuel (o : outcome unit) :
  obind o (fun _ st => run fuel [] st) = match o with Ret _ st => Ret tt st | _ => o end.
Proof. destruct o as [[] st| |]; destruct fuel; reflexivity. Qed.

(** The budget of [run_code]: a finished or failed run stays what it is. *)
Lemma run_code_mono fuel fuel' code lines o :
  (fuel <= fuel')%nat -> o <> Timeout ->
  run_code fuel code lines = Ran o -> run_code fuel' code lines = Ran o.
Proof.
  unfold run_code. intros Hle N H.
  destruct (tokenize code); [|discriminate].
  destruct (parse a); try discriminate.
  injection H as H. f_equal. rewrite <- H in N.
  rewrite (run_mono fuel fuel' _ _ Hle N). exact H.
Qed.

(** A finished run of [run_code] is the same under any larger budget. *)
Lemma run_code_ret fuel fuel' code lines st :
  (fuel <= fuel')%nat ->
  run_code fuel code lines = Ran (Ret tt st) -> run_code fuel' code lines = Ran (Ret tt st).
Proof. intros Hle H. apply (run_code_mono fuel fuel'); [exact Hle | discriminate | exact H]. Qed.

(** ** Expressions *)

Lemma length_append (a b : string) :
  String.length (a ++ b) = (String.length a + String.length b)%nat.
Proof. induction a as [|c a IH]; simpl; [reflexivity | rewrite IH; reflexivity]. Qed.

(** C5. A [VarRef] of a name that is not in the environment evaluates to
    the integer 0 and raises nothing; a [VarRef] of a name that is there
    evaluates to the value stored. The state is unchanged in both cases.
    So [set y] writes [0] when nothing declared [y], and the value of [y]
    after a declaration. *)
Theorem varref_missing_is_zero (x : string) (st : state) :
  (vars st !! x = None -> eval (VarRef x) st = Ret (VInt 0) st) /\
  (forall v, vars st !! x = Some v -> eval (VarRef x) st = Ret v st) /\
  (forall fuel lines, (3 <= fuel)%nat ->
     output (run_code fuel ("set y var var y = " ++ quoted "a" ++ " set y") lines) =
       Some [Banner; Line "0"; Line "a"]).
Proof.
  repeat apply conj.
  - intros H. simpl. rewrite H. reflexivity.
  - intros v H. simpl. rewrite H. reflexivity.
  - intros fuel lines Hle.
    assert (H : run_code 3 ("set y var var y = " ++ quoted "a" ++ " set y") lines =
       Ran (Ret tt (State {[ "y" := VStr "a" ]} (funcs (init lines [])) lines
                      [Banner; Line "0"; Line "a"])))
      by (vm_compute; reflexivity).
    rewrite (run_code_ret 3 fuel _ _ _ Hle H). reflexivity.
Qed.

Lemma varref_missing_is_zero_witness :
  eval (VarRef "y") (State {[ "x" := VStr "a" ]} ∅ [] []) =
    Ret (VInt 0) (State {[ "x" := VStr "a" ]} ∅ [] []) /\
  eval (VarRef "x") (State {[ "x" := VStr "a" ]} ∅ [] []) =
    Ret (VStr "a") (State {[ "x" := VStr "a" ]} ∅ [] []) /\
  output (run_code 3 ("set y var var y = " ++ quoted "a" ++ " set y") []) =
    Some [Banner; Line "0"; Line "a"].
Proof.
  destruct (varref_missing_is_zero "y" (State {[ "x" := VStr "a" ]} ∅ [] []))
    as (H0 & _ & Hprog).
  destruct (varref_missing_is_zero "x" (State {[ "x" := VStr "a" ]} ∅ [] []))
    as (_ & H1 & _).
  repeat apply conj; [apply H0 | apply H1 | apply Hprog; lia]; reflexivity.
Defined.

(** C7. For every string [s], the node [Len (Str s)] evaluates to the
    number of characters of [s], and raises nothing, in every state. More
    generally [Len e] is the number of characters of the string that [e]
    evaluates to; for a concatenation it is the sum of the two lengths. *)
Theorem len_of_str (s : string) (st : state) :
  eval (Len (Str s)) st = Ret (VInt (Z.of_nat (String.length s))) st /\
  (forall e st', eval e st = Ret (VStr s) st' ->
     eval (Len e) st = Ret (VInt (Z.of_nat (String.length s))) st') /\
  (forall s', eval (Len (Bin Op.PL (Str s) (Str s'))) st =
     Ret (VInt (Z.of_nat (String.length s) + Z.of_nat (String.length s'))) st).
Proof.
  repeat apply conj.
  - reflexivity.
  - intros e st' H. simpl. rewrite H. reflexivity.
  - intros s'. simpl. rewrite length_append, Nat2Z.inj_add. reflexivity.
Qed.

Lemma len_of_str_witness :
  eval (Len (Str "abc")) (init [] []) = Ret (VInt 3) (init [] []) /\
  eval (Len Input) (init ["abcd"; "e"] []) = Ret (VInt 4) (init ["e"] []).
Proof.
  destruct (len_of_str "abc" (init [] [])) as (H & _).
  destruct (len_of_str "abcd" (init ["abcd"; "e"] [])) as (_ & Hgen & _).
  split; [exact H | apply Hgen; reflexivity].
Defined.

(** C1, as the code has it. [and] and [or] evaluate the left operand
    first and the right operand only when the left one does not decide:
    [and] returns a falsy left value as it is, [or] a truthy one, without
    evaluating the right operand; otherwise the result, or the exception,
    is that of the right operand in the state the left one left. *)
Theorem and_or_left_decides (l r : node) (st : state) :
  (forall a st', eval l st = Ret a st' -> truthy a = false ->
     eval (Bin Op.AND l r) st = Ret a st') /\
  (forall a st', eval l st = Ret a st' -> truthy a = true ->
     eval (Bin Op.AND l r) st = eval r st') /\
  (forall a st', eval l st = Ret a st' -> truthy a = true ->
     eval (Bin Op.OR l r) st = Ret a st') /\
  (forall a st', eval l st = Ret a st' -> truthy a = false ->
     eval (Bin Op.OR l r) st = eval r st') /\
  (forall e st', eval l st = Raise e st' ->
     eval (Bin Op.AND l r) st = Raise e st' /\ eval (Bin Op.OR l r) st = Raise e st').
Proof.
  repeat split; intros; simpl; rewrite H; simpl; try rewrite H0; reflexivity.
Qed.

Lemma and_or_left_decides_witness :
  eval (Bin Op.AND (Num (VInt 0)) Input) (init ["a"] []) = Ret (VInt 0) (init ["a"] []) /\
  eval (Bin Op.OR (Num (VInt 0)) Input) (init ["a"] []) = Ret (VStr "a") (init [] []).
Proof.
  destruct (and_or_left_decides (Num (VInt 0)) Input (init ["a"] []))
    as (Hand & _ & _ & Hor & _).
  split.
  - apply Hand; reflexivity.
  - rewrite (Hor (VInt 0) (init ["a"] [])); reflexivity.
Defined.

(** C1 as stated fails: with a falsy left operand [and] does not evaluate
    its right operand (and [or] with a truthy one). Reading a line at the
    end of the input raises, yet [false and inp] and [true or inp] return
    the left value; and the line that [inp] would read is still there
    for the next statement. *)
Lemma and_or_both_operands_counterexample :
  eval Input (init [] []) = Raise EOFError (init [] []) /\
  eval (Bin Op.AND (Bool false) Input) (init [] []) = Ret (VBool false) (init [] []) /\
  eval (Bin Op.OR (Bool true) Input) (init [] []) = Ret (VBool true) (init [] []) /\
  output (run_code 3 "set false and inp set true or inp set inp" ["a"]) =
    Some [Banner; Line "False"; Line "True"; Line "a"].
Proof. repeat split; vm_compute; reflexivity. Qed.

(** ** Statements *)

(** A run of one statement unfolds to the outcome of its body. *)
Lemma runs_single_inv s st o :
  runs [s] st o -> exists fuel, run (S fuel) [s] st = o /\ o <> Timeout.
Proof.
  intros [[|fuel] [H N]]; [simpl in H; congruence | eauto].
Qed.

(** C4. [TryCatch] runs the try-branch. When that returns, the statement
    is over and the catch-branch does not run; when it raises, whatever
    the exception, the catch-branch runs from the state reached, and its
    outcome, an exception included, is the outcome of the statement.
    These are the only ways the statement ends. The program
    [try { set 1 np 0 } catch { set "caught" }] writes the line [caught]
    and no other after the banner. *)
Theorem try_catch_switches (t c : option stmt) (st : state) :
  (forall st', runs [t] st (Ret tt st') ->
     runs [Some (TryCatch t c)] st (Ret tt st')) /\
  (forall e st' o, runs [t] st (Raise e st') -> runs [c] st' o ->
     runs [Some (TryCatch t c)] st o) /\
  (forall o, runs [Some (TryCatch t c)] st o ->
     (exists st', o = Ret tt st' /\ runs [t] st (Ret tt st')) \/
     (exists e st', runs [t] st (Raise e st') /\ runs [c] st' o)) /\
  (forall fuel lines, (4 <= fuel)%nat ->
     output (run_code fuel
       ("try { set 1 np 0 } catch { set " ++ quoted "caught" ++ " }") lines) =
     Some [Banner; Line "caught"]).
Proof.
  split; [|split; [|split]].
  - intros st' [f [H N]]. exists (S f). split; [|discriminate].
    simpl. rewrite H. destruct f; reflexivity.
  - intros e st' o [f1 [H1 N1]] [f2 [H2 N2]].
    exists (S (f1 `max` f2)). split; [|exact N2].
    simpl.
    rewrite (run_mono f1 (f1 `max` f2)) by (try lia; rewrite H1; discriminate).
    rewrite H1.
    rewrite (run_mono f2 (f1 `max` f2)) by (try lia; rewrite H2; exact N2).
    rewrite H2. rewrite run_single_end. destruct o as [[] ?| |]; congruence.
  - intros o Hr. apply runs_single_inv in Hr as [f [H N]].
    simpl in H. rewrite run_single_end in H.
    destruct (run f [t] st) as [[] st1|e st1|] eqn:Et.
    + left. exists st1. split; [congruence|]. exists f. split; [exact Et|discriminate].
    + right. exists e, st1. split; [exists f; split; [exact Et|discriminate]|].
      exists f. split; [|exact N].
      destruct (run f [c] st1) as [[] ?| |]; congruence.
    + congruence.
  - intros fuel lines Hle.
    assert (H : run_code 4
       ("try { set 1 np 0 } catch { set " ++ quoted "caught" ++ " }") lines =
       Ran (Ret tt (State ∅ (funcs (init lines [])) lines [Banner; Line "caught"])))
      by (vm_compute; reflexivity).
    rewrite (run_code_ret 4 fuel _ _ _ Hle H). reflexivity.
Qed.

Lemma try_catch_switches_witness :
  runs [Some (TryCatch (Some (Print (Bin Op.NP (Num (VInt 1)) (Num (VInt 0)))))
                       (Some (Print (Str "caught"))))]
       (init [] []) (Ret tt (init [] [Line "caught"])) /\
  output (run_code 4
    ("try { set 1 np 0 } catch { set " ++ quoted "caught" ++ " }") []) =
  Some [Banner; Line "caught"].
Proof.
  destruct (try_catch_switches
              (Some (Print (Bin Op.NP (Num (VInt 1)) (Num (VInt 0)))))
              (Some (Print (Str "caught"))) (init [] []))
    as (_ & Hraise & _ & Hprog).
  split.
  - apply (Hraise ZeroDivisionError (init [] [])).
    + exists 2%nat. split; [vm_compute; reflexivity | discriminate].
    + exists 2%nat. split; [vm_compute; reflexivity | discriminate].
  - apply Hprog. lia.
Defined.

(** C10. [CallFunc] of a name in the function table runs the statements
    stored there in place, from the current state and with the same
    outcome; [fce hello] writes the line [hello function]. [CallFunc] of a
    name that is not in the table returns at once: nothing is written, the
    environment is unchanged and nothing is raised. *)
Theorem call_func_inline (x : string) (st : state) :
  (forall body o, funcs st !! x = Some body ->
     (runs [Some (CallFunc x)] st o <-> runs (map Some body) st o)) /\
  (funcs st !! x = None -> runs [Some (CallFunc x)] st (Ret tt st)) /\
  (forall fuel lines, (3 <= fuel)%nat ->
     output (run_code fuel "fce hello" lines) = Some [Banner; Line "hello function"]) /\
  (forall fuel lines, (1 <= fuel)%nat ->
     run_code fuel "fce missingName" lines = Ran (Ret tt (init lines [Banner]))).
Proof.
  split; [|split; [|split]].
  - intros body o Hx. split.
    + intros Hr. apply runs_single_inv in Hr as [f [H N]].
      simpl in H. rewrite Hx, run_single_end in H.
      exists f. split; [|exact N].
      destruct (run f (map Some body) st) as [[] ?| |]; congruence.
    + intros [f [H N]]. exists (S f). split; [|exact N].
      simpl. rewrite Hx, run_single_end, H. destruct o as [[] ?| |]; congruence.
  - intros Hx. exists 1%nat. split; [|discriminate]. simpl. rewrite Hx. reflexivity.
  - intros fuel lines Hle.
    assert (H : run_code 3 "fce hello" lines =
       Ran (Ret tt (State ∅ (funcs (init lines [])) lines [Banner; Line "hello function"])))
      by (vm_compute; reflexivity).
    rewrite (run_code_ret 3 fuel _ _ _ Hle H). reflexivity.
  - intros fuel lines Hle.
    assert (H : run_code 1 "fce missingName" lines = Ran (Ret tt (init lines [Banner])))
      by (vm_compute; reflexivity).
    exact (run_code_ret 1 fuel _ _ _ Hle H).
Qed.

Lemma call_func_inline_witness :
  runs [Some (CallFunc "hello")] (init [] []) (Ret tt (init [] [Line "hello function"])) /\
  runs [Some (CallFunc "missingName")] (init ["a"] []) (Ret tt (init ["a"] [])) /\
  output (run_code 3 "fce hello" []) = Some [Banner; Line "hello function"] /\
  run_code 1 "fce missingName" [] = Ran (Ret tt (init [] [Banner])).
Proof.
  destruct (call_func_inline "hello" (init [] [])) as (Hin & _ & Hhello & _).
  destruct (call_func_inline "missingName" (init ["a"] [])) as (_ & Hout & _ & Hmiss).
  split; [|split; [|split]].
  - apply (Hin [Print (Str "hello function")]); [reflexivity|].
    exists 1%nat. split; [vm_compute; reflexivity | discriminate].
  - apply Hout. reflexivity.
  - apply Hhello. lia.
  - apply Hmiss. lia.
Defined.

(** [int(x)] of a finite float is its integer part: the exact value
    [m * 2^e] lies between [a] and [a + 1], and the sign is kept. *)
Lemma Z_of_float_truncates (s : bool) (m : positive) (e : Z) :
  exists a, Z_of_float (S754_finite s m e) = Ok (if s then - a else a) /\
    a * 2 ^ Z.max 0 (- e) <= Zpos m * 2 ^ Z.max 0 e < (a + 1) * 2 ^ Z.max 0 (- e).
Proof.
  unfold Z_of_float. destruct (Z.leb_spec 0 e) as [He|He].
  - exists (Zpos m * 2 ^ e). split; [reflexivity|].
    rewrite (Z.max_l 0 (- e)), (Z.max_r 0 e) by lia. simpl (2 ^ 0). lia.
  - exists (Zpos m / 2 ^ (- e)). split; [reflexivity|].
    rewrite (Z.max_r 0 (- e)), (Z.max_l 0 e) by lia. simpl (2 ^ 0).
    assert (Hp : 0 < 2 ^ (- e)) by (apply Z.pow_pos_nonneg; lia).
    pose proof (Z.mul_div_le (Zpos m) _ Hp).
    pose proof (Z.mul_succ_div_gt (Zpos m) _ Hp).
    lia.
Qed.

(** ** Host language: [float] of an integer *)

Lemma digits2_bounds p :
  2 ^ (Zpos (digits2_pos p) - 1) <= Zpos p < 2 ^ Zpos (digits2_pos p).
Proof.
  induction p as [p IH|p IH|]; cbn [digits2_pos].
  - rewrite Pos2Z.inj_succ. change (Zpos p~1) with (2 * Zpos p + 1).
    replace (Z.succ (Zpos (digits2_pos p)) - 1) with (Z.succ (Zpos (digits2_pos p) - 1)) by lia.
    rewrite !Z.pow_succ_r by lia. destruct IH as [H1 H2].
    generalize dependent (2 ^ (Zpos (digits2_pos p) - 1)).
    generalize dependent (2 ^ Zpos (digits2_pos p)). intros; lia.
  - rewrite Pos2Z.inj_succ. change (Zpos p~0) with (2 * Zpos p).
    replace (Z.succ (Zpos (digits2_pos p)) - 1) with (Z.succ (Zpos (digits2_pos p) - 1)) by lia.
    rewrite !Z.pow_succ_r by lia. destruct IH as [H1 H2].
    generalize dependent (2 ^ (Zpos (digits2_pos p) - 1)).
    generalize dependent (2 ^ Zpos (digits2_pos p)). intros; lia.
  - simpl. lia.
Qed.

(** The number of bits is the only [d] with [2^(d-1) <= p < 2^d]. *)
Lemma digits2_unique p d :
  2 ^ (d - 1) <= Zpos p < 2 ^ d -> Zpos (digits2_pos p) = d.
Proof.
  intros [H1 H2]. pose proof (digits2_bounds p) as [B1 B2].
  assert (Hd : 0 < d).
  { destruct (Z.lt_ge_cases 0 d) as [|Hle]; [assumption|].
    assert (2 ^ d <= 1); [|lia].
    destruct (Z.eq_dec d 0) as [->|]; [simpl; lia|].
    rewrite Z.pow_neg_r by lia. lia. }
  destruct (Z.lt_trichotomy (Zpos (digits2_pos p)) d) as [Hlt|[Heq|Hgt]]; [|exact Heq|].
  - assert (2 ^ Zpos (digits2_pos p) <= 2 ^ (d - 1)) by (apply Z.pow_le_mono_r; lia). lia.
  - assert (2 ^ d <= 2 ^ (Zpos (digits2_pos p) - 1)) by (apply Z.pow_le_mono_r; lia). lia.
Qed.

Lemma shift_pos_spec p n : Zpos (Pos.iter xO p n) = Zpos p * 2 ^ Zpos n.
Proof.
  induction n as [|n IH] using Pos.peano_ind.
  - simpl. lia.
  - rewrite Pos.iter_succ.
    change (Zpos (Pos.iter xO p n)~0) with (2 * Zpos (Pos.iter xO p n)).
    rewrite IH, Pos2Z.inj_succ, Z.pow_succ_r by lia. lia.
Qed.

(** [iter_pos f n] applies [f] [n] times. *)
Lemma iter_pos_invariant {A} (f : A -> A) (Inv : Z -> A -> Prop) :
  (forall k x, 0 <= k -> Inv k x -> Inv (k + 1) (f x)) ->
  forall n k x, 0 <= k -> Inv k x -> Inv (k + Zpos n) (SpecFloat.iter_pos f n x).
Proof.
  intros Hstep. induction n as [n IH|n IH|]; intros k x Hk Hx; cbn [SpecFloat.iter_pos].
  - replace (k + Zpos n~1) with (k + 1 + Zpos n + Zpos n) by lia.
    apply IH; [lia|]. apply IH; [lia|]. apply Hstep; assumption.
  - replace (k + Zpos n~0) with (k + Zpos n + Zpos n) by lia.
    apply IH; [lia|]. apply IH; assumption.
  - apply Hstep; assumption.
Qed.
Ltac cases_of_tests :=
  repeat match goal with
  | |- context [?a <=? ?b] => destruct (Z.leb_spec a b)
  | |- context [?a =? ?b] => destruct (Z.eqb_spec a b)
  | |- context [?a <? ?b] => destruct (Z.ltb_spec a b)
  end.

Lemma shr_1_shifted P k mrs : 0 <= k -> shifted P k mrs -> shifted P (k + 1) (shr_1 mrs).
Proof.
  intros Hk (rem & Hm & HP & Hrem & Hr & Hs). destruct mrs as [m r s].
  cbn [shr_m shr_r shr_s] in *. subst r s. unfold shifted.
  assert (Hpow : 2 ^ (k + 1) = 2 * 2 ^ k) by (rewrite Z.pow_add_r by lia; lia).
  rewrite Hpow. clear Hpow.
  assert (HX : 0 < 2 ^ k) by (apply Z.pow_pos_nonneg; lia).
  generalize dependent (2 ^ k). intros X HP Hrem HX.
  destruct m as [|[q|q|]|q]; [| | | |lia]; cbn [shr_1 shr_m shr_r shr_s].
  - exists rem. repeat split; try lia; cases_of_tests; simpl; lia.
  - exists (X + rem). change (Zpos q~1) with (2 * Zpos q + 1) in HP.
    repeat split; try lia; cases_of_tests; simpl; lia.
  - exists rem. change (Zpos q~0) with (2 * Zpos q) in HP.
    repeat split; try lia; cases_of_tests; simpl; lia.
  - exists (X + rem). repeat split; try lia; cases_of_tests; simpl; lia.
Qed.

Lemma shr_shifted P n :
  0 <= P -> shifted P (Zpos n) (SpecFloat.iter_pos shr_1 n (Build_shr_record P false false)).
Proof.
  intros HP.
  apply (iter_pos_invariant shr_1 (shifted P) (shr_1_shifted P) n 0); [lia|].
  exists 0. cbn [shr_m shr_r shr_s]. repeat split; try lia; reflexivity.
Qed.
Lemma fexp_above d e : 1 <= d -> -1021 <= e -> fexp prec emax (d + e) = d + e - 53.
Proof. intros Hd He. unfold fexp, emin, prec, emax. lia. Qed.

(** A mantissa of 53 bits with an exponent in range is left as it is. *)
Lemma binary_round_aux_exact s m e :
  Zpos (digits2_pos m) = 53 -> -1021 <= e <= 971 ->
  binary_round_aux prec emax s (Zpos m) e loc_Exact = S754_finite s m e.
Proof.
  intros Hd He. unfold binary_round_aux, shr_fexp. cbn [Zdigits2 shr_record_of_loc].
  rewrite Hd, (fexp_above 53 e) by lia.
  replace (53 + e - 53 - e) with 0 by lia.
  cbn [shr shr_m loc_of_shr_record round_nearest_even Zdigits2 shr_record_of_loc].
  rewrite Hd, (fexp_above 53 e) by lia.
  replace (53 + e - 53 - e) with 0 by lia. cbn [shr shr_m].
  unfold prec, emax. destruct (Z.leb_spec e (1024 - 53)); [reflexivity | lia].
Qed.

Lemma binary_round_small s p :
  Zpos (digits2_pos p) <= 53 ->
  exists m, Zpos m = Zpos p * 2 ^ (53 - Zpos (digits2_pos p)) /\
            2 ^ 52 <= Zpos m < 2 ^ 53 /\
            binary_round prec emax s p 0 = S754_finite s m (Zpos (digits2_pos p) - 53).
Proof.
  intros Hd. pose proof (digits2_bounds p) as [B1 B2].
  set (d := Zpos (digits2_pos p)) in *.
  assert (Hd1 : 1 <= d) by (unfold d; lia).
  assert (Hm : 2 ^ 52 <= Zpos p * 2 ^ (53 - d) < 2 ^ 53).
  { assert (H52 : 2 ^ 52 = 2 ^ (d - 1) * 2 ^ (53 - d))
      by (rewrite <- Z.pow_add_r by lia; f_equal; lia).
    assert (H53 : 2 ^ 53 = 2 ^ d * 2 ^ (53 - d))
      by (rewrite <- Z.pow_add_r by lia; f_equal; lia).
    rewrite H52, H53.
    assert (0 < 2 ^ (53 - d)) by (apply Z.pow_pos_nonneg; lia).
    split; [apply Z.mul_le_mono_nonneg_r; lia | apply Z.mul_lt_mono_pos_r; lia]. }
  unfold binary_round. fold d. rewrite (fexp_above d 0) by lia.
  unfold shl_align. replace (d + 0 - 53 - 0) with (d - 53) by lia.
  destruct (d - 53) as [|k|k] eqn:E; [|lia|].
  - exists p. replace (53 - d) with 0 in * by lia.
    change (2 ^ 0) with 1 in *. rewrite Z.mul_1_r in *.
    repeat split; try lia.
    replace (d + 0 - 53) with 0 by lia.
    apply binary_round_aux_exact; [fold d; lia | lia].
  - exists (Pos.iter xO p k).
    assert (Hk : Zpos k = 53 - d) by lia.
    assert (Es : Zpos (Pos.iter xO p k) = Zpos p * 2 ^ (53 - d))
      by (rewrite shift_pos_spec, Hk; reflexivity).
    split; [exact Es|]. split; [rewrite Es; exact Hm|].
    replace (d + 0 - 53) with (Zneg k) by lia.
    apply binary_round_aux_exact; [|lia].
    apply digits2_unique. rewrite Es. exact Hm.
Qed.
Lemma round_of_location q rem X r s :
  0 <= rem < X ->
  r = (X <=? 2 * rem) -> s = negb ((rem =? 0) || (2 * rem =? X)) ->
  round_nearest_even q (loc_of_shr_record (Build_shr_record q r s)) =
  round_half_even q rem X.
Proof.
  intros Hrem -> ->. unfold round_half_even, round_nearest_even, loc_of_shr_record.
  destruct (Z.leb_spec X (2 * rem)), (Z.eqb_spec rem 0), (Z.eqb_spec (2 * rem) X),
    (Z.ltb_spec (2 * rem) X), (Z.ltb_spec X (2 * rem)); cbn; try lia; reflexivity.
Qed.

Lemma round_half_even_cases q rem X :
  round_half_even q rem X = q \/ round_half_even q rem X = q + 1.
Proof.
  unfold round_half_even.
  destruct (2 * rem <? X), (X <? 2 * rem), (Z.even q); auto.
Qed.

Lemma binary_round_large s p :
  53 < Zpos (digits2_pos p) ->
  exists q rem,
    Zpos p = q * 2 ^ (Zpos (digits2_pos p) - 53) + rem /\
    0 <= rem < 2 ^ (Zpos (digits2_pos p) - 53) /\ 2 ^ 52 <= q < 2 ^ 53 /\
    binary_round prec emax s p 0 =
      if round_half_even q rem (2 ^ (Zpos (digits2_pos p) - 53)) <? 2 ^ 53
      then (if Zpos (digits2_pos p) - 53 <=? 971
            then S754_finite s
                   (Z.to_pos (round_half_even q rem (2 ^ (Zpos (digits2_pos p) - 53))))
                   (Zpos (digits2_pos p) - 53)
            else S754_infinity s)
      else (if Zpos (digits2_pos p) - 53 + 1 <=? 971
            then S754_finite s (Z.to_pos (2 ^ 52)) (Zpos (digits2_pos p) - 53 + 1)
            else S754_infinity s).
Proof.
  intros Hd. pose proof (digits2_bounds p) as [B1 B2].
  set (d := Zpos (digits2_pos p)) in *.
  unfold binary_round. fold d. rewrite (fexp_above d 0) by lia.
  unfold shl_align. replace (d + 0 - 53 - 0) with (d - 53) by lia.
  destruct (d - 53) as [|k|k] eqn:E; [lia| |lia].
  assert (H1 : shr_fexp prec emax (Zpos p) 0 loc_Exact =
               (SpecFloat.iter_pos shr_1 k (Build_shr_record (Zpos p) false false), Zpos k)).
  { unfold shr_fexp. cbn [Zdigits2 shr_record_of_loc]. fold d.
    rewrite (fexp_above d 0) by lia. replace (d + 0 - 53 - 0) with (Zpos k) by lia.
    reflexivity. }
  unfold binary_round_aux. rewrite H1. clear H1.
  destruct (shr_shifted (Zpos p) k ltac:(lia)) as (rem & Hm & HP & Hrem & Hr & Hs).
  destruct (SpecFloat.iter_pos shr_1 k (Build_shr_record (Zpos p) false false))
    as [q r s0].
  cbn [shr_m shr_r shr_s] in *.
  assert (HX : 0 < 2 ^ Zpos k) by (apply Z.pow_pos_nonneg; lia).
  assert (Hq : 2 ^ 52 <= q < 2 ^ 53).
  { assert (H52 : 2 ^ (d - 1) = 2 ^ 52 * 2 ^ Zpos k)
      by (rewrite <- Z.pow_add_r by lia; f_equal; lia).
    assert (H53 : 2 ^ d = 2 ^ 53 * 2 ^ Zpos k)
      by (rewrite <- Z.pow_add_r by lia; f_equal; lia).
    rewrite H52 in B1. rewrite H53 in B2. nia. }
  exists q, rem. repeat split; try lia.
  rewrite (round_of_location q rem (2 ^ Zpos k) r s0 Hrem Hr Hs).
  set (q' := round_half_even q rem (2 ^ Zpos k)).
  assert (Hq' : q' = q \/ q' = q + 1) by apply round_half_even_cases.
  destruct (Z.ltb_spec q' (2 ^ 53)) as [Hlt|Hge].
  - destruct q' as [|pq|pq] eqn:Eq'; [lia| |lia].
    assert (Hdq : Zpos (digits2_pos pq) = 53) by (apply digits2_unique; lia).
    unfold shr_fexp. cbn [Zdigits2 shr_record_of_loc]. rewrite Hdq.
    rewrite (fexp_above 53 (Zpos k)) by lia.
    replace (53 + Zpos k - 53 - Zpos k) with 0 by lia. cbn [shr shr_m].
    unfold prec, emax. change (1024 - 53) with 971. reflexivity.
  - assert (Eq' : q' = 2 ^ 53) by lia. rewrite Eq'.
    unfold shr_fexp.
    change (Zdigits2 (2 ^ 53)) with 54. cbn [shr_record_of_loc].
    rewrite (fexp_above 54 (Zpos k)) by lia.
    replace (54 + Zpos k - 53 - Zpos k) with 1 by lia.
    cbn [shr SpecFloat.iter_pos].
    change (shr_1 (Build_shr_record (2 ^ 53) false false))
      with (Build_shr_record (2 ^ 52) false false).
    cbn [shr_m]. change (2 ^ 52) with (Zpos (Z.to_pos (2 ^ 52))) at 1.
    cbv iota. unfold prec, emax. change (1024 - 53) with 971. reflexivity.
Qed.
Lemma round_half_even_near P q rem H :
  0 < H -> P = q * (2 * H) + rem -> 0 <= rem < 2 * H ->
  let q' := round_half_even q rem (2 * H) in
  Z.abs (P - q' * (2 * H)) <= H /\
  (Z.abs (P - q' * (2 * H)) = H -> Z.even q' = true) /\
  (forall k, Z.abs (P - q' * (2 * H)) <= Z.abs (P - k * (2 * H))) /\
  (forall k, Z.abs (P - q' * (2 * H)) = Z.abs (P - k * (2 * H)) -> k <> q' ->
             Z.even q' = true).
Proof.
  intros HH HP Hrem q'.
  assert (Hk : forall k, (k <= q /\ P - k * (2 * H) = (q - k) * (2 * H) + rem /\
                          0 <= (q - k) * (2 * H)) \/
                         (q + 1 <= k /\ k * (2 * H) - P = (k - q - 1) * (2 * H) + (2 * H - rem) /\
                          0 <= (k - q - 1) * (2 * H))).
  { intros k. destruct (Z.le_gt_cases k q); [left | right]; repeat split; try lia;
      apply Z.mul_nonneg_nonneg; lia. }
  assert (Hkk : forall k, k <> q -> k <> q + 1 ->
            2 * H <= Z.abs (P - k * (2 * H))).
  { intros k H1 H2. destruct (Hk k) as [(Hle & E & _)|(Hge & E & _)].
    - assert (1 * (2 * H) <= (q - k) * (2 * H)) by (apply Z.mul_le_mono_nonneg_r; lia). lia.
    - assert (1 * (2 * H) <= (k - q - 1) * (2 * H)) by (apply Z.mul_le_mono_nonneg_r; lia).
      lia. }
  assert (Hq0 : P - q * (2 * H) = rem) by lia.
  assert (Hq1 : (q + 1) * (2 * H) - P = 2 * H - rem) by lia.
  assert (Hodd : Z.even (q + 1) = negb (Z.even q)).
  { rewrite Z.even_add. destruct (Z.even q); reflexivity. }
  subst q'. unfold round_half_even.
  destruct (Z.ltb_spec (2 * rem) (2 * H)) as [Hlt|Hge].
  - repeat split.
    + lia.
    + intros E. lia.
    + intros k. destruct (Z.eq_dec k q) as [->|Hn]; [lia|].
      destruct (Z.eq_dec k (q + 1)) as [->|Hn']; [lia|]. specialize (Hkk k Hn Hn'). lia.
    + intros k E Hn. destruct (Z.eq_dec k (q + 1)) as [->|Hn']; [lia|].
      specialize (Hkk k Hn Hn'). lia.
  - destruct (Z.ltb_spec (2 * H) (2 * rem)) as [Hgt|Hle].
    + repeat split.
      * lia.
      * intros E. lia.
      * intros k. destruct (Z.eq_dec k q) as [->|Hn]; [lia|].
        destruct (Z.eq_dec k (q + 1)) as [->|Hn']; [lia|]. specialize (Hkk k Hn Hn'). lia.
      * intros k E Hn. destruct (Z.eq_dec k q) as [->|Hn']; [lia|].
        specialize (Hkk k Hn' Hn). lia.
    + assert (rem = H) by lia. subst rem.
      destruct (Z.even q) eqn:Ev.
      * cbv iota. rewrite Ev. repeat split; auto.
        -- lia.
        -- intros k. destruct (Z.eq_dec k q) as [->|Hn]; [lia|].
           destruct (Z.eq_dec k (q + 1)) as [->|Hn']; [lia|]. specialize (Hkk k Hn Hn'). lia.
      * cbv iota. rewrite Hodd. cbn [negb]. repeat split; auto.
        -- lia.
        -- intros k. destruct (Z.eq_dec k q) as [->|Hn]; [lia|].
           destruct (Z.eq_dec k (q + 1)) as [->|Hn']; [lia|]. specialize (Hkk k Hn Hn'). lia.
Qed.
(** No binary64 number is nearer than the rounded quotient. *)
Lemma candidates_are_farther P q rem n :
  1 <= n -> P = q * 2 ^ n + rem -> 0 <= rem < 2 ^ n -> 2 ^ 52 <= q ->
  let V := round_half_even q rem (2 ^ n) * 2 ^ n in
  forall m' e', 2 ^ 52 <= m' < 2 ^ 53 -> 0 <= e' ->
    Z.abs (P - V) <= Z.abs (P - m' * 2 ^ e') /\
    (Z.abs (P - V) = Z.abs (P - m' * 2 ^ e') -> m' * 2 ^ e' <> V ->
     Z.even (round_half_even q rem (2 ^ n)) = true).
Proof.
  intros Hn HP Hrem Hq V m' e' Hm' He'. subst V.
  assert (HX : 2 ^ n = 2 * 2 ^ (n - 1)).
  { rewrite <- Z.pow_succ_r by lia. f_equal. lia. }
  assert (HH : 0 < 2 ^ (n - 1)) by (apply Z.pow_pos_nonneg; lia).
  rewrite HX in HP, Hrem |- *.
  destruct (round_half_even_near P q rem (2 ^ (n - 1)) HH HP Hrem) as (Hc & Hd & Ha & Hb).
  set (H := 2 ^ (n - 1)) in *.
  set (q' := round_half_even q rem (2 * H)) in *.
  destruct (Z.le_gt_cases n e') as [Hge|Hlt].
  - assert (Ek : m' * 2 ^ e' = (m' * 2 ^ (e' - n)) * (2 * H)).
    { rewrite <- HX, <- Z.mul_assoc, <- Z.pow_add_r by lia. do 2 f_equal. lia. }
    rewrite Ek. split; [apply Ha|].
    intros E Hne. apply (Hb (m' * 2 ^ (e' - n)) E). intros Hk. apply Hne.
    rewrite Hk. reflexivity.
  - assert (Hv : m' * 2 ^ e' <= (2 ^ 53 - 1) * H).
    { assert (2 ^ e' <= H) by (unfold H; apply Z.pow_le_mono_r; lia).
      assert (0 < 2 ^ e') by (apply Z.pow_pos_nonneg; lia).
      transitivity ((2 ^ 53 - 1) * 2 ^ e').
      - apply Z.mul_le_mono_nonneg_r; lia.
      - apply Z.mul_le_mono_nonneg_l; lia. }
    assert (HPq : 2 ^ 52 * (2 * H) <= P).
    { assert (2 ^ 52 * (2 * H) <= q * (2 * H)) by (apply Z.mul_le_mono_nonneg_r; lia). lia. }
    assert (Hfar : H <= P - m' * 2 ^ e') by lia.
    split; [lia|]. intros E _. apply Hd. lia.
Qed.

Lemma float_limit_parts : float_limit = (2 ^ 53 - 1) * 2 ^ 971 + 2 ^ 970.
Proof. reflexivity. Qed.

(** [float] of a positive integer, with either sign. *)
Lemma binary_round_int s p :
  (Zpos p < float_limit ->
     exists m e, binary_round prec emax s p 0 = S754_finite s m e /\
                 nearest_binary64 (Zpos p) m e) /\
  (float_limit <= Zpos p -> binary_round prec emax s p 0 = S754_infinity s).
Proof.
  pose proof (digits2_bounds p) as [B1 B2].
  destruct (Z.le_gt_cases (Zpos (digits2_pos p)) 53) as [Hd|Hd].
  - destruct (binary_round_small s p Hd) as (m & Hm & Hb & ->).
    assert (Hp : Zpos p < 2 ^ 53).
    { assert (2 ^ Zpos (digits2_pos p) <= 2 ^ 53) by (apply Z.pow_le_mono_r; lia). lia. }
    assert (Hlim : 2 ^ 53 < float_limit) by reflexivity.
    split; [|lia]. intros _.
    exists m, (Zpos (digits2_pos p) - 53). split; [reflexivity|].
    repeat split; try lia.
    + intros _. rewrite Hm. do 2 f_equal. lia.
  - destruct (binary_round_large s p Hd) as (q & rem & HP & Hrem & Hq & ->).
    set (n := Zpos (digits2_pos p) - 53) in *.
    assert (Hn : 1 <= n) by (unfold n; lia).
    assert (HX : 2 ^ n = 2 * 2 ^ (n - 1)).
    { rewrite <- Z.pow_succ_r by lia. f_equal. lia. }
    assert (HH : 0 < 2 ^ (n - 1)) by (apply Z.pow_pos_nonneg; lia).
    pose proof (candidates_are_farther (Zpos p) q rem n Hn HP Hrem (proj1 Hq)) as Hcand.
    pose proof HP as HP'. pose proof Hrem as Hrem'. rewrite HX in HP', Hrem'.
    destruct (round_half_even_near (Zpos p) q rem (2 ^ (n - 1)) HH HP' Hrem')
      as (Hc & Hev & _ & _).
    rewrite <- HX in Hc, Hev.
    pose proof (round_half_even_cases q rem (2 ^ n)) as Hq'.
    set (q' := round_half_even q rem (2 ^ n)) in *.
    rewrite float_limit_parts.
    destruct (Z.ltb_spec q' (2 ^ 53)) as [Hlt|Hge].
    + destruct (Z.leb_spec n 971) as [Hle|Hgt].
      * assert (Hbelow : Zpos p < (2 ^ 53 - 1) * 2 ^ 971 + 2 ^ 970).
        { destruct (Z.eq_dec n 971) as [En|Hne].
          - rewrite En in *. change (971 - 1) with 970 in *.
            destruct (Z.eq_dec q' (2 ^ 53 - 1)) as [Eq|Hnq].
            + rewrite Eq in *.
              destruct (Z.eq_dec (Z.abs (Zpos p - (2 ^ 53 - 1) * 2 ^ 971)) (2 ^ 970)) as [Et|Hnt].
              * specialize (Hev Et). discriminate Hev.
              * lia.
            + assert (q' * 2 ^ 971 <= (2 ^ 53 - 2) * 2 ^ 971)
                by (apply Z.mul_le_mono_nonneg_r; lia). lia.
          - assert (2 ^ Zpos (digits2_pos p) <= 2 ^ 1023)
              by (apply Z.pow_le_mono_r; unfold n in *; lia).
            assert (2 ^ 1023 < (2 ^ 53 - 1) * 2 ^ 971 + 2 ^ 970) by reflexivity. lia. }
        split; [|lia]. intros _.
        exists (Z.to_pos q'), n. split; [reflexivity|].
        assert (Epos : Zpos (Z.to_pos q') = q') by (apply Z2Pos.id; lia).
        unfold nearest_binary64. rewrite Epos.
        split; [lia|]. split; [lia|]. split; [intros; lia|].
        intros _ m' e' Hm' He'. exact (Hcand m' e' Hm' He').
      * split; [|reflexivity]. intros Hbelow. exfalso.
        assert (2 ^ 1024 <= 2 ^ 52 * 2 ^ n).
        { replace 1024 with (52 + 972) by lia. rewrite Z.pow_add_r by lia.
          apply Z.mul_le_mono_nonneg_l; [lia|]. apply Z.pow_le_mono_r; lia. }
        assert (2 ^ 52 * 2 ^ n <= q * 2 ^ n)
          by (apply Z.mul_le_mono_nonneg_r; [apply Z.pow_nonneg|]; lia).
        assert ((2 ^ 53 - 1) * 2 ^ 971 + 2 ^ 970 < 2 ^ 1024) by reflexivity. lia.
    + assert (Eq : q' = 2 ^ 53) by lia.
      destruct (Z.leb_spec (n + 1) 971) as [Hle|Hgt].
      * assert (Hbelow : Zpos p < (2 ^ 53 - 1) * 2 ^ 971 + 2 ^ 970).
        { assert (2 ^ Zpos (digits2_pos p) <= 2 ^ 1023)
            by (apply Z.pow_le_mono_r; unfold n in *; lia).
          assert (2 ^ 1023 < (2 ^ 53 - 1) * 2 ^ 971 + 2 ^ 970) by reflexivity. lia. }
        split; [|lia]. intros _.
        exists (Z.to_pos (2 ^ 52)), (n + 1). split; [reflexivity|].
        assert (E52 : Zpos (Z.to_pos (2 ^ 52)) = 2 ^ 52) by reflexivity.
        assert (EV : Zpos (Z.to_pos (2 ^ 52)) * 2 ^ (n + 1) = q' * 2 ^ n).
        { rewrite E52, Eq, Z.pow_add_r by lia.
          change (2 ^ 53) with (2 ^ 52 * 2 ^ 1). ring. }
        unfold nearest_binary64. rewrite EV, E52.
        split; [lia|]. split; [lia|]. split; [intros; lia|].
        intros _ m' e' Hm' He'. split; [apply (Hcand m' e' Hm' He')|reflexivity].
      * split; [|reflexivity]. intros Hbelow. exfalso.
        assert (2 ^ 970 <= 2 ^ (n - 1)) by (apply Z.pow_le_mono_r; lia).
        rewrite Eq in Hc. rewrite HX in Hc, HP.
        assert ((2 ^ 54 - 1) * 2 ^ 970 <= (2 ^ 54 - 1) * 2 ^ (n - 1))
          by (apply Z.mul_le_mono_nonneg_l; lia).
        assert ((2 ^ 53 - 1) * 2 ^ 971 + 2 ^ 970 = (2 ^ 54 - 1) * 2 ^ 970) by reflexivity.
        lia.
Qed.
Lemma float_of_Z_nearest z :
  (z = 0 -> float_of_Z z = Ok (S754_zero false)) /\
  (z <> 0 -> Z.abs z < float_limit ->
     exists m e, float_of_Z z = Ok (S754_finite (z <? 0) m e) /\
                 nearest_binary64 (Z.abs z) m e) /\
  (float_limit <= Z.abs z -> float_of_Z z = Err OverflowError).
Proof.
  assert (Hlim : 0 < float_limit) by reflexivity.
  unfold float_of_Z. destruct z as [|p|p]; cbn [binary_normalize Z.abs Z.ltb Z.compare].
  - repeat split; intros; try reflexivity; try congruence. lia.
  - destruct (binary_round_int false p) as [Hin Hout].
    repeat split; try discriminate.
    + intros _ Hlt. destruct (Hin Hlt) as (m & e & -> & Hn). eauto.
    + intros Hge. rewrite (Hout Hge). reflexivity.
  - destruct (binary_round_int true p) as [Hin Hout].
    repeat split; try discriminate.
    + intros _ Hlt. destruct (Hin Hlt) as (m & e & -> & Hn). eauto.
    + intros Hge. rewrite (Hout Hge). reflexivity.
Qed.

(** C6. [VarDecl] evaluates the initializer once (the state it leaves is
    the one the statement continues from) and stores, under the declared
    name, [int(val)] for the type [int], [float(val)] for [flt], and the
    value as it is for [var] and [bool]; when the conversion raises, the
    statement raises and nothing is stored. [int] of an integer is that
    integer and of a finite float its integer part towards zero; [float]
    of a float is that float; [float] of an integer is the binary64
    number nearest to it, the one with the even mantissa at a tie: the
    integer itself up to 53 bits, and an [OverflowError] from
    [2^1024 - 2^970] on; a [bool] counts as 0 or 1. The program
    [var int x = 3 pl 4] followed by [set x] writes [7]; [7 np 2] is
    stored as [3] under [int], and [10] is written as [10.0] once stored
    under [flt]; [3] stored under [flt] equals [3.0], and
    [9007199254740993] is stored as [9007199254740992.0]. *)
Theorem var_decl_coerces (x : string) (e : node) (st : state) :
  (forall v st' z, eval e st = Ret v st' -> py_int v = Ok z ->
     runs [Some (VarDecl INT x e)] st (Ret tt (set_vars <[x := VInt z]> st'))) /\
  (forall v st' f, eval e st = Ret v st' -> py_float v = Ok f ->
     runs [Some (VarDecl FLT x e)] st (Ret tt (set_vars <[x := VFloat f]> st'))) /\
  (forall tp v st', tp = VAR \/ tp = BOOL -> eval e st = Ret v st' ->
     runs [Some (VarDecl tp x e)] st (Ret tt (set_vars <[x := v]> st'))) /\
  (forall z, py_int (VInt z) = Ok z) /\
  (forall s m ex, exists a,
     py_int (VFloat (S754_finite s m ex)) = Ok (if s then - a else a) /\
     a * 2 ^ Z.max 0 (- ex) <= Zpos m * 2 ^ Z.max 0 ex < (a + 1) * 2 ^ Z.max 0 (- ex)) /\
  (forall f, py_float (VFloat f) = Ok f) /\
  (forall fuel lines, (2 <= fuel)%nat ->
     output (run_code fuel ("var int x = 3 pl 4" ++ nl ++ "set x") lines) =
       Some [Banner; Line "7"]) /\
  (forall fuel lines, (4 <= fuel)%nat ->
     output (run_code fuel "var int x = 7 np 2 set x var flt y = 10 set y" lines) =
       Some [Banner; Line "3"; Line "10.0"]) /\
  py_float (VInt 0) = Ok (S754_zero false) /\
  (forall z, z <> 0 -> Z.abs z < float_limit ->
     exists m ex, py_float (VInt z) = Ok (S754_finite (z <? 0) m ex) /\
                  nearest_binary64 (Z.abs z) m ex) /\
  (forall z, float_limit <= Z.abs z -> py_float (VInt z) = Err OverflowError) /\
  (forall b, py_float (VBool b) = py_float (VInt (Z.b2z b)) /\
             py_int (VBool b) = Ok (Z.b2z b)) /\
  (forall v st' err, eval e st = Ret v st' -> py_int v = Err err ->
     runs [Some (VarDecl INT x e)] st (Raise err st')) /\
  (forall v st' err, eval e st = Ret v st' -> py_float v = Err err ->
     runs [Some (VarDecl FLT x e)] st (Raise err st')) /\
  (forall fuel lines, (4 <= fuel)%nat ->
     output (run_code fuel "var flt y = 3 set y eq 3.0" lines) =
       Some [Banner; Line "True"]) /\
  (forall fuel lines, (4 <= fuel)%nat ->
     output (run_code fuel "var flt y = 9007199254740993 set y" lines) =
       Some [Banner; Line "9007199254740992.0"]).
Proof.
  repeat apply conj.
  - intros v st' z He Hz. exists 1%nat. split; [|discriminate].
    simpl. rewrite He. simpl. rewrite Hz. reflexivity.
  - intros v st' f He Hf. exists 1%nat. split; [|discriminate].
    simpl. rewrite He. simpl. rewrite Hf. reflexivity.
  - intros tp v st' Htp He. exists 1%nat. split; [|discriminate].
    simpl. rewrite He. destruct Htp as [-> | ->]; reflexivity.
  - reflexivity.
  - intros s m ex. apply Z_of_float_truncates.
  - reflexivity.
  - intros fuel lines Hle.
    assert (H : run_code 2 ("var int x = 3 pl 4" ++ nl ++ "set x") lines =
       Ran (Ret tt (State {[ "x" := VInt 7 ]} (funcs (init lines [])) lines
                      [Banner; Line "7"])))
      by (vm_compute; reflexivity).
    rewrite (run_code_ret 2 fuel _ _ _ Hle H). reflexivity.
  - intros fuel lines Hle.
    assert (H : exists vs, run_code 4 "var int x = 7 np 2 set x var flt y = 10 set y" lines =
       Ran (Ret tt (State vs (funcs (init lines [])) lines
                      [Banner; Line "3"; Line "10.0"])))
      by (eexists; vm_compute; reflexivity).
    destruct H as [vs H].
    rewrite (run_code_ret 4 fuel _ _ _ Hle H). reflexivity.
  - reflexivity.
  - intros z Hz Hlt. exact (proj1 (proj2 (float_of_Z_nearest z)) Hz Hlt).
  - intros z Hge. exact (proj2 (proj2 (float_of_Z_nearest z)) Hge).
  - intros b. split; reflexivity.
  - intros v st' err He Hz. exists 1%nat. split; [|discriminate].
    simpl. rewrite He. simpl. rewrite Hz. reflexivity.
  - intros v st' err He Hf. exists 1%nat. split; [|discriminate].
    simpl. rewrite He. simpl. rewrite Hf. reflexivity.
  - intros fuel lines Hle.
    assert (H : exists vs, run_code 4 "var flt y = 3 set y eq 3.0" lines =
       Ran (Ret tt (State vs (funcs (init lines [])) lines [Banner; Line "True"])))
      by (eexists; vm_compute; reflexivity).
    destruct H as [vs H].
    rewrite (run_code_ret 4 fuel _ _ _ Hle H). reflexivity.
  - intros fuel lines Hle.
    assert (H : exists vs, run_code 4 "var flt y = 9007199254740993 set y" lines =
       Ran (Ret tt (State vs (funcs (init lines [])) lines
                      [Banner; Line "9007199254740992.0"])))
      by (eexists; vm_compute; reflexivity).
    destruct H as [vs H].
    rewrite (run_code_ret 4 fuel _ _ _ Hle H). reflexivity.
Qed.

Lemma var_decl_coerces_witness :
  runs [Some (VarDecl INT "x" (Bin Op.PL (Num (VInt 3)) (Num (VInt 4))))] (init [] [])
       (Ret tt (set_vars <["x" := VInt 7]> (init [] []))) /\
  runs [Some (VarDecl FLT "y" (Str "2.5"))] (init [] [])
       (Ret tt (set_vars <["y" := VFloat (S754_finite false 5629499534213120 (-51))]> (init [] []))) /\
  runs [Some (VarDecl VAR "z" Input)] (init ["a"; "b"] [])
       (Ret tt (set_vars <["z" := VStr "a"]> (init ["b"] []))) /\
  output (run_code 2 ("var int x = 3 pl 4" ++ nl ++ "set x") []) = Some [Banner; Line "7"] /\
  (exists m ex, py_float (VInt (-3)) = Ok (S754_finite (-3 <? 0) m ex) /\
                nearest_binary64 (Z.abs (-3)) m ex) /\
  py_float (VInt (2 ^ 1024)) = Err OverflowError /\
  runs [Some (VarDecl INT "x" (Str "seven"))] (init [] []) (Raise ValueError (init [] [])) /\
  output (run_code 4 "var flt y = 9007199254740993 set y" []) =
    Some [Banner; Line "9007199254740992.0"].
Proof.
  destruct (var_decl_coerces "x" (Bin Op.PL (Num (VInt 3)) (Num (VInt 4))) (init [] []))
    as (Hint & _ & _ & _ & _ & _ & Hprog & _ & _ & Hnear & Hover & _ & _ & _ & _ & Hbig).
  destruct (var_decl_coerces "y" (Str "2.5") (init [] [])) as (_ & Hflt & _).
  destruct (var_decl_coerces "z" Input (init ["a"; "b"] [])) as (_ & _ & Hvar & _).
  destruct (var_decl_coerces "x" (Str "seven") (init [] []))
    as (_ & _ & _ & _ & _ & _ & _ & _ & _ & _ & _ & _ & Hbad & _).
  repeat apply conj.
  - apply (Hint (VInt 7) (init [] [])); reflexivity.
  - apply (Hflt (VStr "2.5") (init [] [])); [reflexivity | vm_compute; reflexivity].
  - apply (Hvar VAR (VStr "a") (init ["b"] [])); [left|]; reflexivity.
  - apply Hprog. lia.
  - apply Hnear; [discriminate | reflexivity].
  - apply Hover. vm_compute. discriminate.
  - apply (Hbad (VStr "seven") (init [] [])); [reflexivity | vm_compute; reflexivity].
  - apply Hbig. lia.
Defined.

(** ** Parser *)

Lemma statement_skips fuel tok rest :
  (0 < fuel)%nat ->
  starts_statement (type tok) = false ->
  statement fuel (tok :: rest) = Parsed None rest.
Proof.
  intros Hf H. destruct fuel; [lia|].
  simpl. destruct (type tok); try reflexivity; discriminate.
Qed.

Lemma is_literal_not_start k : is_literal k = true -> starts_statement k = false.
Proof. destruct k; simpl; congruence. Qed.

Lemma parse_loop_strays ts : forall fuel stmts,
  (length ts < fuel)%nat ->
  Forall (fun t => starts_statement (type t) = false) ts ->
  parse_loop fuel stmts ts = Parsed stmts [].
Proof.
  induction ts as [|tok rest IH]; intros fuel stmts Hlen Hall.
  - destruct fuel; [simpl in Hlen; lia | reflexivity].
  - destruct fuel as [|fuel]; simpl in Hlen; [lia|].
    inversion Hall as [|? ? Htok Hrest]; subst.
    cbn [parse_loop]. rewrite (statement_skips fuel tok rest) by (lia || exact Htok).
    cbn [pbind]. apply IH; [lia | exact Hrest].
Qed.

(** C9. At the dispatch of [statement], a token of type NUMBER, STRING,
    TRUE or FALSE is consumed and gives no statement and no error, and so
    does any token that starts no statement; the parser moves on by one
    token. A program whose tokens all are such tokens, stray literals in
    particular, parses to the empty list of statements. *)
Theorem stray_tokens_are_skipped :
  (forall fuel tok rest, is_literal (type tok) = true ->
     statement (S fuel) (tok :: rest) = Parsed None rest) /\
  (forall fuel tok rest, starts_statement (type tok) = false ->
     statement (S fuel) (tok :: rest) = Parsed None rest) /\
  (forall ts, Forall (fun t => is_literal (type t) = true) ts ->
     parse ts = Parsed [] []) /\
  (forall ts, Forall (fun t => starts_statement (type t) = false) ts ->
     parse ts = Parsed [] []) /\
  (forall fuel lines,
     run_code fuel ("12 " ++ quoted "stray" ++ " true 2.5 false") lines =
       Ran (Ret tt (init lines [Banner]))).
Proof.
  repeat apply conj.
  - intros fuel tok rest H. apply statement_skips; [lia|]. apply is_literal_not_start, H.
  - intros fuel tok rest H. apply statement_skips; [lia | exact H].
  - intros ts H. apply parse_loop_strays; [lia|].
    eapply Forall_impl; [exact H|]. intros t. apply is_literal_not_start.
  - intros ts H. apply parse_loop_strays; [lia | exact H].
  - intros fuel lines.
    assert (H : exists ts, tokenize ("12 " ++ quoted "stray" ++ " true 2.5 false") = Ok ts /\
                parse ts = Parsed [] [])
      by (eexists; split; vm_compute; reflexivity).
    destruct H as (ts & Ht & Hp). unfold run_code. rewrite Ht, Hp.
    destruct fuel; reflexivity.
Qed.

Lemma stray_tokens_are_skipped_witness :
  statement 1 [Tok STRING "stray"; Tok SET "set"; NumTok (NInt 1)] =
    Parsed None [Tok SET "set"; NumTok (NInt 1)] /\
  statement 1 [Tok RBRACE "}"; Tok COLON ":"] = Parsed None [Tok COLON ":"] /\
  parse [NumTok (NInt 12); Tok STRING "stray"; Tok TRUE "true"; Tok FALSE "false"] =
    Parsed [] [] /\
  parse [Tok IDENT "x"; Tok ASSIGN "="; Tok CATCH "catch"; Tok RBRACE "}"] = Parsed [] [].
Proof.
  destruct stray_tokens_are_skipped as (Hlit & Hany & Hlits & Hall & _).
  repeat apply conj.
  - apply Hlit. reflexivity.
  - apply Hany. reflexivity.
  - apply Hlits. repeat constructor.
  - apply Hall. repeat constructor.
Defined.





(** ** Lexer: the regular expressions *)

Lemma run_of_split p s : s = run_of p s ++ after_run p s.
Proof.
  induction s as [|c s IH]; simpl; [reflexivity|].
  destruct (p c); simpl; [f_equal; exact IH | reflexivity].
Qed.

Lemma run_of_all_in p s : all_in p (run_of p s) = true.
Proof.
  induction s as [|c s IH]; simpl; [reflexivity|].
  destruct (p c) eqn:E; simpl; [rewrite E; exact IH | reflexivity].
Qed.

(** A greedy star whose continuation cannot fail never backtracks. *)
Lemma star_total p k s :
  (forall x, k x <> None) -> star p k s = k (after_run p s).
Proof.
  intros Hk. induction s as [|c s IH]; simpl; [reflexivity|].
  destruct (p c); [|reflexivity].
  rewrite IH. destruct (k (after_run p s)) eqn:E; [reflexivity|].
  exfalso. exact (Hk _ E).
Qed.

(** A literal matches exactly the texts that start with it. *)
Lemma rmatch_Lit_app w k r : rmatch (Lit w) k (w ++ r) = k r.
Proof.
  induction w as [|c w IH]; simpl; [reflexivity|].
  unfold is_char. rewrite Ascii.eqb_refl. exact IH.
Qed.

Lemma rmatch_Lit_inv w k s x :
  rmatch (Lit w) k s = Some x -> exists r, s = w ++ r /\ k r = Some x.
Proof.
  revert s. induction w as [|c w IH]; intros s H; simpl in H.
  - exists s. split; [reflexivity | exact H].
  - destruct s as [|c' s]; [discriminate|].
    destruct (Ascii.eqb c c') eqn:E; [|discriminate].
    apply Ascii.eqb_eq in E. subst c'.
    destruct (IH _ H) as (r & -> & Hr). exists r. split; [reflexivity | exact Hr].
Qed.

(** The alternative that wins is one of the table and matches. *)
Lemma match_at_inv spec s k v :
  match_at spec s = Some (k, v) ->
  exists r rest, In (k, r) spec /\ rmatch r Some s = Some rest /\
                 v = substring 0 (String.length s - String.length rest) s.
Proof.
  induction spec as [|[k' r'] spec IH]; simpl; [discriminate|].
  destruct (rmatch r' Some s) as [rest|] eqn:E.
  - intros H. injection H as <- <-. exists r', rest. auto.
  - intros H. destruct (IH H) as (r & rest & Hin & Hr & Hv).
    exists r, rest. auto.
Qed.

(** First match wins: when an alternative matches, the winner is that
    one or an earlier one. *)
Lemma match_at_first before k' r' after s k v :
  match_at (before ++ (k', r') :: after) s = Some (k, v) ->
  rmatch r' Some s <> None ->
  In k (map fst before ++ [k']).
Proof.
  induction before as [|[k0 r0] before IH]; simpl; intros H Hm.
  - destruct (rmatch r' Some s); [|congruence].
    injection H as <- _. auto.
  - destruct (rmatch r0 Some s).
    + injection H as <- _. auto.
    + right. exact (IH H Hm).
Qed.

(** No text makes the alternation stop at LEN: where [len] matches, so
    does [le], which comes first. *)
Lemma match_at_never_LEN s v : match_at token_spec s <> Some (LEN, v).
Proof.
  intros H.
  destruct (match_at_inv _ _ _ _ H) as (r & rest & Hin & Hr & _).
  assert (r = Lit "len") as ->.
  { simpl in Hin.
    repeat (destruct Hin as [Hin|Hin]; [try discriminate; injection Hin as <-; reflexivity|]).
    destruct Hin. }
  apply rmatch_Lit_inv in Hr as (x & -> & _).
  assert (Hle : rmatch (Lit "le") Some ("len" ++ x) <> None).
  { change ("len" ++ x) with ("le" ++ ("n" ++ x)). rewrite rmatch_Lit_app. discriminate. }
  pose proof (match_at_first (firstn 6 token_spec) LE (Lit "le") (skipn 7 token_spec)
                _ _ _ H Hle) as Hk.
  simpl in Hk. intuition discriminate.
Qed.

(** No match of [finditer] over the table is a LEN. *)
Lemma finditer_never_LEN line : forall skip,
  Forall (fun m => fst m <> LEN) (finditer token_spec skip line).
Proof.
  induction line as [|c line IH]; intros skip; cbn [finditer]; [constructor|].
  destruct skip; [|apply IH].
  destruct (match_at token_spec (String c line)) as [[k v]|] eqn:E; [|apply IH].
  constructor; [|apply IH].
  simpl. intros ->. exact (match_at_never_LEN _ _ E).
Qed.

(** A token keeps the name of its match, and no token is made for SKIP
    and NEWLINE. *)
Lemma token_of_type k v t :
  token_of k v = Ok (Some t) -> type t = k /\ k <> SKIP /\ k <> NEWLINE.
Proof.
  destruct k; simpl; intros H;
    try (injection H as <-; repeat split; discriminate).
  - destruct (contains "." v).
    + destruct (float_of_string v); simpl in H; [|discriminate].
      injection H as <-. repeat split; discriminate.
    + destruct (int_of_string v); simpl in H; [|discriminate].
      injection H as <-. repeat split; discriminate.
  - discriminate.
  - discriminate.
Qed.

Lemma tokens_of_types ms : forall ts,
  tokens_of ms = Ok ts ->
  Forall (fun t => In (type t) (map fst ms) /\ type t <> SKIP /\ type t <> NEWLINE) ts.
Proof.
  induction ms as [|[k v] ms IH]; simpl; intros ts H.
  - injection H as <-. constructor.
  - destruct (token_of k v) as [t|] eqn:Et; simpl in H; [|discriminate].
    destruct (tokens_of ms) as [ts'|] eqn:Ets; simpl in H; [|discriminate].
    injection H as <-.
    assert (Hrest : Forall (fun t0 => (k = type t0 \/ In (type t0) (map fst ms)) /\
                              type t0 <> SKIP /\ type t0 <> NEWLINE) ts').
    { eapply Forall_impl; [exact (IH _ eq_refl)|]. simpl. intuition. }
    destruct t as [t|]; [|exact Hrest].
    constructor; [|exact Hrest].
    destruct (token_of_type _ _ _ Et) as (<- & ? & ?). auto.
Qed.

(** ** Lexer: numbers *)

Lemma substring_append (a b : string) : substring 0 (String.length a) (a ++ b) = a.
Proof.
  induction a as [|c a IH]; simpl; [destruct b; reflexivity | rewrite IH; reflexivity].
Qed.

(** [m.group()] is the text in front of what is left unread. *)
Lemma lexeme_of_rest (lex rest : string) :
  substring 0 (String.length (lex ++ rest) - String.length rest) (lex ++ rest) = lex.
Proof.
  rewrite length_append.
  replace (String.length lex + String.length rest - String.length rest)%nat
    with (String.length lex) by lia.
  apply substring_append.
Qed.

Lemma append_assoc (a b c : string) : (a ++ b) ++ c = a ++ (b ++ c).
Proof. induction a as [|x a IH]; simpl; [reflexivity | rewrite IH; reflexivity]. Qed.

Lemma number_match s rest :
  rmatch number_re Some s = Some rest ->
  exists lex, s = lex ++ rest /\ number_lexeme lex.
Proof.
  unfold number_re, Plus. cbn [rmatch].
  destruct s as [|c s]; [discriminate|].
  destruct (is_digit c) eqn:Ec; [|discriminate].
  rewrite star_total by (intros x; destruct (match x with EmptyString => _ | _ => _ end); discriminate).
  pose proof (run_of_split is_digit s) as Hs.
  pose proof (run_of_all_in is_digit s) as Hd.
  assert (Hfirst : digits1 (String c (run_of is_digit s))).
  { split; [discriminate|]. simpl. rewrite Ec. exact Hd. }
  destruct (after_run is_digit s) as [|d y] eqn:Ey.
  - intros H. injection H as <-. exists (String c (run_of is_digit s)). split.
    + rewrite Hs at 1. reflexivity.
    + constructor. exact Hfirst.
  - destruct (is_char "." d) eqn:Edot.
    + destruct y as [|c' y'].
      * intros H. injection H as <-. exists (String c (run_of is_digit s)). split.
        -- rewrite Hs at 1. reflexivity.
        -- constructor. exact Hfirst.
      * destruct (is_digit c') eqn:Ec'.
        -- rewrite star_total by discriminate.
           intros H. injection H as <-.
           unfold is_char in Edot. apply Ascii.eqb_eq in Edot. subst d.
           exists (String c (run_of is_digit s) ++ "." ++ String c' (run_of is_digit y')).
           split.
           ++ rewrite Hs at 1. simpl. f_equal.
              rewrite (run_of_split is_digit y') at 1.
              rewrite append_assoc. reflexivity.
           ++ constructor; [exact Hfirst|]. split; [discriminate|].
              simpl. rewrite Ec'. apply run_of_all_in.
        -- intros H. injection H as <-. exists (String c (run_of is_digit s)). split.
           ++ rewrite Hs at 1. reflexivity.
           ++ constructor. exact Hfirst.
    + intros H. injection H as <-. exists (String c (run_of is_digit s)). split.
      * rewrite Hs at 1. reflexivity.
      * constructor. exact Hfirst.
Qed.

(** ** Host language: [int] and [float] of the text of a number *)

Lemma digit_not_space c : is_digit c = true -> is_num_space c = false.
Proof.
  unfold is_digit, is_num_space, in_range. intros H.
  apply andb_true_iff in H as [H1 H2]. apply Z.leb_le in H1, H2.
  repeat rewrite orb_false_iff. repeat split.
  - apply andb_false_iff. right. apply Z.leb_gt. lia.
  - apply Z.eqb_neq. lia.
  - apply Z.eqb_neq. lia.
  - apply Z.eqb_neq. lia.
Qed.

Lemma lstrip_id c s : is_num_space c = false -> lstrip (String c s) = String c s.
Proof. intros H. simpl. rewrite H. reflexivity. Qed.

Lemma rstrip_id s :
  all_in (fun c => negb (is_num_space c)) s = true -> rstrip s = s.
Proof.
  induction s as [|c s IH]; simpl; [reflexivity|].
  intros H. apply andb_true_iff in H as [Hc Hs].
  rewrite (IH Hs). destruct s; [|reflexivity].
  apply negb_true_iff in Hc. rewrite Hc. reflexivity.
Qed.

Lemma strip_id s :
  all_in (fun c => negb (is_num_space c)) s = true -> strip s = s.
Proof.
  intros H. unfold strip. destruct s as [|c s]; [reflexivity|].
  pose proof H as H'. simpl in H'. apply andb_true_iff in H' as [Hc _].
  apply negb_true_iff in Hc. rewrite (lstrip_id _ _ Hc). apply rstrip_id, H.
Qed.

Lemma all_in_append p a b : all_in p (a ++ b) = all_in p a && all_in p b.
Proof.
  induction a as [|c a IH]; simpl; [reflexivity|].
  rewrite IH, andb_assoc. reflexivity.
Qed.

Lemma all_in_impl (p q : ascii -> bool) s :
  (forall c, p c = true -> q c = true) -> all_in p s = true -> all_in q s = true.
Proof.
  intros Hpq. induction s as [|c s IH]; simpl; [reflexivity|].
  intros H. apply andb_true_iff in H as [Hc Hs].
  rewrite (Hpq _ Hc), (IH Hs). reflexivity.
Qed.

Lemma digits_no_space s :
  all_in is_digit s = true -> all_in (fun c => negb (is_num_space c)) s = true.
Proof.
  apply all_in_impl. intros c H. rewrite (digit_not_space _ H). reflexivity.
Qed.

(** A digit is no sign and starts neither [inf] nor [nan]. *)
Lemma digit_first c s :
  is_digit c = true ->
  sign (String c s) = (false, String c s) /\
  String.eqb (lower_string (String c s)) "inf" = false /\
  String.eqb (lower_string (String c s)) "infinity" = false /\
  String.eqb (lower_string (String c s)) "nan" = false /\
  Ascii.eqb c "_" = false.
Proof.
  destruct c as [[] [] [] [] [] [] [] []]; intros H; try discriminate H;
    repeat split; reflexivity.
Qed.

Lemma digits_tail_run s : forall acc n r,
  all_in is_digit s = true -> ends_digits r ->
  exists acc', digits_tail acc n (s ++ r) = (acc', n + Z.of_nat (String.length s), r).
Proof.
  induction s as [|c s IH]; intros acc n r Hs Hr.
  - exists acc. rewrite Z.add_0_r. simpl.
    destruct r as [|c r]; [reflexivity|].
    destruct Hr as [H1 H2]. simpl. rewrite H1, H2. reflexivity.
  - simpl in Hs. apply andb_true_iff in Hs as [Hc Hs].
    destruct (IH (acc * 10 + digit_value c) (n + 1) r Hs Hr) as [acc' H].
    exists acc'. simpl. rewrite Hc, H. f_equal. f_equal. lia.
Qed.

Lemma digitpart_run s r :
  digits1 s -> ends_digits r ->
  exists v n, digitpart (s ++ r) = (v, n, r) /\ 0 < n /\ n = Z.of_nat (String.length s).
Proof.
  intros [Hne Hs] Hr. destruct s as [|c s]; [congruence|].
  simpl in Hs. apply andb_true_iff in Hs as [Hc Hs].
  destruct (digits_tail_run s (digit_value c) 1 r Hs Hr) as [acc' H].
  exists acc', (1 + Z.of_nat (String.length s)). simpl. rewrite Hc, H.
  repeat split; lia.
Qed.

Lemma append_empty (s : string) : s ++ "" = s.
Proof. induction s as [|c s IH]; simpl; [reflexivity | rewrite IH; reflexivity]. Qed.

(** [int] reads a non-empty text of digits when it is within the limit,
    and raises when it is not. *)
Lemma int_of_digits ds :
  digits1 ds ->
  if Z.of_nat (String.length ds) <=? max_str_digits
  then exists z, int_of_string ds = Ok z
  else int_of_string ds = Err ValueError.
Proof.
  intros Hd. pose proof Hd as [Hne Hs].
  unfold int_of_string. rewrite (strip_id _ (digits_no_space _ Hs)).
  destruct ds as [|c ds]; [congruence|].
  pose proof Hs as Hs'. simpl in Hs'. apply andb_true_iff in Hs' as [Hc _].
  destruct (digit_first c ds Hc) as (-> & _).
  destruct (digitpart_run _ "" Hd I) as (v & n & H & Hn & Hlen).
  rewrite append_empty in H. rewrite H, <- Hlen.
  destruct (Z.eqb_spec n 0); [lia|]. cbn [orb].
  destruct (Z.leb_spec n max_str_digits), (Z.ltb_spec max_str_digits n); try lia; eauto.
Qed.

(** [float] reads every text of digits, a point and digits. *)
Lemma float_of_dotted ds ds' :
  digits1 ds -> digits1 ds' -> exists f, float_of_string (ds ++ "." ++ ds') = Ok f.
Proof.
  intros Hd Hd'. pose proof Hd as [Hne Hs]. pose proof Hd' as [Hne' Hs'].
  unfold float_of_string.
  rewrite strip_id.
  2:{ rewrite all_in_append. rewrite (digits_no_space _ Hs). simpl.
      rewrite (digits_no_space _ Hs'). reflexivity. }
  destruct ds as [|c ds]; [congruence|].
  pose proof Hs as Hc. simpl in Hc. apply andb_true_iff in Hc as [Hc _].
  change (String c ds ++ "." ++ ds') with (String c (ds ++ "." ++ ds')).
  destruct (digit_first c (ds ++ "." ++ ds') Hc) as (-> & -> & -> & -> & _).
  cbn [orb].
  change (String c (ds ++ "." ++ ds')) with (String c ds ++ "." ++ ds').
  unfold decimal_of_string.
  destruct (digitpart_run (String c ds) ("." ++ ds') Hd) as (ip & ni & H & Hni & _);
    [split; reflexivity|].
  rewrite H. cbn [String.append].
  change (String "." ds') with ("." ++ ds').
  destruct (digitpart_run ds' "" Hd' I) as (fp & nf & H' & Hnf & _).
  rewrite append_empty in H'.
  change ("." ++ ds') with (String "." ds'). cbv iota beta. rewrite H'.
  destruct (Z.eqb_spec (ni + nf) 0); [lia|].
  cbn [exponent]. eauto.
Qed.

Lemma contains_dotted ds ds' : contains "." (ds ++ "." ++ ds') = true.
Proof.
  induction ds as [|c ds IH]; [destruct ds'; reflexivity|].
  change (String c ds ++ "." ++ ds') with (String c (ds ++ "." ++ ds')).
  cbn [contains]. rewrite IH. apply orb_true_r.
Qed.

Lemma contains_digits ds : all_in is_digit ds = true -> contains "." ds = false.
Proof.
  induction ds as [|c ds IH]; [reflexivity|].
  intros H. simpl in H. apply andb_true_iff in H as [Hc Hs].
  cbn [contains]. rewrite (IH Hs), orb_false_r.
  destruct c as [[] [] [] [] [] [] [] []]; try discriminate Hc; reflexivity.
Qed.

(** The token of a NUMBER match is made when the text can be converted;
    [int] raises on the others. *)
Lemma token_of_number v :
  number_lexeme v ->
  if number_fits v then exists n, token_of NUMBER v = Ok (Some (NumTok n))
  else token_of NUMBER v = Err ValueError.
Proof.
  intros [ds Hd | ds ds' Hd Hd']; unfold number_fits; cbn [token_of].
  - rewrite (contains_digits _ (proj2 Hd)). cbn [py_int orb].
    pose proof (int_of_digits _ Hd) as H.
    destruct (Z.of_nat (String.length ds) <=? max_str_digits).
    + destruct H as [z ->]. exists (NInt z). reflexivity.
    + rewrite H. reflexivity.
  - rewrite contains_dotted. cbn [py_float orb].
    destruct (float_of_dotted _ _ Hd Hd') as [f ->]. exists (NFloat f). reflexivity.
Qed.

(** ** Lexer: [tokenize] *)

(** Every NUMBER match of [finditer] is the text of a number. *)
Lemma finditer_numbers line : forall skip,
  Forall (fun m => fst m = NUMBER -> number_lexeme (snd m)) (finditer token_spec skip line).
Proof.
  induction line as [|c line IH]; intros skip; cbn [finditer]; [constructor|].
  destruct skip; [|apply IH].
  destruct (match_at token_spec (String c line)) as [[k v]|] eqn:E; [|apply IH].
  constructor; [|apply IH].
  simpl. intros ->.
  destruct (match_at_inv _ _ _ _ E) as (r & rest & Hin & Hr & ->).
  assert (r = number_re) as ->.
  { simpl in Hin.
    repeat (destruct Hin as [Hin|Hin]; [try discriminate; injection Hin as <-; reflexivity|]).
    destruct Hin. }
  destruct (number_match _ _ Hr) as (lex & -> & Hlex).
  rewrite lexeme_of_rest. exact Hlex.
Qed.

(** The tokens of the matches are made when every NUMBER match can be
    converted; otherwise [int] raises at the first that cannot. *)
Lemma tokens_of_outcome ms :
  Forall (fun m => fst m = NUMBER -> number_lexeme (snd m)) ms ->
  if forallb (fun m => match fst m with NUMBER => number_fits (snd m) | _ => true end) ms
  then exists ts, tokens_of ms = Ok ts
  else tokens_of ms = Err ValueError.
Proof.
  induction ms as [|[k v] ms IH]; intros H; [exists []; reflexivity|].
  inversion H as [|? ? Hm Hms]; subst. simpl in Hm.
  specialize (IH Hms). cbn [tokens_of forallb fst snd].
  assert (Ht : if match k with NUMBER => number_fits v | _ => true end
               then exists t, token_of k v = Ok t
               else token_of k v = Err ValueError).
  { destruct k; try (eexists; reflexivity).
    pose proof (token_of_number v (Hm eq_refl)) as Hn.
    destruct (number_fits v); [destruct Hn as [n ->]; eauto | exact Hn]. }
  destruct (match k with NUMBER => number_fits v | _ => true end).
  - destruct Ht as [t ->]. cbn [andb].
    destruct (forallb _ ms).
    + destruct IH as [ts ->]. cbn. eauto.
    + rewrite IH. reflexivity.
  - rewrite Ht. reflexivity.
Qed.

Lemma Forall_concat_map {A B} (P : B -> Prop) (f : A -> list B) (l : list A) :
  (forall a, Forall P (f a)) -> Forall P (concat (map f l)).
Proof.
  intros H. induction l as [|a l IH]; simpl; [constructor|].
  apply Forall_app. split; [apply H | exact IH].
Qed.

(** [tokenize] returns for every text whose NUMBER matches can be
    converted, and raises [ValueError] for the others. *)
Lemma tokenize_outcome code :
  if numbers_fit code then exists ts, tokenize code = Ok ts
  else tokenize code = Err ValueError.
Proof.
  unfold tokenize, numbers_fit. apply tokens_of_outcome.
  apply Forall_concat_map. intros line. apply finditer_numbers.
Qed.

(** The types of the tokens of a text: never LEN, SKIP or NEWLINE. *)
Lemma tokenize_types code ts :
  tokenize code = Ok ts ->
  Forall (fun t => type t <> LEN /\ type t <> SKIP /\ type t <> NEWLINE) ts.
Proof.
  unfold tokenize. intros H.
  pose proof (tokens_of_types _ _ H) as Hty.
  assert (Hms : Forall (fun m => fst m <> LEN) (concat (map line_matches (splitlines code))))
    by (apply Forall_concat_map; intros line; apply finditer_never_LEN).
  eapply Forall_impl; [exact Hty|].
  intros t (Hin & Hs & Hn). repeat split; try assumption.
  intros Hlen. rewrite Hlen in Hin.
  apply in_map_iff in Hin as (m & Hm & Hin').
  rewrite List.Forall_forall in Hms. exact (Hms m Hin' Hm).
Qed.

(** The alternation stops at the first alternative that matches. *)
Lemma match_at_app before k r after s rest :
  Forall (fun kr => rmatch (snd kr) Some s = None) before ->
  rmatch r Some s = Some rest ->
  match_at (before ++ (k, r) :: after) s =
    Some (k, substring 0 (String.length s - String.length rest) s).
Proof.
  intros Hb Hr. induction Hb as [|[k0 r0] before H0 _ IH]; simpl.
  - rewrite Hr. reflexivity.
  - simpl in H0. rewrite H0. exact IH.
Qed.

(** A blank starts a SKIP match. *)
Lemma match_at_blank c line :
  is_blank c = true -> exists v, match_at token_spec (String c line) = Some (SKIP, v).
Proof.
  intros H.
  assert (Hc : c = " "%char \/ c = ascii_of_nat 9).
  { destruct c as [[] [] [] [] [] [] [] []]; try discriminate H; auto. }
  change token_spec with
    (firstn 33 token_spec ++ (SKIP, Plus is_blank) :: skipn 34 token_spec)%list.
  destruct Hc as [-> | ->]; eexists;
    apply match_at_app with (rest := after_run is_blank line).
  - repeat (apply List.Forall_cons; [reflexivity|]). apply List.Forall_nil.
  - change (star is_blank Some line = Some (after_run is_blank line)).
    apply star_total; discriminate.
  - repeat (apply List.Forall_cons; [reflexivity|]). apply List.Forall_nil.
  - change (star is_blank Some line = Some (after_run is_blank line)).
    apply star_total; discriminate.
Qed.

(** At a character that starts no token, no alternative matches. *)
Lemma match_at_unmatched c line :
  starts_no_token c = true -> match_at token_spec (String c line) = None.
Proof.
  destruct c as [[] [] [] [] [] [] [] []]; intros H; try discriminate H; reflexivity.
Qed.

Lemma finditer_blank line : forall skip,
  all_in is_blank line = true ->
  Forall (fun m => fst m = SKIP) (finditer token_spec skip line).
Proof.
  induction line as [|c line IH]; intros skip H; cbn [finditer]; [constructor|].
  simpl in H. apply andb_true_iff in H as [Hc Hl].
  destruct skip; [|apply IH, Hl].
  destruct (match_at_blank c line Hc) as [v ->].
  constructor; [reflexivity | apply IH, Hl].
Qed.

Lemma tokens_of_skips ms : Forall (fun m => fst m = SKIP) ms -> tokens_of ms = Ok [].
Proof.
  induction ms as [|[k v] ms IH]; intros H; [reflexivity|].
  inversion H as [|? ? Hk Hms]; subst. simpl in Hk. subst k.
  cbn [tokens_of token_of]. rewrite (IH Hms). reflexivity.
Qed.

Lemma before_hash_blank line :
  all_in is_blank line = true -> all_in is_blank (before_hash line) = true.
Proof.
  induction line as [|c line IH]; simpl; [reflexivity|].
  intros H. apply andb_true_iff in H as [Hc Hl].
  destruct (Ascii.eqb c "#"); [reflexivity|]. simpl. rewrite Hc. apply IH, Hl.
Qed.

(** The lines of a text of blanks and line ends are blank. *)
Lemma splitlines_from_blank n : forall code cur,
  (String.length code <= n)%nat ->
  all_in (fun c => is_blank c || is_linebreak c) code = true ->
  all_in is_blank cur = true ->
  Forall (fun line => all_in is_blank line = true) (splitlines_from cur code).
Proof.
  induction n as [|n IH]; intros code cur Hn Hcode Hcur.
  - destruct code; [|simpl in Hn; lia].
    simpl. destruct (String.eqb cur ""); repeat constructor. exact Hcur.
  - destruct code as [|c code].
    { simpl. destruct (String.eqb cur ""); repeat constructor. exact Hcur. }
    simpl in Hn, Hcode. apply andb_true_iff in Hcode as [Hc Hcode].
    cbn [splitlines_from]. destruct (is_linebreak c) eqn:Elb.
    + constructor; [exact Hcur|].
      destruct code as [|c' code']; [constructor|].
      destruct ((code c =? 13) && (code c' =? 10)).
      * simpl in Hn, Hcode. apply andb_true_iff in Hcode as [_ Hcode].
        apply IH; [lia | exact Hcode | reflexivity].
      * apply IH; [lia | exact Hcode | reflexivity].
    + rewrite orb_false_r in Hc. apply IH; [lia | exact Hcode|].
      rewrite all_in_append, Hcur. simpl. rewrite Hc. reflexivity.
Qed.

(** A text of blanks and line ends has no token. *)
Lemma tokenize_blank code :
  all_in (fun c => is_blank c || is_linebreak c) code = true -> tokenize code = Ok [].
Proof.
  intros H. unfold tokenize. apply tokens_of_skips.
  pose proof (splitlines_from_blank _ code "" (le_n _) H eq_refl) as Hl.
  fold (splitlines code) in Hl.
  induction Hl as [|line lines Hline _ IH]; simpl; [constructor|].
  apply Forall_app. split; [|exact IH].
  apply finditer_blank, before_hash_blank, Hline.
Qed.

(** ** Parser: no LEN token, no [Len] node *)

Lemma keeps_bind {A B} (ca : A -> Prop) (cb : B -> Prop) ts (m : presult A)
    (f : A -> list Token -> presult B) :
  keeps ca ts m ->
  (forall a rest, ca a -> keeps cb rest (f a rest)) ->
  keeps cb ts (pbind m f).
Proof.
  intros Hm Hf Hts. specialize (Hm Hts).
  destruct m as [a rest| |]; simpl; [|exact I|exact I].
  destruct Hm as [Ha Hrest]. exact (Hf a rest Ha Hrest).
Qed.

Lemma keeps_parsed {A} (clean : A -> Prop) ts a rest :
  clean a -> (no_LEN ts -> no_LEN rest) -> keeps clean ts (Parsed a rest).
Proof. intros Ha Hr Hts. split; [exact Ha | exact (Hr Hts)]. Qed.

Lemma no_LEN_tail t ts : no_LEN (t :: ts) -> no_LEN ts.
Proof. intros H. inversion H; assumption. Qed.

Lemma keeps_eat k ts : keeps (fun _ => True) ts (eat k ts).
Proof.
  intros Hts. destruct ts as [|t ts]; simpl; [exact I|].
  destruct (decide (type t = k)); [|exact I].
  split; [exact I | exact (no_LEN_tail _ _ Hts)].
Qed.

Lemma keeps_eat_ident ts : keeps (fun _ => True) ts (eat_ident ts).
Proof.
  intros Hts. destruct ts as [|[n|k v] ts]; simpl; try exact I.
  destruct k; try exact I. split; [exact I | exact (no_LEN_tail _ _ Hts)].
Qed.

Lemma keeps_factor ts : keeps (fun e => has_len e = false) ts (factor ts).
Proof.
  intros Hts. destruct ts as [|[n|k v] ts]; simpl; [exact I| |].
  - split; [reflexivity | exact (no_LEN_tail _ _ Hts)].
  - pose proof (no_LEN_tail _ _ Hts) as Ht.
    destruct k; try exact I; try (split; [reflexivity | exact Ht]).
    inversion Hts as [|? ? Hk _]. simpl in Hk. congruence.
Qed.

Lemma keeps_expr_loop fuel : forall n ts,
  has_len n = false -> keeps (fun e => has_len e = false) ts (expr_loop fuel n ts).
Proof.
  induction fuel as [|fuel IH]; intros n ts Hn.
  - destruct ts as [|t ts]; simpl.
    + apply keeps_parsed; auto.
    + destruct (binop_of_kind (type t)); [intros _; exact I | apply keeps_parsed; auto].
  - destruct ts as [|t ts]; simpl.
    + apply keeps_parsed; auto.
    + destruct (binop_of_kind (type t)); [|apply keeps_parsed; auto].
      intros Hts. apply no_LEN_tail in Hts. revert Hts.
      apply (keeps_bind (fun e => has_len e = false)); [apply keeps_factor|].
      intros r rest Hr. apply IH. simpl. rewrite Hn, Hr. reflexivity.
Qed.

Lemma keeps_expr ts : keeps (fun e => has_len e = false) ts (expr ts).
Proof.
  unfold expr. apply (keeps_bind (fun e => has_len e = false)); [apply keeps_factor|].
  intros n rest Hn. apply keeps_expr_loop, Hn.
Qed.

Lemma keeps_set_stmt ts : keeps clean_branch ts (set_stmt ts).
Proof.
  unfold set_stmt.
  apply (keeps_bind (fun _ => True)); [apply keeps_eat|]. intros _ ts1 _.
  apply (keeps_bind (fun e => has_len e = false)); [apply keeps_expr|]. intros e ts2 He.
  apply keeps_parsed; auto.
Qed.

Lemma keeps_var_decl ts : keeps clean_branch ts (var_decl ts).
Proof.
  unfold var_decl.
  apply (keeps_bind (fun _ => True)); [apply keeps_eat|]. intros _ ts1 _.
  destruct ts1 as [|tok ts1']; [intros _; exact I|].
  apply (keeps_bind (fun _ => True)); [apply keeps_eat|]. intros t ts2 _.
  apply (keeps_bind (fun _ => True)); [apply keeps_eat_ident|]. intros x ts3 _.
  apply (keeps_bind (fun _ => True)); [apply keeps_eat|]. intros _ ts4 _.
  apply (keeps_bind (fun e => has_len e = false)); [apply keeps_expr|]. intros e ts5 He.
  apply keeps_parsed; auto.
Qed.

Lemma keeps_fce_stmt ts : keeps clean_branch ts (fce_stmt ts).
Proof.
  unfold fce_stmt.
  apply (keeps_bind (fun _ => True)); [apply keeps_eat|]. intros _ ts1 _.
  apply (keeps_bind (fun _ => True)); [apply keeps_eat_ident|]. intros x ts2 _.
  apply keeps_parsed; auto. reflexivity.
Qed.

Section KeepsStatements.
Variable bos : list Token -> presult (option stmt).
Hypothesis keeps_bos : forall ts, keeps clean_branch ts (bos ts).

Lemma keeps_if_stmt ts : keeps clean_branch ts (if_stmt bos ts).
Proof.
  unfold if_stmt.
  apply (keeps_bind (fun _ => True)); [apply keeps_eat|]. intros _ ts1 _.
  apply (keeps_bind (fun e => has_len e = false)); [apply keeps_expr|]. intros c ts2 Hc.
  apply (keeps_bind clean_branch); [apply keeps_bos|]. intros th ts3 Hth.
  assert (Hnone : keeps clean_branch ts3 (Parsed (Some (If c th None)) ts3)).
  { apply keeps_parsed; auto. unfold clean_branch in *. simpl.
    fold (branch_has_len th). rewrite Hc, Hth. reflexivity. }
  destruct ts3 as [|[n|k v] ts3']; try exact Hnone.
  destruct k; try exact Hnone.
  apply (keeps_bind (fun _ => True)); [apply keeps_eat|]. intros _ ts4 _.
  apply (keeps_bind clean_branch); [apply keeps_bos|]. intros el ts5 Hel.
  apply keeps_parsed; auto. unfold clean_branch in *. simpl.
  fold (branch_has_len th). fold (branch_has_len el). rewrite Hc, Hth, Hel. reflexivity.
Qed.

Lemma keeps_wset_stmt ts : keeps clean_branch ts (wset_stmt bos ts).
Proof.
  unfold wset_stmt.
  apply (keeps_bind (fun _ => True)); [apply keeps_eat|]. intros _ ts1 _.
  apply (keeps_bind (fun e => has_len e = false)); [apply keeps_expr|]. intros c ts2 Hc.
  apply (keeps_bind clean_branch); [apply keeps_bos|]. intros b ts3 Hb.
  apply keeps_parsed; auto. unfold clean_branch in *. simpl.
  fold (branch_has_len b). rewrite Hc, Hb. reflexivity.
Qed.

Lemma keeps_try_stmt ts : keeps clean_branch ts (try_stmt bos ts).
Proof.
  unfold try_stmt.
  apply (keeps_bind (fun _ => True)); [apply keeps_eat|]. intros _ ts1 _.
  apply (keeps_bind clean_branch); [apply keeps_bos|]. intros t ts2 Ht.
  apply (keeps_bind (fun _ => True)); [apply keeps_eat|]. intros _ ts3 _.
  apply (keeps_bind clean_branch); [apply keeps_bos|]. intros c ts4 Hc.
  apply keeps_parsed; auto. unfold clean_branch in *. simpl.
  fold (branch_has_len t). fold (branch_has_len c). rewrite Ht, Hc. reflexivity.
Qed.
End KeepsStatements.

Lemma clean_stmts_snoc ss (st : option stmt) :
  clean_stmts ss -> clean_branch st ->
  clean_stmts (match st with Some x => ss ++ [x] | None => ss end).
Proof.
  unfold clean_stmts, clean_branch. intros Hss Hst.
  destruct st as [x|]; [|exact Hss].
  rewrite existsb_app, Hss. simpl in *. rewrite Hst. reflexivity.
Qed.

Lemma keeps_statements fuel :
  (forall ts, keeps clean_branch ts (statement fuel ts)) /\
  (forall ts, keeps clean_branch ts (block_or_stmt fuel ts)) /\
  (forall s ts, clean_stmts s -> keeps clean_stmts ts (block_loop fuel s ts)).
Proof.
  induction fuel as [|fuel (IHs & IHb & IHl)].
  - repeat split; intros; intros _; exact I.
  - repeat split.
    + intros ts. cbn [statement].
      destruct ts as [|tok rest]; [apply keeps_parsed; auto; reflexivity|].
      assert (Hskip : keeps clean_branch (tok :: rest) (Parsed None rest))
        by (apply keeps_parsed; [reflexivity | apply no_LEN_tail]).
      destruct (type tok); try exact Hskip.
      * apply keeps_var_decl.
      * apply keeps_set_stmt.
      * apply keeps_if_stmt, IHb.
      * apply keeps_wset_stmt, IHb.
      * apply keeps_fce_stmt.
      * apply keeps_try_stmt, IHb.
    + intros ts. cbn [block_or_stmt].
      destruct ts as [|[n|k v] rest]; try apply IHs.
      destruct k; try apply IHs.
      apply (keeps_bind (fun _ => True)); [apply keeps_eat|]. intros _ ts1 _.
      apply (keeps_bind clean_stmts); [apply IHl; reflexivity|]. intros s ts2 Hs.
      apply (keeps_bind (fun _ => True)); [apply keeps_eat|]. intros _ ts3 _.
      apply keeps_parsed; auto.
    + intros s ts Hs. cbn [block_loop].
      assert (Hgo : keeps clean_stmts ts
                (pbind (statement fuel ts) (fun st ts' =>
                   block_loop fuel (match st with Some x => s ++ [x] | None => s end) ts'))).
      { apply (keeps_bind clean_branch); [apply IHs|]. intros st ts' Hst.
        apply IHl, clean_stmts_snoc; assumption. }
      destruct ts as [|[n|k v] rest]; [apply keeps_parsed; auto|exact Hgo|].
      destruct k; try exact Hgo. apply keeps_parsed; auto.
Qed.

Lemma keeps_parse_loop fuel : forall stmts ts,
  clean_stmts stmts -> keeps clean_stmts ts (parse_loop fuel stmts ts).
Proof.
  induction fuel as [|fuel IH]; intros stmts ts Hs; [intros _; exact I|].
  cbn [parse_loop]. destruct ts as [|tok rest]; [apply keeps_parsed; auto|].
  apply (keeps_bind clean_branch); [apply keeps_statements|]. intros st ts' Hst.
  apply IH, clean_stmts_snoc; assumption.
Qed.

(** No program text is parsed to a tree with a [Len] node. *)
Lemma parse_never_builds_Len code ts tree rest :
  tokenize code = Ok ts -> parse ts = Parsed tree rest ->
  existsb stmt_has_len tree = false.
Proof.
  intros Ht Hp.
  assert (Hts : no_LEN ts).
  { eapply Forall_impl; [exact (tokenize_types _ _ Ht)|]. simpl. intuition. }
  pose proof (keeps_parse_loop (2 * length ts + 2) [] ts eq_refl Hts) as H.
  unfold parse in Hp. rewrite Hp in H. exact (proj1 H).
Qed.

(** ** Parser: the budget is enough *)

Lemma progress_weaken {A} strict ts (r : presult A) :
  progress strict ts r -> progress false ts r.
Proof. destruct r, strict; simpl; auto; lia. Qed.

Lemma progress_bind {A B} s1 s2 ts (m : presult A) (f : A -> list Token -> presult B) :
  progress s1 ts m ->
  (forall a rest, (if s1 then length rest < length ts else length rest <= length ts)%nat ->
     progress s2 rest (f a rest)) ->
  progress (s1 || s2) ts (pbind m f).
Proof.
  intros Hm Hf. destruct m as [a rest| |]; simpl in *; [|exact I|exact Hm].
  specialize (Hf a rest Hm). destruct (f a rest); simpl in *; [|exact I|exact Hf].
  destruct s1, s2; simpl; lia.
Qed.

Lemma progress_eat k ts : progress true ts (eat k ts).
Proof.
  destruct ts as [|t ts]; simpl; [exact I|].
  destruct (decide (type t = k)); simpl; [lia | exact I].
Qed.

Lemma progress_eat_ident ts : progress true ts (eat_ident ts).
Proof.
  destruct ts as [|[n|k v] ts]; simpl; try exact I.
  destruct k; simpl; try exact I. lia.
Qed.

Lemma progress_factor ts : progress true ts (factor ts).
Proof.
  induction ts as [|[n|k v] ts IH]; simpl; [exact I | lia |].
  destruct k; simpl; try exact I; try lia.
  destruct (factor ts); simpl in *; [lia | exact I | exact IH].
Qed.

Lemma progress_expr_loop fuel : forall n ts,
  (length ts <= fuel)%nat -> progress false ts (expr_loop fuel n ts).
Proof.
  induction fuel as [|fuel IH]; intros n ts Hlen.
  - destruct ts; [simpl; lia | simpl in Hlen; lia].
  - destruct ts as [|t ts]; simpl; [lia|].
    destruct (binop_of_kind (type t)); [|simpl; lia].
    pose proof (progress_factor ts) as Hf.
    destruct (factor ts) as [r ts'| |]; simpl in *; [|exact I|exact Hf].
    assert (Hl : (length ts' <= fuel)%nat) by lia.
    specialize (IH (Bin b n r) ts' Hl).
    destruct (expr_loop fuel (Bin b n r) ts'); simpl in *; [lia | exact I | exact IH].
Qed.

Lemma progress_expr ts : progress true ts (expr ts).
Proof.
  unfold expr. apply (progress_bind true false); [apply progress_factor|].
  intros n rest _. apply progress_expr_loop. lia.
Qed.

Lemma progress_set_stmt ts : progress true ts (set_stmt ts).
Proof.
  unfold set_stmt.
  apply (progress_bind true true); [apply progress_eat|]. intros _ ts1 _.
  apply (progress_bind true false); [apply progress_expr|]. intros e ts2 _.
  simpl. lia.
Qed.

Lemma progress_var_decl ts : progress true ts (var_decl ts).
Proof.
  unfold var_decl.
  apply (progress_bind true false); [apply progress_eat|]. intros _ ts1 _.
  destruct ts1 as [|tok ts1']; [exact I|].
  apply (progress_bind false false); [apply progress_weaken with true, progress_eat|].
  intros t ts2 _.
  apply (progress_bind false false); [apply progress_weaken with true, progress_eat_ident|].
  intros x ts3 _.
  apply (progress_bind false false); [apply progress_weaken with true, progress_eat|].
  intros _ ts4 _.
  apply (progress_bind false false); [apply progress_weaken with true, progress_expr|].
  intros e ts5 _. simpl. lia.
Qed.

Lemma progress_fce_stmt ts : progress true ts (fce_stmt ts).
Proof.
  unfold fce_stmt.
  apply (progress_bind true false); [apply progress_eat|]. intros _ ts1 _.
  apply (progress_bind false false); [apply progress_weaken with true, progress_eat_ident|].
  intros x ts2 _. simpl. lia.
Qed.

Section ProgressStatements.
Variable bos : list Token -> presult (option stmt).
Variable n : nat.
Hypothesis progress_bos :
  forall ts, (length ts < n)%nat -> progress false ts (bos ts).

Lemma progress_if_stmt ts :
  (length ts <= n)%nat -> progress true ts (if_stmt bos ts).
Proof.
  intros Hn. unfold if_stmt.
  apply (progress_bind true false); [apply progress_eat|]. intros _ ts1 H1.
  apply (progress_bind false false); [apply progress_weaken with true, progress_expr|].
  intros c ts2 H2.
  apply (progress_bind false false); [apply progress_bos; lia|]. intros th ts3 H3.
  assert (Hnone : progress false ts3 (Parsed (Some (If c th None)) ts3)) by (simpl; lia).
  destruct ts3 as [|[m|k v] ts3']; try exact Hnone.
  destruct k; try exact Hnone.
  apply progress_weaken with true.
  apply (progress_bind true false); [apply progress_eat|]. intros _ ts4 H4.
  apply (progress_bind false false); [apply progress_bos; simpl in *; lia|].
  intros el ts5 H5. simpl. lia.
Qed.

Lemma progress_wset_stmt ts :
  (length ts <= n)%nat -> progress true ts (wset_stmt bos ts).
Proof.
  intros Hn. unfold wset_stmt.
  apply (progress_bind true false); [apply progress_eat|]. intros _ ts1 H1.
  apply (progress_bind false false); [apply progress_weaken with true, progress_expr|].
  intros c ts2 H2.
  apply (progress_bind false false); [apply progress_bos; lia|]. intros b ts3 H3.
  simpl. lia.
Qed.

Lemma progress_try_stmt ts :
  (length ts <= n)%nat -> progress true ts (try_stmt bos ts).
Proof.
  intros Hn. unfold try_stmt.
  apply (progress_bind true false); [apply progress_eat|]. intros _ ts1 H1.
  apply (progress_bind false false); [apply progress_bos; lia|]. intros t ts2 H2.
  apply (progress_bind false false); [apply progress_weaken with true, progress_eat|].
  intros _ ts3 H3.
  apply (progress_bind false false); [apply progress_bos; lia|]. intros c ts4 H4.
  simpl. lia.
Qed.
End ProgressStatements.

Lemma progress_statements fuel :
  (forall ts, (2 * length ts + 1 <= fuel)%nat ->
     progress (nonempty ts) ts (statement fuel ts)) /\
  (forall ts, (2 * length ts + 2 <= fuel)%nat ->
     progress (nonempty ts) ts (block_or_stmt fuel ts)) /\
  (forall s ts, (2 * length ts + 2 <= fuel)%nat ->
     progress false ts (block_loop fuel s ts)).
Proof.
  induction fuel as [|fuel (IHs & IHb & IHl)].
  - repeat split; intros; lia.
  - assert (Hbos : forall n ts, (2 * n <= fuel)%nat -> (length ts < n)%nat ->
                     progress false ts (block_or_stmt fuel ts)).
    { intros n ts Hn Hlt. apply progress_weaken with (nonempty ts), IHb. lia. }
    repeat split.
    + intros ts Hlen. cbn [statement].
      destruct ts as [|tok rest]; [simpl; lia|].
      assert (Hskip : progress (A := option stmt) true (tok :: rest) (Parsed None rest))
        by (simpl; lia).
      simpl in Hlen. cbn [nonempty].
      destruct (type tok); try exact Hskip.
      * apply progress_var_decl.
      * apply progress_set_stmt.
      * apply (progress_if_stmt _ (S (length rest))); [|simpl; lia].
        intros ts. apply Hbos. lia.
      * apply (progress_wset_stmt _ (S (length rest))); [|simpl; lia].
        intros ts. apply Hbos. lia.
      * apply progress_fce_stmt.
      * apply (progress_try_stmt _ (S (length rest))); [|simpl; lia].
        intros ts. apply Hbos. lia.
    + intros ts Hlen. cbn [block_or_stmt].
      assert (Hst : progress (nonempty ts) ts (statement fuel ts)) by (apply IHs; lia).
      destruct ts as [|[m|k v] rest]; try exact Hst.
      destruct k; try exact Hst. simpl in Hlen. cbn [nonempty].
      apply (progress_bind true false); [apply progress_eat|]. intros _ ts1 H1.
      apply (progress_bind false false); [apply IHl; simpl in H1; lia|]. intros s ts2 H2.
      apply (progress_bind false false); [apply progress_weaken with true, progress_eat|].
      intros _ ts3 H3. simpl. lia.
    + intros s ts Hlen. cbn [block_loop].
      assert (Hgo : ts <> [] -> progress false ts
                (pbind (statement fuel ts) (fun st ts' =>
                   block_loop fuel (match st with Some x => s ++ [x] | None => s end) ts'))).
      { intros Hne.
        assert (Hs : progress true ts (statement fuel ts)).
        { pose proof (IHs ts ltac:(lia)) as H. destruct ts; [congruence | exact H]. }
        apply progress_weaken with true.
        apply (progress_bind true false); [exact Hs|]. intros st ts' H1.
        apply IHl. lia. }
      destruct ts as [|[m|k v] rest]; [simpl; lia | apply Hgo; discriminate |].
      destruct k; try (apply Hgo; discriminate). simpl. lia.
Qed.

Lemma progress_parse_loop fuel : forall stmts ts,
  (2 * length ts + 2 <= fuel)%nat -> progress false ts (parse_loop fuel stmts ts).
Proof.
  induction fuel as [|fuel IH]; intros stmts ts Hlen; [lia|].
  cbn [parse_loop]. destruct ts as [|tok rest]; [simpl; lia|].
  simpl in Hlen.
  apply progress_weaken with true.
  apply (progress_bind true false).
  - exact (proj1 (progress_statements fuel) (tok :: rest) ltac:(simpl; lia)).
  - intros st ts' H1. apply IH. simpl in H1. lia.
Qed.

(** [parse] never runs out of the budget it gives itself: it returns a
    tree or raises. *)
Lemma parse_total ts : parse ts <> Starved.
Proof.
  pose proof (progress_parse_loop (2 * length ts + 2) [] ts (le_n _)) as H.
  unfold parse. intros E. rewrite E in H. exact H.
Qed.

(** [run_code] never ends in [ParserStarved], and the lexer raises
    nothing but [ValueError]. *)
Lemma run_code_ends fuel code lines :
  run_code fuel code lines = LexerRaised ValueError \/
  (exists e, run_code fuel code lines = ParserRaised e) \/
  (exists o, run_code fuel code lines = Ran o).
Proof.
  unfold run_code. pose proof (tokenize_outcome code) as Ht.
  destruct (numbers_fit code); [destruct Ht as [ts ->] | rewrite Ht; auto].
  pose proof (parse_total ts) as H.
  destruct (parse ts); [right; right | right; left | congruence]; eauto.
Qed.

(** ** Lexer and parser: the claims *)

(** No match is longer than its line, and no line longer than the text. *)
Lemma substring_length_le n : forall s,
  (String.length (substring 0 n s) <= String.length s)%nat.
Proof.
  induction n as [|n IH]; intros [|c s]; simpl; try lia.
  specialize (IH s). lia.
Qed.

Lemma finditer_lengths line : forall skip,
  Forall (fun m => (String.length (snd m) <= String.length line)%nat)
         (finditer token_spec skip line).
Proof.
  induction line as [|c line IH]; intros skip; cbn [finditer]; [constructor|].
  assert (Hrest : forall n, Forall (fun m => (String.length (snd m) <=
                                              String.length (String c line))%nat)
                             (finditer token_spec n line)).
  { intros n. eapply Forall_impl; [apply IH|]. simpl. intros m Hm. lia. }
  destruct skip; [|apply Hrest].
  destruct (match_at token_spec (String c line)) as [[k v]|] eqn:E; [|apply Hrest].
  constructor; [|apply Hrest].
  destruct (match_at_inv _ _ _ _ E) as (r & rest & _ & _ & ->).
  apply substring_length_le.
Qed.

Lemma before_hash_length line : (String.length (before_hash line) <= String.length line)%nat.
Proof.
  induction line as [|c line IH]; simpl; [lia|].
  destruct (Ascii.eqb c "#"); simpl; lia.
Qed.

Lemma splitlines_from_lengths n : forall code cur,
  (String.length code <= n)%nat ->
  Forall (fun line => (String.length line <= String.length cur + String.length code)%nat)
         (splitlines_from cur code).
Proof.
  induction n as [|n IH]; intros code cur Hn.
  - destruct code; [|simpl in Hn; lia].
    simpl. destruct (String.eqb cur ""); repeat constructor. lia.
  - destruct code as [|c code].
    { simpl. destruct (String.eqb cur ""); repeat constructor. lia. }
    simpl in Hn. cbn [splitlines_from]. destruct (is_linebreak c).
    + constructor; [simpl; lia|].
      destruct code as [|c' code']; [constructor|].
      destruct ((code c =? 13) && (code c' =? 10)).
      * eapply Forall_impl; [apply (IH code' ""); simpl in Hn; lia|].
        simpl. intros l Hl. lia.
      * eapply Forall_impl; [apply (IH (String c' code') ""); lia|].
        simpl. intros l Hl. lia.
    + eapply Forall_impl; [apply (IH code (cur ++ String c "")); lia|].
      simpl. intros l Hl. rewrite length_append in Hl. simpl in Hl. lia.
Qed.

(** The NUMBER matches of a text of at most [max_str_digits] characters
    can be converted. *)
Lemma short_text_fits code :
  Z.of_nat (String.length code) <= max_str_digits -> numbers_fit code = true.
Proof.
  intros Hlen. unfold numbers_fit. apply forallb_forall. intros [k v] Hin.
  apply in_concat in Hin as (ms & Hms & Hin).
  apply in_map_iff in Hms as (line & <- & Hline).
  pose proof (splitlines_from_lengths _ code "" (le_n _)) as Hl.
  rewrite List.Forall_forall in Hl. specialize (Hl line Hline). simpl in Hl.
  pose proof (finditer_lengths (before_hash line) 0) as Hm.
  rewrite List.Forall_forall in Hm. specialize (Hm (k, v) Hin). simpl in Hm.
  pose proof (before_hash_length line) as Hb.
  cbn [fst snd]. destruct k; try reflexivity.
  unfold number_fits. apply orb_true_iff. right. apply Z.leb_le. lia.
Qed.

(** C8. [tokenize] returns a token sequence for every text but those
    with an integer literal (a NUMBER match without a point) of more than
    4300 digits, for which [int] raises [ValueError] and [tokenize] with
    it; so it returns for every text of at most 4300 characters, and it
    raises nothing else. Where no pattern of the table matches, as at
    every character that can start none, the scan moves on by one
    character and makes no token; blanks and line ends are matched or
    split off and make no token: no token has the type SKIP or NEWLINE,
    and a text of blanks and line ends has no token at all. *)
Theorem tokenize_fails_only_past_the_digit_limit :
  (forall code, if numbers_fit code then exists ts, tokenize code = Ok ts
                else tokenize code = Err ValueError) /\
  (forall c line, match_at token_spec (String c line) = None ->
     finditer token_spec 0 (String c line) = finditer token_spec 0 line) /\
  (forall c line, starts_no_token c = true ->
     finditer token_spec 0 (String c line) = finditer token_spec 0 line) /\
  (forall code ts, tokenize code = Ok ts ->
     Forall (fun t => type t <> SKIP /\ type t <> NEWLINE) ts) /\
  (forall code, all_in (fun c => is_blank c || is_linebreak c) code = true ->
     tokenize code = Ok []) /\
  tokenize ("set @ x $ 1.5 ~ " ++ String quote "open" ++ nl ++ "  ?" ++ nl) =
    Ok [Tok SET "set"; Tok IDENT "x";
        NumTok (NFloat (S754_finite false 6755399441055744 (-52))); Tok IDENT "open"] /\
  (forall code, Z.of_nat (String.length code) <= max_str_digits ->
     exists ts, tokenize code = Ok ts).
Proof.
  repeat apply conj.
  - apply tokenize_outcome.
  - intros c line H. cbn [finditer]. rewrite H. reflexivity.
  - intros c line H. cbn [finditer]. rewrite (match_at_unmatched c line H). reflexivity.
  - intros code ts H. eapply Forall_impl; [exact (tokenize_types _ _ H)|].
    simpl. intuition.
  - apply tokenize_blank.
  - vm_compute. reflexivity.
  - intros code Hlen. pose proof (tokenize_outcome code) as H.
    rewrite (short_text_fits code Hlen) in H. exact H.
Qed.

Lemma tokenize_fails_only_past_the_digit_limit_witness :
  finditer token_spec 0 "@le" = finditer token_spec 0 "le" /\
  finditer token_spec 0 "$1" = finditer token_spec 0 "1" /\
  Forall (fun t => type t <> SKIP /\ type t <> NEWLINE) [Tok SET "set"; Tok IDENT "x"] /\
  tokenize ("  " ++ nl ++ " ") = Ok [] /\
  (exists ts, tokenize "var int x = 12345" = Ok ts).
Proof.
  destruct tokenize_fails_only_past_the_digit_limit
    as (_ & Hskip & Hchar & Htypes & Hblank & _ & Hshort).
  repeat apply conj.
  - apply Hskip. vm_compute. reflexivity.
  - apply Hchar. vm_compute. reflexivity.
  - apply (Htypes "set x"). vm_compute. reflexivity.
  - apply Hblank. vm_compute. reflexivity.
  - apply Hshort. vm_compute. discriminate.
Defined.

(** The text of 4301 digits [9] is one integer literal, over the limit:
    [tokenize] raises. *)
Lemma tokenize_long_integer_counterexample :
  tokenize (repeat_string "9" 4301) = Err ValueError.
Proof. vm_compute. reflexivity. Qed.

(** * Further properties *)

(** ** Interpreter: what a run can change *)

Lemma only_reads_refl st : only_reads st st.
Proof. repeat split. exists []. reflexivity. Qed.

Lemma only_reads_trans a b c : only_reads a b -> only_reads b c -> only_reads a c.
Proof.
  intros (V1 & F1 & O1 & u1 & I1) (V2 & F2 & O2 & u2 & I2).
  repeat split; try congruence.
  exists (u1 ++ u2)%list. rewrite I1, I2, app_assoc. reflexivity.
Qed.

Lemma eval_ends_lift (r : result value) st0 st :
  only_reads st0 st -> eval_ends st0 (lift r st).
Proof. intros H. destruct r; exact H. Qed.

Lemma eval_ends_both f (l r : state -> outcome value) st :
  (forall s, eval_ends s (l s)) -> (forall s, eval_ends s (r s)) ->
  eval_ends st (both f l r st).
Proof.
  intros Hl Hr. unfold both. specialize (Hl st).
  destruct (l st) as [a st1|e st1|]; simpl in *; [|exact Hl|exact Hl].
  specialize (Hr st1).
  destruct (r st1) as [b st2|e st2|]; simpl in *; [| |exact Hr].
  - apply eval_ends_lift. exact (only_reads_trans _ _ _ Hl Hr).
  - exact (only_reads_trans _ _ _ Hl Hr).
Qed.

Lemma eval_ends_all e : forall st, eval_ends st (eval e st).
Proof.
  induction e as [v|s|b|x| |e IH|op l IHl r IHr]; intros st;
    try exact (only_reads_refl st).
  - unfold eval, input. destruct (stdin st) as [|line rest] eqn:E.
    + exact (only_reads_refl st).
    + repeat split. exists [line]. exact E.
  - simpl. specialize (IH st).
    destruct (eval e st) as [v st1|x st1|]; simpl in *; [|exact IH|exact IH].
    apply eval_ends_lift, IH.
  - destruct op; simpl; try (apply eval_ends_both; assumption).
    + specialize (IHl st).
      destruct (eval l st) as [a st1|x st1|]; simpl in *; [|exact IHl|exact IHl].
      destruct (truthy a); [|exact IHl].
      specialize (IHr st1). unfold eval_ends in *.
      destruct (final (eval r st1)); [|exact IHr].
      exact (only_reads_trans _ _ _ IHl IHr).
    + specialize (IHl st).
      destruct (eval l st) as [a st1|x st1|]; simpl in *; [|exact IHl|exact IHl].
      destruct (truthy a); [exact IHl|].
      specialize (IHr st1). unfold eval_ends in *.
      destruct (final (eval r st1)); [|exact IHr].
      exact (only_reads_trans _ _ _ IHl IHr).
Qed.

(** Without [Input], the state an evaluation ends in is the one it
    started from. *)
Lemma eval_pure e : forall st,
  reads_input e = false -> final (eval e st) = Some st.
Proof.
  induction e as [v|s|b|x| |e IH|op l IHl r IHr]; intros st Hr;
    try reflexivity; try discriminate.
  - simpl in *. specialize (IH st Hr).
    destruct (eval e st) as [v st1|x st1|]; simpl in *; try exact IH.
    injection IH as ->. destruct (py_len v); reflexivity.
  - simpl in Hr. apply orb_false_iff in Hr as [Hl Hr].
    specialize (IHl st Hl).
    assert (Hboth : forall f, final (both f (eval l) (eval r) st) = Some st).
    { intros f. unfold both.
      destruct (eval l st) as [a st1|x st1|]; simpl in *; try exact IHl.
      injection IHl as ->. specialize (IHr st Hr).
      destruct (eval r st) as [b st2|x st2|]; simpl in *; try exact IHr.
      injection IHr as ->. destruct (f a b); reflexivity. }
    destruct op; simpl; try apply Hboth.
    + destruct (eval l st) as [a st1|x st1|]; simpl in *; try exact IHl.
      injection IHl as ->. destruct (truthy a); [apply IHr, Hr | reflexivity].
    + destruct (eval l st) as [a st1|x st1|]; simpl in *; try exact IHl.
      injection IHl as ->. destruct (truthy a); [reflexivity | apply IHr, Hr].
Qed.

(** X1. Evaluating an expression never changes the variables, the
    function table or the output: whether it returns or raises, the state
    it ends in differs from the one it started in at most by the lines of
    input it read, which are taken from the front. An expression without
    [inp] leaves the state as it was. *)
Theorem eval_changes_only_the_input (e : node) (st : state) :
  (forall v st', eval e st = Ret v st' -> only_reads st st') /\
  (forall x st', eval e st = Raise x st' -> only_reads st st') /\
  (reads_input e = false -> forall st', final (eval e st) = Some st' -> st' = st).
Proof.
  pose proof (eval_ends_all e st) as H. repeat apply conj.
  - intros v st' E. rewrite E in H. exact H.
  - intros x st' E. rewrite E in H. exact H.
  - intros Hp st' E. rewrite (eval_pure e st Hp) in E. congruence.
Qed.

Lemma eval_changes_only_the_input_witness :
  only_reads (init ["a"; "b"] []) (init ["b"] []) /\
  (forall st', final (eval (Bin Op.NP (VarRef "x") (Num (VInt 0))) (init ["a"] [])) = Some st' ->
     st' = init ["a"] []).
Proof.
  destruct (eval_changes_only_the_input (Bin Op.PL Input (Str "!")) (init ["a"; "b"] []))
    as (Hret & _ & _).
  destruct (eval_changes_only_the_input (Bin Op.NP (VarRef "x") (Num (VInt 0))) (init ["a"] []))
    as (_ & _ & Hpure).
  split.
  - apply (Hret (VStr "a!")). reflexivity.
  - apply Hpure. reflexivity.
Defined.

Lemma only_adds_refl st : only_adds st st.
Proof.
  repeat split.
  - exists []. rewrite app_nil_r. split; [reflexivity | constructor].
  - exists []. reflexivity.
Qed.

Lemma only_adds_trans a b c : only_adds a b -> only_adds b c -> only_adds a c.
Proof.
  intros (F1 & (m1 & O1 & L1) & u1 & I1) (F2 & (m2 & O2 & L2) & u2 & I2).
  repeat split; try congruence.
  - exists (m1 ++ m2)%list. rewrite O2, O1, app_assoc. split; [reflexivity|].
    apply Forall_app. split; assumption.
  - exists (u1 ++ u2)%list. rewrite I1, I2, app_assoc. reflexivity.
Qed.

Lemma only_reads_adds a b : only_reads a b -> only_adds a b.
Proof.
  intros (V & F & O & I). repeat split; [exact F | | exact I].
  exists []. rewrite app_nil_r. split; [exact O | constructor].
Qed.

Lemma run_ends_refl ok st (o : outcome unit) : final o = Some st -> run_ends ok st o.
Proof.
  intros H. unfold run_ends. rewrite H. split; [apply only_adds_refl | reflexivity].
Qed.

Lemma run_ends_trans ok a b (o : outcome unit) :
  only_adds a b -> (forall x, ok x = false -> vars b !! x = vars a !! x) ->
  run_ends ok b o -> run_ends ok a o.
Proof.
  unfold run_ends. intros Hab Hv H. destruct (final o) as [c|]; [|exact I].
  destruct H as [Hbc Hv']. split; [exact (only_adds_trans _ _ _ Hab Hbc)|].
  intros x Hx. rewrite (Hv' x Hx). exact (Hv x Hx).
Qed.

(** After an evaluation: the variables are the same. *)
Lemma run_ends_after_eval ok st e (k : value -> state -> outcome unit) :
  (forall v st', only_reads st st' -> run_ends ok st' (k v st')) ->
  run_ends ok st (obind (eval e st) k).
Proof.
  intros Hk. pose proof (eval_ends_all e st) as He.
  destruct (eval e st) as [v st1|x st1|]; simpl in *; [| |exact I].
  - apply (run_ends_trans ok st st1); [apply only_reads_adds, He | |apply Hk, He].
    intros y _. destruct He as (-> & _). reflexivity.
  - unfold run_ends. simpl. split; [apply only_reads_adds, He|].
    intros y _. destruct He as (-> & _). reflexivity.
Qed.

Lemma table_declares_within_adds ok a b :
  only_adds a b -> table_declares_within ok a -> table_declares_within ok b.
Proof. intros (F & _) H f body. rewrite F. apply H. Qed.

Lemma forallb_map_Some ok ss :
  forallb (declares_within ok) ss = true ->
  forallb (branch_declares_within ok) (map Some ss) = true.
Proof.
  induction ss as [|s ss IH]; simpl; [reflexivity|].
  intros H. apply andb_true_iff in H as [-> H]. exact (IH H).
Qed.

(** The invariant of [run]. *)
Lemma run_ends_all ok fuel : forall stmts st,
  table_declares_within ok st ->
  forallb (branch_declares_within ok) stmts = true ->
  run_ends ok st (run fuel stmts st).
Proof.
  induction fuel as [|fuel IH]; intros stmts st Ht Hs.
  - destruct stmts; [apply run_ends_refl; reflexivity | exact I].
  - destruct stmts as [|s rest]; [apply run_ends_refl; reflexivity|].
    simpl in Hs. apply andb_true_iff in Hs as [Hs Hrest].
    cbn [run].
    assert (Hbody : forall (o : outcome unit), run_ends ok st o ->
              run_ends ok st (obind o (fun _ st' => run fuel rest st'))).
    { intros o Ho. destruct o as [[] st1|x st1|]; simpl; [|exact Ho|exact I].
      destruct Ho as [Ha Hv].
      apply (run_ends_trans ok st st1 _ Ha Hv).
      apply IH; [exact (table_declares_within_adds _ _ _ Ha Ht) | exact Hrest]. }
    apply Hbody.
    destruct s as [[tp n v|e|c th el|c b|ss|x|t c]|]; simpl in Hs.
    + apply run_ends_after_eval. intros val st1 Hr.
      destruct (coerce tp val) as [val'|x]; simpl; [|apply run_ends_refl; reflexivity].
      unfold run_ends. simpl. split.
      * repeat split; [|exists []; reflexivity].
        exists []. rewrite app_nil_r. split; [reflexivity | constructor].
      * intros y Hy. apply lookup_insert_ne. intros ->. congruence.
    + apply run_ends_after_eval. intros val st1 Hr.
      destruct (py_str val) as [text|x]; simpl; [|apply run_ends_refl; reflexivity].
      unfold run_ends. simpl. split; [|reflexivity].
      repeat split.
      * exists [Line text]. split; [reflexivity | repeat constructor].
      * exists []. reflexivity.
    + apply andb_true_iff in Hs as [Hth Hel].
      apply run_ends_after_eval. intros val st1 Hr.
      pose proof (table_declares_within_adds _ _ _ (only_reads_adds _ _ Hr) Ht) as Ht1.
      destruct (truthy val).
      * apply IH; [exact Ht1 | simpl; unfold branch_declares_within; rewrite Hth; reflexivity].
      * destruct el as [el|]; [|apply run_ends_refl; reflexivity].
        apply IH; [exact Ht1 | simpl; simpl in Hel; rewrite Hel; reflexivity].
    + apply run_ends_after_eval. intros val st1 Hr.
      pose proof (table_declares_within_adds _ _ _ (only_reads_adds _ _ Hr) Ht) as Ht1.
      destruct (truthy val); [|apply run_ends_refl; reflexivity].
      assert (Hb : run_ends ok st1 (run fuel [b] st1))
        by (apply IH; [exact Ht1 | simpl; unfold branch_declares_within; rewrite Hs; reflexivity]).
      destruct (run fuel [b] st1) as [[] st2|x st2|]; simpl; [|exact Hb|exact I].
      destruct Hb as [Ha Hv]. apply (run_ends_trans ok st1 st2 _ Ha Hv).
      apply IH; [exact (table_declares_within_adds _ _ _ Ha Ht1)|].
      simpl. unfold branch_declares_within. rewrite Hs. reflexivity.
    + apply IH; [exact Ht | apply forallb_map_Some, Hs].
    + destruct (funcs st !! x) as [body|] eqn:E; [|apply run_ends_refl; reflexivity].
      apply IH; [exact Ht | apply forallb_map_Some, (Ht x body E)].
    + apply andb_true_iff in Hs as [Hbt Hc].
      assert (Htry : run_ends ok st (run fuel [t] st))
        by (apply IH; [exact Ht | simpl; unfold branch_declares_within; rewrite Hbt; reflexivity]).
      destruct (run fuel [t] st) as [[] st1|x st1|]; [exact Htry| |exact I].
      destruct Htry as [Ha Hv]. apply (run_ends_trans ok st st1 _ Ha Hv).
      apply IH; [exact (table_declares_within_adds _ _ _ Ha Ht)|].
      simpl. unfold branch_declares_within. rewrite Hc. reflexivity.
    + apply run_ends_refl. reflexivity.
Qed.

Lemma declares_within_all s : declares_within (fun _ => true) s = true.
Proof.
  revert s. fix IH 1.
  intros [tp x e|e|c [th|] [el|]|c [b|]|l|x|[t|] [c|]]; simpl;
    try reflexivity; rewrite ?IH; try reflexivity.
  induction l as [|s l IHl]; simpl; [reflexivity|]. rewrite IH, IHl. reflexivity.
Qed.

Lemma forallb_all_body l : forallb (declares_within (fun _ => true)) l = true.
Proof.
  induction l as [|s l IH]; simpl; [reflexivity|].
  rewrite declares_within_all, IH. reflexivity.
Qed.

Lemma forallb_all_branches ss :
  forallb (branch_declares_within (fun _ => true)) ss = true.
Proof.
  induction ss as [|[s|] ss IH]; simpl; rewrite ?declares_within_all; auto.
Qed.

(** X2. Whatever a run does, and whether it returns or raises, the
    function table is left as it was, what was written before is still
    there with only lines added after it, and the input left is an end
    part of the input there was. *)
Theorem run_keeps_table_and_output (fuel : nat) (stmts : list (option stmt)) (st st' : state) :
  final (run fuel stmts st) = Some st' -> only_adds st st'.
Proof.
  intros H.
  assert (Hall : run_ends (fun _ => true) st (run fuel stmts st)).
  { apply run_ends_all.
    - intros f body _. apply forallb_all_body.
    - apply forallb_all_branches. }
  unfold run_ends in Hall. rewrite H in Hall. exact (proj1 Hall).
Qed.

Lemma run_keeps_table_and_output_witness :
  only_adds (init ["a"] [Banner])
            (State {[ "x" := VStr "a" ]} (funcs (init [] [])) [] [Banner; Line "a"]).
Proof.
  apply (run_keeps_table_and_output 2
           [Some (VarDecl VAR "x" Input); Some (Print (VarRef "x"))]).
  vm_compute. reflexivity.
Defined.

(** X3. Only [VarDecl] writes the environment: a name that no [VarDecl]
    in the statements run, nor in a body of the function table, declares
    has after the run the value, or the absence of value, it had before,
    whether the run returns or raises. *)
Theorem run_writes_only_declared_names (ok : string -> bool) (fuel : nat)
    (stmts : list (option stmt)) (st st' : state) (x : string) :
  table_declares_within ok st ->
  forallb (branch_declares_within ok) stmts = true ->
  ok x = false ->
  final (run fuel stmts st) = Some st' ->
  vars st' !! x = vars st !! x.
Proof.
  intros Ht Hs Hx H.
  pose proof (run_ends_all ok fuel stmts st Ht Hs) as Hall.
  unfold run_ends in Hall. rewrite H in Hall. exact (proj2 Hall x Hx).
Qed.

Lemma run_writes_only_declared_names_witness :
  vars (State {[ "x" := VInt 2; "y" := VInt 1 ]} (funcs (init [] [])) [] [Line "hello function"])
    !! "y" = vars (State {[ "y" := VInt 1 ]} (funcs (init [] [])) [] []) !! "y".
Proof.
  apply (run_writes_only_declared_names (String.eqb "x") 4
           [Some (Block [VarDecl INT "x" (Num (VInt 2)); CallFunc "hello"])]).
  - intros f body H. unfold funcs, init in H.
    destruct (decide (f = "hello")) as [->|Hne].
    + rewrite lookup_singleton_eq in H. injection H as <-. reflexivity.
    + rewrite lookup_singleton_ne in H by congruence. discriminate.
  - reflexivity.
  - reflexivity.
  - vm_compute. reflexivity.
Defined.

(** ** Interpreter: how runs compose *)

(** The run of two lists in a row, budget by budget. *)
Lemma run_app_fuel l1 l2 : forall fuel st,
  run fuel (l1 ++ l2) st =
  match run fuel l1 st with
  | Ret _ st1 => run (fuel - length l1) l2 st1
  | Raise e st1 => Raise e st1
  | Timeout => Timeout
  end.
Proof.
  induction l1 as [|s l1 IH]; intros fuel st.
  - simpl. rewrite Nat.sub_0_r. destruct fuel; reflexivity.
  - destruct fuel as [|fuel]; [reflexivity|].
    cbn [app length Nat.sub run].
    destruct (match s with Some _ => _ | None => _ end) as [[] st1|e st1|];
      simpl; [apply IH | reflexivity | reflexivity].
Qed.

Lemma runs_mono fuel fuel' stmts st o :
  (fuel <= fuel')%nat -> run fuel stmts st = o -> o <> Timeout -> run fuel' stmts st = o.
Proof.
  intros Hle H N. rewrite <- H in N. rewrite (run_mono fuel fuel' _ _ Hle N). exact H.
Qed.

Lemma runs_app_ret l1 l2 st st1 o :
  runs l1 st (Ret tt st1) -> runs l2 st1 o -> runs (l1 ++ l2) st o.
Proof.
  intros [f1 [H1 N1]] [f2 [H2 N2]].
  exists (f1 + f2 + length l1)%nat. split; [|exact N2].
  rewrite run_app_fuel.
  rewrite (runs_mono f1 (f1 + f2 + length l1) _ _ _ ltac:(lia) H1 N1).
  apply (runs_mono f2); [lia | exact H2 | exact N2].
Qed.

Lemma runs_app_raise l1 l2 st e st1 :
  runs l1 st (Raise e st1) -> runs (l1 ++ l2) st (Raise e st1).
Proof.
  intros [f1 [H1 N1]]. exists f1. split; [|exact N1].
  rewrite run_app_fuel, H1. reflexivity.
Qed.

Lemma runs_app_inv l1 l2 st o :
  runs (l1 ++ l2) st o ->
  (exists st1, runs l1 st (Ret tt st1) /\ runs l2 st1 o) \/
  (exists e st1, o = Raise e st1 /\ runs l1 st (Raise e st1)).
Proof.
  intros [f [H N]]. rewrite run_app_fuel in H.
  destruct (run f l1 st) as [[] st1|e st1|] eqn:E.
  - left. exists st1. split; [exists f; split; [exact E | discriminate]|].
    exists (f - length l1)%nat. split; [exact H | exact N].
  - right. exists e, st1. split; [congruence|]. exists f. split; [exact E | discriminate].
  - congruence.
Qed.

(** X4. Statements run in order and an exception ends the run: a list of
    statements followed by another runs the first list and then, from the
    state it returned in, the second; when the first list raises, the
    second does not run and the outcome is that exception in the state
    reached. A run of the two lists ends in no other way. *)
Theorem run_in_sequence (l1 l2 : list (option stmt)) (st : state) :
  (forall st1 o, runs l1 st (Ret tt st1) -> runs l2 st1 o -> runs (l1 ++ l2) st o) /\
  (forall e st1, runs l1 st (Raise e st1) -> runs (l1 ++ l2) st (Raise e st1)) /\
  (forall o, runs (l1 ++ l2) st o ->
     (exists st1, runs l1 st (Ret tt st1) /\ runs l2 st1 o) \/
     (exists e st1, o = Raise e st1 /\ runs l1 st (Raise e st1))).
Proof.
  repeat apply conj.
  - intros st1 o. apply runs_app_ret.
  - intros e st1. apply runs_app_raise.
  - apply runs_app_inv.
Qed.

Lemma run_in_sequence_witness :
  runs ([Some (Print (Str "a"))] ++ [Some (Print (Str "b"))]) (init [] [])
       (Ret tt (init [] [Line "a"; Line "b"])) /\
  runs ([Some (Print (Str "a")); Some (Print Input)] ++ [Some (Print (Str "b"))]) (init [] [])
       (Raise EOFError (init [] [Line "a"])).
Proof.
  destruct (run_in_sequence [Some (Print (Str "a"))] [Some (Print (Str "b"))] (init [] []))
    as (Hret & _ & _).
  destruct (run_in_sequence [Some (Print (Str "a")); Some (Print Input)]
              [Some (Print (Str "b"))] (init [] [])) as (_ & Hraise & _).
  split.
  - apply (Hret (init [] [Line "a"])).
    + exists 1%nat. split; [reflexivity | discriminate].
    + exists 1%nat. split; [reflexivity | discriminate].
  - apply Hraise. exists 2%nat. split; [reflexivity | discriminate].
Defined.

Lemma runs_block ss st o :
  runs [Some (Block ss)] st o <-> runs (map Some ss) st o.
Proof.
  split.
  - intros Hr. apply runs_single_inv in Hr as [f [H N]].
    simpl in H. rewrite run_single_end in H.
    exists f. split; [|exact N].
    destruct (run f (map Some ss) st) as [[] ?| |]; congruence.
  - intros [f [H N]]. exists (S f). split; [|exact N].
    simpl. rewrite run_single_end, H. destruct o as [[] ?| |]; congruence.
Qed.

(** X5. A block opens no scope: running a block and then more statements
    is running the statements of the block and then the others, from the
    same state and with the same outcome; so a variable declared inside a
    block is there for what follows the block. *)
Theorem block_has_no_scope (ss : list stmt) (rest : list (option stmt))
    (st : state) (o : outcome unit) :
  runs (Some (Block ss) :: rest) st o <-> runs (map Some ss ++ rest) st o.
Proof.
  change (Some (Block ss) :: rest) with ([Some (Block ss)] ++ rest)%list.
  split; intros H.
  - destruct (runs_app_inv _ _ _ _ H) as [(st1 & H1 & H2) | (e & st1 & -> & H1)].
    + apply (runs_app_ret _ _ _ st1); [apply runs_block, H1 | exact H2].
    + apply runs_app_raise, runs_block, H1.
  - destruct (runs_app_inv _ _ _ _ H) as [(st1 & H1 & H2) | (e & st1 & -> & H1)].
    + apply (runs_app_ret _ _ _ st1); [apply runs_block, H1 | exact H2].
    + apply runs_app_raise, runs_block, H1.
Qed.

Lemma block_has_no_scope_witness :
  runs (Some (Block [VarDecl INT "x" (Num (VInt 1))]) :: [Some (Print (VarRef "x"))]) (init [] [])
       (Ret tt (State {[ "x" := VInt 1 ]} (funcs (init [] [])) [] [Line "1"])).
Proof.
  apply (proj2 (block_has_no_scope [VarDecl INT "x" (Num (VInt 1))]
                  [Some (Print (VarRef "x"))] (init [] []) _)).
  exists 2%nat. split; [vm_compute; reflexivity | discriminate].
Defined.

(** ** Interpreter: branches and loops *)

(** X6. [If] evaluates the condition once and takes one branch: the
    then-branch when the value is truthy; otherwise the else-branch when
    there is one, and nothing at all when there is none. The branch runs
    from the state the condition left and its outcome is the outcome of
    the statement. An exception of the condition is raised as it is. *)
Theorem if_takes_one_branch (c : node) (th el : option stmt) (st : state) :
  (forall v st1 o, eval c st = Ret v st1 -> truthy v = true ->
     (runs [Some (If c th el)] st o <-> runs [th] st1 o)) /\
  (forall v st1 s o, eval c st = Ret v st1 -> truthy v = false -> el = Some s ->
     (runs [Some (If c th el)] st o <-> runs [el] st1 o)) /\
  (forall v st1, eval c st = Ret v st1 -> truthy v = false -> el = None ->
     runs [Some (If c th el)] st (Ret tt st1)) /\
  (forall e st1, eval c st = Raise e st1 ->
     runs [Some (If c th el)] st (Raise e st1)).
Proof.
  repeat apply conj.
  - intros v st1 o E T. split.
    + intros Hr. apply runs_single_inv in Hr as [f [H N]].
      simpl in H. rewrite E in H. simpl in H. rewrite T, run_single_end in H.
      exists f. split; [|exact N]. destruct (run f [th] st1) as [[] ?| |]; congruence.
    + intros [f [H N]]. exists (S f). split; [|exact N].
      simpl. rewrite E. simpl. rewrite T, run_single_end, H.
      destruct o as [[] ?| |]; congruence.
  - intros v st1 s o E T ->. split.
    + intros Hr. apply runs_single_inv in Hr as [f [H N]].
      simpl in H. rewrite E in H. simpl in H. rewrite T, run_single_end in H.
      exists f. split; [|exact N]. destruct (run f [Some s] st1) as [[] ?| |]; congruence.
    + intros [f [H N]]. exists (S f). split; [|exact N].
      simpl. rewrite E. simpl. rewrite T, run_single_end, H.
      destruct o as [[] ?| |]; congruence.
  - intros v st1 E T ->. exists 1%nat. split; [|discriminate].
    simpl. rewrite E. simpl. rewrite T. reflexivity.
  - intros e st1 E. exists 1%nat. split; [|discriminate].
    simpl. rewrite E. reflexivity.
Qed.

Lemma if_takes_one_branch_witness :
  runs [Some (If (Bool false) (Some (Print (Str "a"))) (Some (Print (Str "b"))))]
       (init [] []) (Ret tt (init [] [Line "b"])) /\
  runs [Some (If (Str "") (Some (Print (Str "a"))) None)] (init [] []) (Ret tt (init [] [])).
Proof.
  destruct (if_takes_one_branch (Bool false) (Some (Print (Str "a")))
              (Some (Print (Str "b"))) (init [] [])) as (_ & Helse & _).
  destruct (if_takes_one_branch (Str "") (Some (Print (Str "a"))) None (init [] []))
    as (_ & _ & Hnone & _).
  split.
  - apply (Helse (VBool false) (init [] []) (Print (Str "b"))); try reflexivity.
    exists 1%nat. split; [reflexivity | discriminate].
  - apply (Hnone (VStr "")); reflexivity.
Defined.

(** One more turn of a loop whose condition is truthy. *)
Lemma runs_while_step c b st v st1 st2 o :
  eval c st = Ret v st1 -> truthy v = true ->
  runs [b] st1 (Ret tt st2) -> runs [Some (While c b)] st2 o ->
  runs [Some (While c b)] st o.
Proof.
  intros E T [f1 [H1 N1]] [f2 [H2 N2]].
  exists (S (f1 `max` f2)). split; [|exact N2].
  cbn [run]. rewrite E. cbn [obind]. rewrite T.
  rewrite (runs_mono f1 (f1 `max` f2) _ _ _ ltac:(lia) H1 N1). cbn [obind].
  rewrite (runs_mono f2 (f1 `max` f2) _ _ _ ltac:(lia) H2 N2).
  rewrite run_single_end. destruct o as [[] ?| |]; congruence.
Qed.

Lemma runs_while_end c b st v st1 :
  eval c st = Ret v st1 -> truthy v = false ->
  runs [Some (While c b)] st (Ret tt st1).
Proof.
  intros E T. exists 1%nat. split; [|discriminate].
  simpl. rewrite E. simpl. rewrite T. reflexivity.
Qed.

(** X7. A loop with an invariant and a measure ends: when, in every state
    of the invariant, the condition evaluates and, if its value is truthy,
    the body returns in a state of the invariant with a smaller measure,
    then [While] returns from every state of the invariant, in a state of
    the invariant reached by an evaluation of the condition whose value
    is falsy. *)
Theorem while_with_measure_ends (c : node) (b : option stmt)
    (inv : state -> Prop) (measure : state -> nat) :
  (forall st, inv st -> exists v st1, eval c st = Ret v st1 /\
     (truthy v = false -> inv st1) /\
     (truthy v = true -> exists st2, runs [b] st1 (Ret tt st2) /\ inv st2 /\
                                     (measure st2 < measure st)%nat)) ->
  forall st, inv st ->
  exists st0 v st', inv st0 /\ eval c st0 = Ret v st' /\ truthy v = false /\ inv st' /\
                    runs [Some (While c b)] st (Ret tt st').
Proof.
  intros Hstep st. remember (measure st) as n eqn:En. revert st En.
  induction n as [n IH] using lt_wf_ind. intros st En Hinv.
  destruct (Hstep st Hinv) as (v & st1 & E & Hfalse & Htrue).
  destruct (truthy v) eqn:T.
  - destruct (Htrue eq_refl) as (st2 & Hb & Hinv2 & Hlt).
    destruct (IH (measure st2) ltac:(lia) st2 eq_refl Hinv2)
      as (st0 & v' & st' & H0 & E' & T' & Hinv' & Hrun).
    exists st0, v', st'. repeat split; try assumption.
    exact (runs_while_step c b st v st1 st2 _ E T Hb Hrun).
  - exists st, v, st1. repeat split; try assumption; auto.
    exact (runs_while_end c b st v st1 E T).
Qed.

Lemma while_with_measure_ends_witness :
  exists st', runs [Some (count_up 2)] (counter 0) (Ret tt st') /\
              vars st' !! "x" = Some (VInt 2).
Proof.
  destruct (while_with_measure_ends
              (Bin Op.LT (VarRef "x") (Num (VInt 2)))
              (Some (Block [VarDecl INT "x" (Bin Op.PL (VarRef "x") (Num (VInt 1)))]))
              (fun st => st = counter 0 \/ st = counter 1 \/ st = counter 2)
              (fun st => match vars st !! "x" with
                         | Some (VInt k) => Z.to_nat (2 - k)
                         | _ => O
                         end))
    with (st := counter 0) as (st0 & v & st' & H0 & E & T & Hinv & Hrun).
  - intros st [-> | [-> | ->]].
    + exists (VBool true), (counter 0). repeat split; [discriminate|].
      intros _. exists (counter 1). repeat split.
      * exists 3%nat. split; [vm_compute; reflexivity | discriminate].
      * auto.
      * vm_compute. lia.
    + exists (VBool true), (counter 1). repeat split; [discriminate|].
      intros _. exists (counter 2). repeat split.
      * exists 3%nat. split; [vm_compute; reflexivity | discriminate].
      * auto.
      * vm_compute. lia.
    + exists (VBool false), (counter 2). repeat split; [auto | discriminate].
  - auto.
  - exists st'. split; [exact Hrun|].
    destruct H0 as [-> | [-> | ->]]; vm_compute in E; injection E as <- <-;
      try discriminate T.
    reflexivity.
Defined.

(** X8. A loop whose condition has a truthy value in every state, as the
    literal [true], and whose body never raises, never ends: whatever the
    budget of steps, [While] has neither returned nor raised when the
    budget is used up. *)
Theorem while_true_never_ends (c : node) (b : option stmt) :
  (forall st, exists v, eval c st = Ret v st /\ truthy v = true) ->
  (forall fuel st e st', run fuel [b] st <> Raise e st') ->
  forall fuel st, run fuel [Some (While c b)] st = Timeout.
Proof.
  intros Hc Hb. induction fuel as [|fuel IH]; intros st; [reflexivity|].
  cbn [run]. destruct (Hc st) as (v & -> & T). cbn [obind]. rewrite T.
  destruct (run fuel [b] st) as [[] st1|e st1|] eqn:E; cbn [obind].
  - rewrite IH. reflexivity.
  - exfalso. exact (Hb _ _ _ _ E).
  - reflexivity.
Qed.

Lemma while_true_never_ends_witness :
  run 1000 [Some (While (Bool true) (Some (Print (Str "again"))))] (init [] []) = Timeout.
Proof.
  apply while_true_never_ends.
  - intros st0. exists (VBool true). split; reflexivity.
  - intros [|[|fuel]] st0 e st'; discriminate.
Defined.

(** ** Interpreter: division *)

(** X9. [np] is the true division of the host: when an [np] expression
    returns, its value is a [float], also for two integers that divide
    exactly. *)
Theorem np_returns_a_float (l r : node) (st st' : state) (v : value) :
  eval (Bin Op.NP l r) st = Ret v st' -> exists f, v = VFloat f.
Proof.
  cbn [eval]. unfold both.
  destruct (eval l st) as [a st1| |]; cbn [obind]; try discriminate.
  destruct (eval r st1) as [b st2| |]; cbn [obind]; try discriminate.
  unfold py_truediv.
  destruct (as_num a) as [[x|x]|], (as_num b) as [[y|y]|]; cbn;
    try discriminate.
  - unfold Z_truediv. destruct (y =? 0); cbn; [discriminate|].
    destruct (fdiv (exact_Z x) (exact_Z y)); cbn; intros H; inversion H; eauto.
  - destruct (float_of_Z x); cbn; [|discriminate].
    destruct (is_zero y); cbn; intros H; inversion H; eauto.
  - destruct (float_of_Z y); cbn; [|discriminate].
    destruct (is_zero a0); cbn; intros H; inversion H; eauto.
  - destruct (is_zero y); cbn; intros H; inversion H; eauto.
Qed.

Lemma np_returns_a_float_witness :
  exists f, VFloat (S754_finite false 4503599627370496 (-51)) = VFloat f.
Proof.
  apply (np_returns_a_float (Num (VInt 6)) (Num (VInt 3)) (init [] []) (init [] [])).
  vm_compute. reflexivity.
Defined.

(** X10. Dividing by zero raises: when the right operand of [np] is a
    number equal to zero ([0], [False], [0.0] or [-0.0]) and the left one
    a number that [float()] can convert, the expression raises
    [ZeroDivisionError] in the state the operands left. *)
Theorem np_by_zero_raises (l r : node) (st st1 st2 : state) (a b : value) :
  eval l st = Ret a st1 -> eval r st1 = Ret b st2 ->
  fits_float a = true -> is_zero_number b = true ->
  eval (Bin Op.NP l r) st = Raise ZeroDivisionError st2.
Proof.
  intros El Er Ha Hb. cbn [eval]. unfold both. rewrite El. cbn [obind].
  rewrite Er. cbn [obind]. unfold py_truediv, fits_float in *.
  destruct a as [x|x|x|x]; cbn in Ha; try discriminate;
    destruct b as [y|y|y|y]; cbn in Hb; try discriminate; cbn.
  all: try (apply negb_true_iff, negb_false_iff in Hb).
  all: try (apply Z.eqb_eq in Hb; subst y).
  all: try (apply negb_true_iff in Hb; subst y).
  all: try reflexivity.
  all: try (destruct (float_of_Z _); [|discriminate]; cbn; rewrite ?Hb; reflexivity).
  all: try (rewrite Hb; reflexivity).
Qed.

Lemma np_by_zero_raises_witness :
  eval (Bin Op.NP (Num (VInt 1)) (VarRef "n")) (init [] []) =
  Raise ZeroDivisionError (init [] []).
Proof.
  apply (np_by_zero_raises _ _ (init [] []) (init [] []) (init [] []) (VInt 1) (VInt 0));
    reflexivity.
Defined.

(** ** Parser: the end of the tokens *)

Lemma parse_loop_ends fuel : forall stmts ts tree rest,
  parse_loop fuel stmts ts = Parsed tree rest -> rest = [].
Proof.
  induction fuel as [|fuel IH]; intros stmts ts tree rest H; [discriminate|].
  cbn [parse_loop] in H. destruct ts as [|tok ts]; [congruence|].
  destruct (statement fuel (tok :: ts)) as [st ts'| |]; cbn [pbind] in H;
    try discriminate.
  exact (IH _ _ _ _ H).
Qed.

Lemma parse_loop_step fuel stmts tok ts :
  parse_loop (S fuel) stmts (tok :: ts) =
  pbind (statement fuel (tok :: ts)) (fun st ts' =>
    parse_loop fuel (match st with Some x => stmts ++ [x] | None => stmts end) ts').
Proof. reflexivity. Qed.

(** X11. [parse] ends on every token sequence, and when it returns it has
    read every token: it returns a tree with no token left, or it raises
    [RuntimeError] or [AttributeError]. Its loop cannot go on for ever,
    since [statement] passes at least one token each time. *)
Theorem parse_reads_every_token (ts : list Token) :
  (exists tree, parse ts = Parsed tree []) \/ (exists e, parse ts = Failed e).
Proof.
  pose proof (parse_total ts) as Ht.
  destruct (parse ts) as [tree rest|e|] eqn:E; [left | right; eauto | congruence].
  unfold parse in E. pose proof (parse_loop_ends _ _ _ _ _ E) as ->.
  exists tree. reflexivity.
Qed.

(** X12. An [if] whose branch is missing, or is a token that starts no
    statement and opens no block, is accepted by the parser with an empty
    branch; running it raises [TypeError] as soon as the condition is
    truthy, after the condition is evaluated. *)
Theorem if_without_branch_raises (v : string) (ts rest : list Token) (c : node) :
  expr ts = Parsed c rest ->
  (length rest <= 1)%nat -> forallb is_stray rest = true ->
  parse (Tok IF v :: ts) = Parsed [If c None None] [] /\
  forall st val st1, eval c st = Ret val st1 -> truthy val = true ->
    runs [Some (If c None None)] st (Raise TypeError st1).
Proof.
  intros He Hlen Hstray. split.
  - assert (Hst : forall f, statement (S (S (S f))) (Tok IF v :: ts) =
                         Parsed (Some (If c None None)) []).
    { intros f. cbn [statement type]. unfold if_stmt. cbn [eat type].
      destruct (decide (IF = IF)) as [_|]; [|congruence]. cbn [pbind].
      rewrite He. cbn [pbind].
      destruct rest as [|tok [|tok' rest]]; [| |simpl in Hlen; lia].
      - reflexivity.
      - simpl in Hstray. rewrite andb_true_r in Hstray.
        unfold is_stray in Hstray. apply andb_true_iff in Hstray as [Hs Hb].
        apply negb_true_iff in Hs, Hb. apply bool_decide_eq_false in Hb.
        destruct tok as [n|k x]; [reflexivity|].
        simpl in Hs, Hb. destruct k; try discriminate Hs; try congruence; reflexivity. }
    unfold parse.
    replace (2 * length (Tok IF v :: ts) + 2)%nat
      with (S (S (S (S (2 * length ts))))) by (simpl; lia).
    rewrite parse_loop_step, Hst. reflexivity.
  - intros st val st1 E T. exists 2%nat. split; [|discriminate].
    cbn [run]. rewrite E. cbn [obind]. rewrite T. reflexivity.
Qed.

Lemma if_without_branch_raises_witness :
  parse [Tok IF "if"; Tok TRUE "true"; NumTok (NInt 5)] =
    Parsed [If (Bool true) None None] [] /\
  forall st val st1, eval (Bool true) st = Ret val st1 -> truthy val = true ->
    runs [Some (If (Bool true) None None)] st (Raise TypeError st1).
Proof.
  apply (if_without_branch_raises "if" [Tok TRUE "true"; NumTok (NInt 5)] [NumTok (NInt 5)]);
    [reflexivity | simpl; lia | reflexivity].
Defined.

(** ** Parser: the tokens left are tokens of the input *)

Section Within.
Variable P : Token -> Prop.

Lemma within_bind {A B} (m : presult A) (f : A -> list Token -> presult B) :
  within P m -> (forall a rest, Forall P rest -> within P (f a rest)) ->
  within P (pbind m f).
Proof.
  intros Hm Hf. destruct m as [a rest| |]; cbn [pbind]; [|exact I|exact I].
  apply Hf, Hm.
Qed.

Lemma within_eat k ts : Forall P ts -> within P (eat k ts).
Proof.
  intros H. destruct ts as [|t ts]; cbn [eat]; [exact I|].
  destruct (decide (type t = k)); [|exact I]. exact (Forall_inv_tail H).
Qed.

Lemma within_eat_ident ts : Forall P ts -> within P (eat_ident ts).
Proof.
  intros H. destruct ts as [|[n|k v] ts]; cbn [eat_ident]; try exact I.
  destruct k; try exact I. exact (Forall_inv_tail H).
Qed.

Lemma within_factor ts : Forall P ts -> within P (factor ts).
Proof.
  induction ts as [|[n|k v] ts IH]; intros H; cbn [factor]; [exact I | |].
  - exact (Forall_inv_tail H).
  - pose proof (Forall_inv_tail H) as Ht.
    destruct k; try exact I; try exact Ht.
    apply within_bind; [exact (IH Ht)|]. intros e rest Hr. exact Hr.
Qed.

Lemma within_expr_loop fuel : forall n ts,
  Forall P ts -> within P (expr_loop fuel n ts).
Proof.
  induction fuel as [|fuel IH]; intros n ts H.
  - destruct ts as [|t ts]; cbn [expr_loop]; [exact H|].
    destruct (binop_of_kind (type t)); [exact I | exact H].
  - destruct ts as [|t ts]; cbn [expr_loop]; [exact H|].
    destruct (binop_of_kind (type t)); [|exact H].
    apply within_bind; [apply within_factor; exact (Forall_inv_tail H)|].
    intros r rest Hr. apply IH, Hr.
Qed.

Lemma within_expr ts : Forall P ts -> within P (expr ts).
Proof.
  intros H. unfold expr. apply within_bind; [apply within_factor, H|].
  intros n rest Hr. apply within_expr_loop, Hr.
Qed.

Lemma within_set_stmt ts : Forall P ts -> within P (set_stmt ts).
Proof.
  intros H. unfold set_stmt.
  apply within_bind; [apply within_eat, H|]. intros _ ts1 H1.
  apply within_bind; [apply within_expr, H1|]. intros e ts2 H2. exact H2.
Qed.

Lemma within_var_decl ts : Forall P ts -> within P (var_decl ts).
Proof.
  intros H. unfold var_decl.
  apply within_bind; [apply within_eat, H|]. intros _ ts1 H1.
  destruct ts1 as [|tok ts1']; [exact I|].
  apply within_bind; [apply within_eat, H1|]. intros t ts2 H2.
  apply within_bind; [apply within_eat_ident, H2|]. intros x ts3 H3.
  apply within_bind; [apply within_eat, H3|]. intros _ ts4 H4.
  apply within_bind; [apply within_expr, H4|]. intros e ts5 H5. exact H5.
Qed.

Lemma within_fce_stmt ts : Forall P ts -> within P (fce_stmt ts).
Proof.
  intros H. unfold fce_stmt.
  apply within_bind; [apply within_eat, H|]. intros _ ts1 H1.
  apply within_bind; [apply within_eat_ident, H1|]. intros x ts2 H2. exact H2.
Qed.

Section WithinStatements.
Variable bos : list Token -> presult (option stmt).
Hypothesis within_bos : forall ts, Forall P ts -> within P (bos ts).

Lemma within_if_stmt ts : Forall P ts -> within P (if_stmt bos ts).
Proof.
  intros H. unfold if_stmt.
  apply within_bind; [apply within_eat, H|]. intros _ ts1 H1.
  apply within_bind; [apply within_expr, H1|]. intros c ts2 H2.
  apply within_bind; [apply within_bos, H2|]. intros th ts3 H3.
  destruct ts3 as [|[m|k v] ts3']; try exact H3.
  destruct k; try exact H3.
  apply within_bind; [apply within_eat, H3|]. intros _ ts4 H4.
  apply within_bind; [apply within_bos, H4|]. intros el ts5 H5. exact H5.
Qed.

Lemma within_wset_stmt ts : Forall P ts -> within P (wset_stmt bos ts).
Proof.
  intros H. unfold wset_stmt.
  apply within_bind; [apply within_eat, H|]. intros _ ts1 H1.
  apply within_bind; [apply within_expr, H1|]. intros c ts2 H2.
  apply within_bind; [apply within_bos, H2|]. intros b ts3 H3. exact H3.
Qed.

Lemma within_try_stmt ts : Forall P ts -> within P (try_stmt bos ts).
Proof.
  intros H. unfold try_stmt.
  apply within_bind; [apply within_eat, H|]. intros _ ts1 H1.
  apply within_bind; [apply within_bos, H1|]. intros t ts2 H2.
  apply within_bind; [apply within_eat, H2|]. intros _ ts3 H3.
  apply within_bind; [apply within_bos, H3|]. intros c ts4 H4. exact H4.
Qed.
End WithinStatements.

Lemma within_statements fuel :
  (forall ts, Forall P ts -> within P (statement fuel ts)) /\
  (forall ts, Forall P ts -> within P (block_or_stmt fuel ts)) /\
  (forall s ts, Forall P ts -> within P (block_loop fuel s ts)).
Proof.
  induction fuel as [|fuel (IHs & IHb & IHl)]; [repeat split; intros; exact I|].
  repeat split.
  - intros ts H. cbn [statement]. destruct ts as [|tok rest]; [exact H|].
    pose proof (Forall_inv_tail H) as Hrest.
    destruct (type tok); try exact Hrest.
    + apply within_var_decl, H.
    + apply within_set_stmt, H.
    + apply within_if_stmt; [exact IHb | exact H].
    + apply within_wset_stmt; [exact IHb | exact H].
    + apply within_fce_stmt, H.
    + apply within_try_stmt; [exact IHb | exact H].
  - intros ts H. cbn [block_or_stmt].
    pose proof (IHs ts H) as Hst.
    destruct ts as [|[m|k v] rest]; try exact Hst.
    destruct k; try exact Hst.
    apply within_bind; [apply within_eat, H|]. intros _ ts1 H1.
    apply within_bind; [apply IHl, H1|]. intros s ts2 H2.
    apply within_bind; [apply within_eat, H2|]. intros _ ts3 H3. exact H3.
  - intros s ts H. cbn [block_loop].
    assert (Hgo : within P (pbind (statement fuel ts) (fun st ts' =>
                    block_loop fuel (match st with Some x => s ++ [x] | None => s end) ts'))).
    { apply within_bind; [apply IHs, H|]. intros st ts' H'. apply IHl, H'. }
    destruct ts as [|[m|k v] rest]; [exact H | exact Hgo |].
    destruct k; try exact Hgo. exact H.
Qed.
End Within.

(** [eat] raises when no token of the type is there to be read. *)
Lemma eat_missing (k : kind) (ts : list Token) :
  Forall (fun t => type t <> k) ts -> eat k ts = Failed parser_desync.
Proof.
  intros H. destruct ts as [|t ts]; [reflexivity|]. cbn [eat].
  destruct (decide (type t = k)) as [E|]; [|reflexivity].
  exfalso. exact (Forall_inv H E).
Qed.

Lemma eat_head (k : kind) (t : Token) (ts : list Token) :
  type t = k -> eat k (t :: ts) = Parsed t ts.
Proof. intros H. cbn [eat]. destruct (decide (type t = k)); [reflexivity | congruence]. Qed.

Lemma statement_try fuel v ts :
  statement (S fuel) (Tok TRY v :: ts) = try_stmt (block_or_stmt fuel) (Tok TRY v :: ts).
Proof. reflexivity. Qed.

Lemma block_or_stmt_brace fuel v ts :
  block_or_stmt (S fuel) (Tok LBRACE v :: ts) =
  pbind (eat LBRACE (Tok LBRACE v :: ts)) (fun _ ts1 =>
    pbind (block_loop fuel [] ts1) (fun s ts2 =>
      pbind (eat RBRACE ts2) (fun _ ts3 => Parsed (Some (Block s)) ts3))).
Proof. reflexivity. Qed.

(** [parse] raises when its first statement cannot be parsed. *)
Lemma parse_fails_at_first tok ts :
  (forall fuel s rest, statement fuel (tok :: ts) <> Parsed s rest) ->
  exists e, parse (tok :: ts) = Failed e.
Proof.
  intros H. pose proof (parse_total (tok :: ts)) as Ht.
  destruct (parse (tok :: ts)) as [tree rest|e|] eqn:E; [exfalso | eauto | congruence].
  unfold parse in E.
  destruct (2 * length (tok :: ts) + 2)%nat as [|f]; [discriminate E|].
  rewrite parse_loop_step in E.
  destruct (statement f (tok :: ts)) as [s r| |] eqn:Es; cbn [pbind] in E;
    try discriminate E.
  exact (H _ _ _ Es).
Qed.

(** X13. [try] needs its [catch], and a block its closing brace: when no
    CATCH token follows a [try], or no RBRACE token follows the brace that
    opens its block, [parse] raises, whatever the tokens in between. *)
Theorem try_needs_catch_and_brace (v : string) (ts : list Token) :
  (Forall (fun t => type t <> CATCH) ts ->
     exists e, parse (Tok TRY v :: ts) = Failed e) /\
  (forall v', Forall (fun t => type t <> RBRACE) ts ->
     exists e, parse (Tok TRY v :: Tok LBRACE v' :: ts) = Failed e).
Proof.
  split.
  - intros H. apply parse_fails_at_first. intros [|fuel] s r; [discriminate|].
    rewrite statement_try. unfold try_stmt.
    rewrite (eat_head TRY (Tok TRY v) ts eq_refl). cbn [pbind].
    pose proof (proj1 (proj2 (within_statements _ fuel)) ts H) as Hw.
    destruct (block_or_stmt fuel ts) as [t ts2| |]; cbn [pbind]; try discriminate.
    cbn [within] in Hw. rewrite (eat_missing CATCH ts2 Hw). discriminate.
  - intros v' H. apply parse_fails_at_first. intros [|fuel] s r; [discriminate|].
    rewrite statement_try. unfold try_stmt.
    rewrite (eat_head TRY (Tok TRY v) (Tok LBRACE v' :: ts) eq_refl). cbn [pbind].
    destruct fuel as [|fuel]; [discriminate|].
    rewrite block_or_stmt_brace, (eat_head LBRACE (Tok LBRACE v') ts eq_refl). cbn [pbind].
    pose proof (proj2 (proj2 (within_statements _ fuel)) [] ts H) as Hw.
    destruct (block_loop fuel [] ts) as [b ts2| |]; cbn [pbind]; try discriminate.
    cbn [within] in Hw. rewrite (eat_missing RBRACE ts2 Hw). discriminate.
Qed.

Lemma try_needs_catch_and_brace_witness :
  (exists e, parse [Tok TRY "try"; Tok SET "set"; NumTok (NInt 1)] = Failed e) /\
  (exists e, parse [Tok TRY "try"; Tok LBRACE "{"; Tok SET "set"; NumTok (NInt 1)] = Failed e).
Proof.
  destruct (try_needs_catch_and_brace "try" [Tok SET "set"; NumTok (NInt 1)]) as [Hc Hb].
  split.
  - apply Hc. repeat constructor; discriminate.
  - apply (Hb "{"). repeat constructor; discriminate.
Defined.

(** ** Lexer: lines and comments *)

Lemma matches_from_end cur : matches_from cur "" = line_matches cur.
Proof.
  unfold matches_from. simpl.
  destruct (String.eqb_spec cur ""); [subst; reflexivity | simpl; apply app_nil_r].
Qed.

Lemma matches_from_break c s cur :
  is_linebreak c = true ->
  matches_from cur (String c s) = (line_matches cur ++ matches_from "" (after_break c s))%list.
Proof.
  intros H. unfold matches_from. cbn [splitlines_from]. rewrite H.
  destruct s as [|c' s']; [reflexivity|]. simpl.
  destruct ((code c =? 13) && (code c' =? 10)); reflexivity.
Qed.

Lemma matches_from_char c s cur :
  is_linebreak c = false ->
  matches_from cur (String c s) = matches_from (cur ++ String c "") s.
Proof. intros H. unfold matches_from. cbn [splitlines_from]. rewrite H. reflexivity. Qed.

(** A line feed at the start of a text adds no match. *)
Lemma matches_from_feed c s :
  (code c =? 10) = true -> matches_from "" (String c s) = matches_from "" s.
Proof.
  intros H. rewrite matches_from_break.
  - simpl. destruct s as [|c' s']; [reflexivity|]. simpl.
    apply Z.eqb_eq in H. rewrite H. reflexivity.
  - unfold is_linebreak, in_range. apply Z.eqb_eq in H. rewrite H. reflexivity.
Qed.

(** The matches of a text with a line end in it: those of what is before
    it, then those of what is after it. *)
Lemma matches_from_lines n : forall a cur c b,
  (String.length a <= n)%nat -> is_linebreak c = true ->
  matches_from cur (a ++ String c b) = (matches_from cur a ++ matches_from "" b)%list.
Proof.
  induction n as [|n IH]; intros a cur c b Hn Hc.
  - destruct a; [|simpl in Hn; lia]. cbn [String.append].
    rewrite matches_from_break, matches_from_end by exact Hc. f_equal.
    destruct b as [|c' b']; [reflexivity|]. cbn [after_break].
    destruct ((code c =? 13) && (code c' =? 10)) eqn:E; [|reflexivity].
    apply andb_true_iff in E as [_ E]. symmetry. apply matches_from_feed, E.
  - destruct a as [|x a].
    { apply (IH "" cur c b); [simpl; lia | exact Hc]. }
    simpl in Hn. cbn [String.append].
    destruct (is_linebreak x) eqn:Ex.
    + rewrite !matches_from_break by exact Ex. rewrite <- app_assoc. f_equal.
      destruct a as [|c' a'].
      * cbn [String.append after_break].
        destruct ((code x =? 13) && (code c =? 10)) eqn:E.
        -- rewrite matches_from_end. reflexivity.
        -- apply (IH "" "" c b); [simpl; lia | exact Hc].
      * cbn [String.append after_break].
        destruct ((code x =? 13) && (code c' =? 10)).
        -- apply IH; [simpl in Hn; lia | exact Hc].
        -- apply (IH (String c' a')); [lia | exact Hc].
    + rewrite !matches_from_char by exact Ex. apply IH; [lia | exact Hc].
Qed.

Lemma tokens_of_app a b ta tb :
  tokens_of a = Ok ta -> tokens_of b = Ok tb -> tokens_of (a ++ b) = Ok (ta ++ tb)%list.
Proof.
  revert ta. induction a as [|[k v] a IH]; intros ta Ha Hb.
  - injection Ha as <-. exact Hb.
  - cbn [tokens_of app] in *.
    destruct (token_of k v) as [t|]; cbn in *; [|discriminate].
    destruct (tokens_of a) as [ta'|]; cbn in *; [|discriminate].
    injection Ha as <-. rewrite (IH ta' eq_refl Hb). cbn.
    destruct t; reflexivity.
Qed.

(** X14. Lines are lexed apart: the tokens of a text with a line end in
    it are the tokens of what is before the line end, then the tokens of
    what is after it. No token spans two lines, whichever of the host's
    line ends it is. *)
Theorem lines_are_lexed_apart (a b : string) (c : ascii) (ta tb : list Token) :
  is_linebreak c = true -> tokenize a = Ok ta -> tokenize b = Ok tb ->
  tokenize (a ++ String c b) = Ok (ta ++ tb)%list.
Proof.
  intros Hc Ha Hb.
  change (tokens_of (matches_from "" (a ++ String c b)) = Ok (ta ++ tb)%list).
  rewrite (matches_from_lines _ a "" c b (le_n _) Hc).
  apply tokens_of_app; assumption.
Qed.

Lemma lines_are_lexed_apart_witness :
  tokenize ("set x" ++ String (ascii_of_nat 13) "fce hello") =
  Ok ([Tok SET "set"; Tok IDENT "x"] ++ [Tok FCE "fce"; Tok IDENT "hello"])%list.
Proof. apply lines_are_lexed_apart; reflexivity. Defined.

Lemma before_hash_comment a c : before_hash (a ++ "#" ++ c) = before_hash a.
Proof.
  induction a as [|x a IH]; [reflexivity|]. cbn [String.append before_hash].
  destruct (Ascii.eqb x "#"); [reflexivity | rewrite <- IH; reflexivity].
Qed.

(** A text without line end is one line, read after [cur]. *)
Lemma matches_from_line w : forall cur s,
  one_line w = true -> matches_from cur (w ++ s) = matches_from (cur ++ w) s.
Proof.
  induction w as [|c w IH]; intros cur s H.
  - rewrite append_empty. reflexivity.
  - unfold one_line in H. cbn [all_in] in H. apply andb_true_iff in H as [Hc Hw].
    apply negb_true_iff in Hc. cbn [String.append].
    rewrite matches_from_char by exact Hc. rewrite (IH _ _ Hw), append_assoc.
    reflexivity.
Qed.

Lemma matches_from_comment n : forall l cur c,
  (String.length l <= n)%nat -> one_line c = true ->
  matches_from cur (l ++ "#" ++ c) = matches_from cur l.
Proof.
  assert (Hbase : forall cur c, one_line c = true ->
            matches_from cur ("#" ++ c) = matches_from cur "").
  { intros cur c Hc.
    rewrite <- (append_empty ("#" ++ c)), matches_from_line by exact Hc.
    rewrite !matches_from_end. unfold line_matches.
    rewrite before_hash_comment. reflexivity. }
  induction n as [|n IH]; intros l cur c Hn Hc.
  - destruct l; [|simpl in Hn; lia]. apply Hbase, Hc.
  - destruct l as [|x l]; [apply Hbase, Hc|].
    simpl in Hn. cbn [String.append].
    destruct (is_linebreak x) eqn:Ex.
    + rewrite !matches_from_break by exact Ex. f_equal.
      destruct l as [|c' l'].
      * cbn [String.append after_break].
        replace ((code x =? 13) && (code "#" =? 10)) with false
          by (rewrite andb_false_r; reflexivity).
        apply (Hbase "" c Hc).
      * cbn [String.append after_break].
        destruct ((code x =? 13) && (code c' =? 10)).
        -- apply IH; [simpl in Hn; lia | exact Hc].
        -- apply (IH (String c' l')); [lia | exact Hc].
    + rewrite !matches_from_char by exact Ex. apply IH; [lia | exact Hc].
Qed.

(** X15. A comment is dropped: from a [#] to the end of its line nothing
    is lexed, whatever the text before it, also inside a string literal.
    The tokens are those of the text without the comment; the lines that
    follow are lexed as they are. *)
Theorem comment_is_dropped (l c : string) :
  one_line c = true ->
  tokenize (l ++ "#" ++ c) = tokenize l /\
  forall x b, is_linebreak x = true ->
    tokenize ((l ++ "#" ++ c) ++ String x b) = tokenize (l ++ String x b).
Proof.
  intros Hc. split.
  - change (tokens_of (matches_from "" (l ++ "#" ++ c)) = tokens_of (matches_from "" l)).
    rewrite (matches_from_comment _ l "" c (le_n _) Hc). reflexivity.
  - intros x b Hx.
    change (tokens_of (matches_from "" ((l ++ "#" ++ c) ++ String x b)) =
            tokens_of (matches_from "" (l ++ String x b))).
    rewrite (matches_from_lines _ (l ++ "#" ++ c) "" x b (le_n _) Hx).
    rewrite (matches_from_lines _ l "" x b (le_n _) Hx).
    rewrite (matches_from_comment _ l "" c (le_n _) Hc). reflexivity.
Qed.

Lemma comment_is_dropped_witness :
  tokenize ("set 1" ++ "#" ++ " set 2") = tokenize "set 1" /\
  forall x b, is_linebreak x = true ->
    tokenize (("set 1" ++ "#" ++ " set 2") ++ String x b) = tokenize ("set 1" ++ String x b).
Proof. apply comment_is_dropped. reflexivity. Defined.

(** ** Lexer: the first lexeme of a text *)

(** The start of the first line is passed on to the matches of that line
    only; [l] is the rest of that line. *)
Lemma matches_from_first_line s : forall cur,
  exists l tail, (exists r, s = l ++ r) /\ forall w,
    matches_from (w ++ cur) s = (line_matches (w ++ cur ++ l) ++ tail)%list.
Proof.
  induction s as [|c s IH]; intros cur.
  - exists "", []. split; [exists ""; reflexivity|]. intros w.
    rewrite matches_from_end, append_empty, app_nil_r. reflexivity.
  - destruct (is_linebreak c) eqn:Ec.
    + exists "", (matches_from "" (after_break c s)).
      split; [exists (String c s); reflexivity|]. intros w.
      rewrite matches_from_break by exact Ec. rewrite append_empty. reflexivity.
    + destruct (IH (cur ++ String c "")) as (l & tail & [r Hr] & H).
      exists (String c l), tail.
      split; [exists r; rewrite Hr; reflexivity|]. intros w.
      rewrite matches_from_char by exact Ec.
      rewrite append_assoc, H, append_assoc. reflexivity.
Qed.

(** A start of the first line that adds the matches [X] to every line
    [l] that can follow it adds them to the text. *)
Lemma matches_from_prefix_if (ok : string -> bool) w X :
  one_line w = true ->
  (forall a b, ok (a ++ b) = true -> ok a = true) ->
  (forall l, ok l = true -> line_matches (w ++ l) = (X ++ line_matches l)%list) ->
  forall s, ok s = true -> matches_from "" (w ++ s) = (X ++ matches_from "" s)%list.
Proof.
  intros Hw Hok HX s Hs. rewrite matches_from_line by exact Hw.
  destruct (matches_from_first_line s "") as (l & tail & [r Hr] & H).
  pose proof (H w) as H1. pose proof (H "") as H2.
  cbn [String.append] in H1, H2. rewrite append_empty in H1.
  rewrite H2. cbn [String.append]. rewrite H1, HX, app_assoc; [reflexivity|].
  apply (Hok l r). rewrite <- Hr. exact Hs.
Qed.

Lemma matches_from_prefix w X :
  one_line w = true ->
  (forall l, line_matches (w ++ l) = (X ++ line_matches l)%list) ->
  forall s, matches_from "" (w ++ s) = (X ++ matches_from "" s)%list.
Proof.
  intros Hw HX s.
  apply (matches_from_prefix_if (fun _ => true) w X Hw); auto.
Qed.

Lemma finditer_skip spec v : forall y,
  finditer spec (String.length v) (v ++ y) = finditer spec 0 y.
Proof.
  induction v as [|c v IH]; intros y; [reflexivity|].
  cbn [String.append String.length finditer]. apply IH.
Qed.

(** A match at the start of a line is the first match of the line, and
    the scan goes on after it. *)
Lemma finditer_match spec v y k :
  v <> "" -> match_at spec (v ++ y) = Some (k, v) ->
  finditer spec 0 (v ++ y) = (k, v) :: finditer spec 0 y.
Proof.
  intros Hv Hm. destruct v as [|c v]; [congruence|].
  cbn [String.append finditer]. cbn [String.append] in Hm. rewrite Hm. f_equal.
  cbn [String.length]. rewrite Nat.sub_succ, Nat.sub_0_r. apply finditer_skip.
Qed.

Lemma before_hash_plain v l : plain v = true -> before_hash (v ++ l) = v ++ before_hash l.
Proof.
  induction v as [|c v IH]; intros H; [reflexivity|].
  unfold plain in H. cbn [all_in] in H. apply andb_true_iff in H as [Hc Hv].
  apply andb_true_iff in Hc as [_ Hc]. apply negb_true_iff in Hc.
  cbn [String.append before_hash]. rewrite Hc, (IH Hv). reflexivity.
Qed.

Lemma plain_one_line v : plain v = true -> one_line v = true.
Proof.
  apply all_in_impl. intros c H. apply andb_true_iff in H as [H _]. exact H.
Qed.

(** The first lexeme of a text makes its first token. *)
Lemma tokenize_first v k t r ts :
  v <> "" -> plain v = true ->
  (forall y, match_at token_spec (v ++ y) = Some (k, v)) ->
  token_of k v = Ok (Some t) ->
  tokenize r = Ok ts ->
  tokenize (v ++ r) = Ok (t :: ts).
Proof.
  intros Hv Hp Hm Ht Hr.
  change (tokens_of (matches_from "" (v ++ r)) = Ok (t :: ts)).
  rewrite (matches_from_prefix v [(k, v)]).
  - change (tokens_of (matches_from "" r) = Ok ts) in Hr.
    cbn [app tokens_of]. rewrite Ht, Hr. reflexivity.
  - apply plain_one_line, Hp.
  - intros l. unfold line_matches. rewrite (before_hash_plain _ _ Hp).
    apply finditer_match; [exact Hv | apply Hm].
Qed.

(** ** Lexer: keywords *)

Lemma keyword_match k w y :
  In (k, w) keywords -> match_at token_spec (w ++ y) = Some (k, w).
Proof.
  intros Hin.
  assert (Hgo : forall before after,
            token_spec = (before ++ (k, Lit w) :: after)%list ->
            Forall (fun kr => rmatch (snd kr) Some (w ++ y) = None) before ->
            match_at token_spec (w ++ y) = Some (k, w)).
  { intros before after -> Hb.
    rewrite (match_at_app _ k (Lit w) after (w ++ y) y Hb (rmatch_Lit_app w Some y)).
    rewrite lexeme_of_rest. reflexivity. }
  simpl in Hin.
  repeat (destruct Hin as [Hin|Hin];
          [injection Hin as <- <-;
           let rec go n :=
             first [ apply (Hgo (firstn n token_spec) (skipn (S n) token_spec));
                     [reflexivity|]
                   | go (S n) ] in
           go 0%nat;
           unfold token_spec; cbn [firstn];
           repeat (apply List.Forall_cons; [reflexivity|]); apply List.Forall_nil|]).
  destruct Hin.
Qed.

(** X16. A keyword at the start of a text is always lexed as that
    keyword, whatever follows it, letters and digits too: the text
    [order] is the keyword [or] and then the identifier [der]. This holds
    for every keyword of the table but [len]. *)
Theorem keyword_starts_a_token (k : kind) (w r : string) (ts : list Token) :
  In (k, w) keywords -> tokenize r = Ok ts ->
  tokenize (w ++ r) = Ok (Tok k w :: ts).
Proof.
  intros Hin Hr.
  assert (H : w <> "" /\ plain w = true /\ token_of k w = Ok (Some (Tok k w))).
  { simpl in Hin.
    repeat (destruct Hin as [Hin|Hin];
            [injection Hin as <- <-; repeat split; discriminate|]).
    destruct Hin. }
  destruct H as (Hw & Hp & Ht).
  apply (tokenize_first w k); try assumption.
  intros y. apply keyword_match, Hin.
Qed.

Lemma keyword_starts_a_token_witness :
  tokenize ("or" ++ "der = 1") = Ok [Tok OR "or"; Tok IDENT "der"; Tok ASSIGN "="; NumTok (NInt 1)].
Proof.
  apply keyword_starts_a_token; [|reflexivity].
  unfold keywords. repeat (first [left; reflexivity | right]).
Defined.

Lemma prefix_app w : forall s, String.prefix w s = true -> exists r, s = w ++ r.
Proof.
  induction w as [|a w IH]; intros s H; [exists s; reflexivity|].
  destruct s as [|c s]; [discriminate|]. simpl in H.
  destruct (ascii_dec a c) as [->|]; [|discriminate].
  destruct (IH s H) as [r ->]. exists r. reflexivity.
Qed.

Lemma prefix_substring w : forall n s,
  String.prefix w (substring 0 n s) = true -> String.prefix w s = true.
Proof.
  induction w as [|a w IH]; intros n s H; [destruct s; reflexivity|].
  destruct n, s as [|c s]; simpl in H; try discriminate.
  simpl. destruct (ascii_dec a c); [|discriminate]. exact (IH n s H).
Qed.

Lemma match_at_ident s v k w :
  match_at token_spec s = Some (IDENT, v) -> In (k, w) keywords ->
  String.prefix w v = false.
Proof.
  intros Hm Hin. destruct (String.prefix w v) eqn:E; [exfalso | reflexivity].
  destruct (match_at_inv _ _ _ _ Hm) as (r & rest & _ & _ & ->).
  apply prefix_substring, prefix_app in E as [y ->].
  rewrite (keyword_match k w y Hin) in Hm. injection Hm as -> _.
  simpl in Hin. intuition discriminate.
Qed.

Lemma finditer_ident line : forall skip,
  Forall (fun m => fst m = IDENT ->
            forall k w, In (k, w) keywords -> String.prefix w (snd m) = false)
         (finditer token_spec skip line).
Proof.
  induction line as [|c line IH]; intros skip; cbn [finditer]; [constructor|].
  destruct skip; [|apply IH].
  destruct (match_at token_spec (String c line)) as [[k v]|] eqn:E; [|apply IH].
  constructor; [|apply IH].
  simpl. intros Hk k' w Hin. subst k. exact (match_at_ident _ _ _ _ E Hin).
Qed.

(** Every token is the token of a match. *)
Lemma tokens_of_In ms : forall ts t,
  tokens_of ms = Ok ts -> In t ts ->
  exists k0 v0, In (k0, v0) ms /\ token_of k0 v0 = Ok (Some t).
Proof.
  induction ms as [|[k v] ms IH]; intros ts t H Hin; cbn [tokens_of] in H.
  - injection H as <-. destruct Hin.
  - destruct (token_of k v) as [t0|] eqn:Et; cbn in H; [|discriminate].
    destruct (tokens_of ms) as [ts'|]; cbn in H; [|discriminate].
    injection H as <-.
    assert (Hrest : In t ts' -> exists k0 v0, In (k0, v0) ((k, v) :: ms) /\
                                  token_of k0 v0 = Ok (Some t)).
    { intros Ht. destruct (IH ts' t eq_refl Ht) as (k0 & v0 & H0 & H1).
      exists k0, v0. split; [right; exact H0 | exact H1]. }
    destruct t0 as [t0|]; [|exact (Hrest Hin)].
    destruct Hin as [<-|Hin]; [|exact (Hrest Hin)].
    exists k, v. split; [left; reflexivity | exact Et].
Qed.

Lemma token_of_ident k v x : token_of k v = Ok (Some (Tok IDENT x)) -> k = IDENT /\ v = x.
Proof.
  destruct k; cbn; intros H; try discriminate; try (injection H as <-; auto; fail).
  destruct (contains "." v); [destruct (float_of_string v) | destruct (int_of_string v)];
    cbn in H; discriminate.
Qed.

(** X17. No identifier starts with a keyword: whatever the text, no IDENT
    token of [tokenize] has a text that starts with [eq], [neq], [lt],
    [gt], [le], [ge], [and], [or], [pl], [mn], [dp], [np], [var], [int],
    [flt], [bool], [set], [if], [wset], [fce], [try], [catch], [true],
    [false] or [inp]. A name such as [integer] or [order] cannot be used
    for a variable. *)
Theorem identifier_never_starts_with_keyword (code : string) (ts : list Token)
    (x : string) (k : kind) (w : string) :
  tokenize code = Ok ts -> In (Tok IDENT x) ts -> In (k, w) keywords ->
  String.prefix w x = false.
Proof.
  intros Ht Hx Hin. unfold tokenize in Ht.
  destruct (tokens_of_In _ _ _ Ht Hx) as (k0 & v & Hm & Hv).
  apply token_of_ident in Hv as [-> ->].
  assert (Hall : Forall (fun m => fst m = IDENT ->
                   forall k w, In (k, w) keywords -> String.prefix w (snd m) = false)
                 (concat (map line_matches (splitlines code))))
    by (apply Forall_concat_map; intros line; apply finditer_ident).
  rewrite List.Forall_forall in Hall.
  exact (Hall _ Hm eq_refl k w Hin).
Qed.

Lemma identifier_never_starts_with_keyword_witness :
  String.prefix "int" "eger" = false.
Proof.
  apply (identifier_never_starts_with_keyword "var int integer = 1"
           [Tok VAR "var"; Tok INT "int"; Tok INT "int"; Tok IDENT "eger";
            Tok ASSIGN "="; NumTok (NInt 1)] "eger" INT "int").
  - reflexivity.
  - simpl. auto.
  - unfold keywords. repeat (first [left; reflexivity | right]).
Defined.

(** ** Lexer: string literals *)

Lemma star_to_quote s y :
  all_in not_quote s = true ->
  star not_quote (rmatch (Class (is_char quote)) Some) (s ++ String quote y) = Some y.
Proof.
  induction s as [|c s IH]; intros H.
  - reflexivity.
  - cbn [all_in] in H. apply andb_true_iff in H as [Hc Hs].
    cbn [String.append star]. rewrite Hc, (IH Hs). reflexivity.
Qed.

Lemma string_match s y :
  all_in not_quote s = true ->
  match_at token_spec (quoted s ++ y) = Some (STRING, quoted s).
Proof.
  intros H.
  assert (Hr : rmatch (Cat (Class (is_char quote)) (Cat (Star not_quote) (Class (is_char quote))))
                 Some (quoted s ++ y) = Some y).
  { unfold quoted. cbn [String.append]. rewrite append_assoc. cbn [String.append].
    change (star not_quote (rmatch (Class (is_char quote)) Some) (s ++ String quote y) = Some y).
    apply star_to_quote, H. }
  change token_spec with (firstn 1 token_spec ++
    (STRING, Cat (Class (is_char quote)) (Cat (Star not_quote) (Class (is_char quote))))
    :: skipn 2 token_spec)%list.
  rewrite (match_at_app _ STRING _ _ _ y); [rewrite lexeme_of_rest; reflexivity | | exact Hr].
  repeat (apply List.Forall_cons; [reflexivity|]). apply List.Forall_nil.
Qed.

Lemma literal_text_parts s :
  literal_text s = true -> all_in not_quote s = true /\ plain s = true.
Proof.
  intros H. split; revert H; apply all_in_impl; intros c H;
    apply andb_true_iff in H as [H1 H2]; assumption.
Qed.

Lemma plain_quoted s : plain s = true -> plain (quoted s) = true.
Proof.
  intros H. unfold plain, quoted. cbn [all_in]. rewrite all_in_append.
  fold (plain s). rewrite H. reflexivity.
Qed.

Lemma unquote s : substring 1 (String.length (quoted s) - 2) (quoted s) = s.
Proof.
  unfold quoted. cbn [String.length]. rewrite length_append. cbn [String.length].
  replace (S (String.length s + 1) - 2)%nat with (String.length s) by lia.
  cbn [substring]. apply substring_append.
Qed.

(** A match stops in front of a quote, when no class of the expression
    accepts one: the ways to match are those of the text before the
    quote. *)
Lemma rmatch_barrier r B : rejects quote r = true -> forall k' k,
  (forall y, k' (y ++ String quote B) = option_map (fun z => z ++ String quote B) (k y)) ->
  forall x, rmatch r k' (x ++ String quote B) =
            option_map (fun z => z ++ String quote B) (rmatch r k x).
Proof.
  induction r as [|p|p|r1 IH1 r2 IH2|r1 IH1]; cbn [rejects rmatch]; intros Hr k' k Hk x.
  - apply Hk.
  - apply negb_true_iff in Hr.
    destruct x as [|c x]; cbn [String.append]; [rewrite Hr; reflexivity|].
    destruct (p c); [apply Hk | reflexivity].
  - apply negb_true_iff in Hr.
    induction x as [|c x IHx]; cbn [String.append star].
    + rewrite Hr. apply (Hk "").
    + destruct (p c); [|apply (Hk (String c x))].
      rewrite IHx. destruct (star p k x); [reflexivity | apply (Hk (String c x))].
  - apply andb_true_iff in Hr as [H1 H2].
    apply (IH1 H1). intros y. apply (IH2 H2 _ _ Hk).
  - rewrite (IH1 Hr _ _ Hk). destruct (rmatch r1 k x); [reflexivity | apply Hk].
Qed.

Lemma substring_prefix n : forall a b,
  (n <= String.length a)%nat -> substring 0 n (a ++ b) = substring 0 n a.
Proof.
  induction n as [|n IH]; intros a b H.
  - destruct a, b; reflexivity.
  - destruct a as [|c a]; [simpl in H; lia|]. cbn [String.append substring].
    rewrite IH by (simpl in H; lia). reflexivity.
Qed.

Lemma rmatch_length r : forall k s rest,
  (forall y z, k y = Some z -> (String.length z <= String.length y)%nat) ->
  rmatch r k s = Some rest -> (String.length rest <= String.length s)%nat.
Proof.
  induction r as [|p|p|r1 IH1 r2 IH2|r1 IH1]; cbn [rmatch]; intros k s rest Hk H.
  - exact (Hk _ _ H).
  - destruct s as [|c s]; [discriminate|]. destruct (p c); [|discriminate].
    apply Hk in H. simpl. lia.
  - revert H. induction s as [|c s IHs]; cbn [star]; intros H; [exact (Hk _ _ H)|].
    destruct (p c); [|exact (Hk _ _ H)].
    destruct (star p k s) eqn:E; [|exact (Hk _ _ H)].
    injection H as <-. specialize (IHs eq_refl). simpl. lia.
  - apply (IH1 _ _ _ (fun y z => IH2 k y z Hk) H).
  - destruct (rmatch r1 k s) eqn:E; [|exact (Hk _ _ H)].
    injection H as <-. exact (IH1 _ _ _ Hk E).
Qed.

(** Every alternative of the table stops in front of a quote, and the
    one that starts with a quote matches no other character first. *)
Lemma token_spec_stops c x B :
  not_quote c = true ->
  Forall (fun kr => rmatch (snd kr) Some (String c x ++ String quote B) =
                    option_map (fun z => z ++ String quote B)
                               (rmatch (snd kr) Some (String c x)))
         token_spec.
Proof.
  intros Hc.
  assert (Hs : is_char quote c = false).
  { unfold not_quote in Hc. apply negb_true_iff in Hc. unfold is_char.
    apply Ascii.eqb_neq. intros <-. discriminate Hc. }
  unfold token_spec.
  repeat (apply List.Forall_cons;
          [first [ apply rmatch_barrier; [reflexivity | reflexivity]
                 | cbn [snd rmatch String.append]; rewrite Hs; reflexivity ] |]).
  apply List.Forall_nil.
Qed.

Lemma match_at_barrier c x B :
  not_quote c = true ->
  match_at token_spec (String c x ++ String quote B) = match_at token_spec (String c x).
Proof.
  intros Hc. pose proof (token_spec_stops c x B Hc) as H.
  induction H as [|[k r] spec Hr _ IH]; [reflexivity|].
  cbn [match_at]. cbn [snd] in Hr. rewrite Hr, IH.
  destruct (rmatch r Some (String c x)) as [rest|] eqn:E; [|reflexivity].
  cbn [option_map]. f_equal. f_equal.
  assert (Hl : (String.length rest <= String.length (String c x))%nat).
  { apply (rmatch_length r Some _ _); [|exact E].
    intros y z Hz. injection Hz as <-. lia. }
  rewrite !length_append.
  replace (String.length (String c x) + String.length (String quote B) -
           (String.length rest + String.length (String quote B)))%nat
    with (String.length (String c x) - String.length rest)%nat by lia.
  apply substring_prefix. lia.
Qed.

(** The matches of a line up to a quote are those of the text before the
    quote, when that text has no quote in it. *)
Lemma finditer_barrier B p : forall skip,
  all_in not_quote p = true -> (skip <= String.length p)%nat ->
  finditer token_spec skip (p ++ String quote B) =
    (finditer token_spec skip p ++ finditer token_spec 0 (String quote B))%list.
Proof.
  induction p as [|c p IH]; intros skip Hp Hs.
  - simpl in Hs. replace skip with 0%nat by lia. reflexivity.
  - cbn [all_in] in Hp. apply andb_true_iff in Hp as [Hc Hp].
    change (String c p ++ String quote B) with (String c (p ++ String quote B)).
    cbn [finditer]. destruct skip as [|n].
    + change (String c (p ++ String quote B)) with (String c p ++ String quote B).
      rewrite (match_at_barrier c p B Hc).
      destruct (match_at token_spec (String c p)) as [[k v]|] eqn:E.
      * cbn [app]. f_equal. apply IH; [exact Hp|].
        destruct (match_at_inv _ _ _ _ E) as (r & rest & _ & _ & ->).
        pose proof (substring_length_le
                      (String.length (String c p) - String.length rest) (String c p)) as Hl.
        simpl in Hl |- *. lia.
      * apply IH; [exact Hp | lia].
    + apply IH; [exact Hp | simpl in Hs; lia].
Qed.

Lemma quotes_paired_plain p : all_in not_quote p = true -> forall inside z,
  quotes_paired inside (p ++ z) = quotes_paired inside z.
Proof.
  induction p as [|c p IH]; intros Hp inside z; [reflexivity|].
  cbn [all_in] in Hp. apply andb_true_iff in Hp as [Hc Hp].
  cbn [String.append quotes_paired]. rewrite Hc. apply IH, Hp.
Qed.

Lemma after_run_quote s c y :
  after_run not_quote s = String c y -> c = quote.
Proof.
  induction s as [|x s IH]; cbn [after_run]; [discriminate|].
  destruct (not_quote x) eqn:E; [exact IH|].
  intros H. injection H as <- _.
  unfold not_quote, code in E. apply negb_false_iff, Z.eqb_eq in E.
  rewrite <- (ascii_N_embedding x).
  replace (N_of_ascii x) with 34%N by lia. reflexivity.
Qed.

(** A text whose quotes are paired has no quote, or starts with a text
    without quote and a string literal, and the quotes after them are
    paired. *)
Lemma quotes_paired_split x :
  quotes_paired false x = true ->
  all_in not_quote x = true \/
  exists p s x', x = p ++ quoted s ++ x' /\ all_in not_quote p = true /\
                 all_in not_quote s = true /\ quotes_paired false x' = true.
Proof.
  intros H. pose proof (run_of_split not_quote x) as Hx.
  pose proof (run_of_all_in not_quote x) as Hp.
  destruct (after_run not_quote x) as [|c y] eqn:Ey.
  - left. rewrite Hx, append_empty. exact Hp.
  - right. apply after_run_quote in Ey as ->.
    rewrite Hx, (quotes_paired_plain _ Hp) in H. cbn [quotes_paired] in H.
    change (not_quote quote) with false in H. cbn [negb] in H.
    pose proof (run_of_split not_quote y) as Hy.
    pose proof (run_of_all_in not_quote y) as Hs.
    destruct (after_run not_quote y) as [|c' x'] eqn:Ex'.
    + rewrite Hy, (quotes_paired_plain _ Hs) in H. discriminate H.
    + apply after_run_quote in Ex' as ->.
      rewrite Hy, (quotes_paired_plain _ Hs) in H. cbn [quotes_paired] in H.
      change (not_quote quote) with false in H. cbn [negb] in H.
      exists (run_of not_quote x), (run_of not_quote y), x'.
      repeat split; try assumption.
      rewrite Hx at 1. f_equal. unfold quoted. cbn [String.append]. f_equal.
      rewrite append_assoc. exact Hy.
Qed.

(** The matches of a line up to the quote that opens a literal are those
    of the text before that quote. *)
Lemma finditer_before_literal B n : forall x,
  (String.length x <= n)%nat -> quotes_paired false x = true ->
  finditer token_spec 0 (x ++ String quote B) =
    (finditer token_spec 0 x ++ finditer token_spec 0 (String quote B))%list.
Proof.
  induction n as [|n IH]; intros x Hn Hx.
  - destruct x; [reflexivity | simpl in Hn; lia].
  - destruct (quotes_paired_split x Hx) as [Hp | (p & s & x' & -> & Hp & Hs & Hx')].
    + apply finditer_barrier; [exact Hp | lia].
    + assert (Hlen : (String.length x' <= n)%nat).
      { rewrite !length_append in Hn. unfold quoted in Hn. simpl in Hn. lia. }
      rewrite !append_assoc.
      assert (Hq : forall z, exists B', quoted s ++ z = String quote B').
      { intros z. eexists. unfold quoted. cbn [String.append]. reflexivity. }
      destruct (Hq (x' ++ String quote B)) as [B1 E1]. rewrite E1.
      rewrite (finditer_barrier B1 p 0 Hp) by lia. rewrite <- E1.
      destruct (Hq x') as [B2 E2]. rewrite E2.
      rewrite (finditer_barrier B2 p 0 Hp) by lia. rewrite <- E2.
      rewrite (finditer_match token_spec (quoted s) (x' ++ String quote B) STRING);
        [|discriminate | apply string_match, Hs].
      rewrite (finditer_match token_spec (quoted s) x' STRING);
        [|discriminate | apply string_match, Hs].
      rewrite (IH x' Hlen Hx'). rewrite <- app_assoc. reflexivity.
Qed.

Lemma before_literal_parts l :
  before_literal l = true -> plain l = true /\ quotes_paired false l = true.
Proof. intros H. apply andb_true_iff in H. exact H. Qed.

Lemma plain_parts a b : plain a = true -> plain b = true -> plain (a ++ b) = true.
Proof.
  intros Ha Hb. unfold plain. rewrite all_in_append. fold (plain a) (plain b).
  rewrite Ha, Hb. reflexivity.
Qed.

(** The tokens of one line without comment are made from its matches. *)
Lemma tokenize_plain_line l :
  plain l = true -> tokenize l = tokens_of (finditer token_spec 0 l).
Proof.
  intros Hp. change (tokenize l) with (tokens_of (matches_from "" l)). f_equal.
  rewrite <- (append_empty l) at 1.
  rewrite (matches_from_line l "" "" (plain_one_line l Hp)). cbn [String.append].
  rewrite matches_from_end. unfold line_matches.
  rewrite <- (append_empty l) at 1. rewrite (before_hash_plain l "" Hp).
  cbn [before_hash]. rewrite append_empty. reflexivity.
Qed.

(** The matches of a text with a string literal on its first line. *)
Lemma matches_from_literal l s r :
  before_literal l = true -> literal_text s = true ->
  matches_from "" (l ++ quoted s ++ r) =
    (finditer token_spec 0 l ++ (STRING, quoted s) :: matches_from "" r)%list.
Proof.
  intros Hl Hs. destruct (before_literal_parts l Hl) as [Hp Hq].
  destruct (literal_text_parts s Hs) as [Hsq Hsp].
  rewrite <- append_assoc.
  rewrite (matches_from_prefix (l ++ quoted s)
             (finditer token_spec 0 l ++ [(STRING, quoted s)])%list).
  - rewrite <- app_assoc. reflexivity.
  - apply plain_one_line, plain_parts; [exact Hp | apply plain_quoted, Hsp].
  - intros y. unfold line_matches.
    rewrite (before_hash_plain (l ++ quoted s) y)
      by (apply plain_parts; [exact Hp | apply plain_quoted, Hsp]).
    rewrite append_assoc.
    assert (Hq' : exists B', quoted s ++ before_hash y = String quote B').
    { eexists. unfold quoted. cbn [String.append]. reflexivity. }
    destruct Hq' as [B' E]. rewrite E.
    rewrite (finditer_before_literal B' _ l (le_n _) Hq). rewrite <- E.
    rewrite (finditer_match token_spec (quoted s) (before_hash y) STRING);
      [|discriminate | apply string_match, Hsq].
    rewrite <- app_assoc. reflexivity.
Qed.

Lemma tokenize_literal l s r tl tr :
  before_literal l = true -> literal_text s = true ->
  tokenize l = Ok tl -> tokenize r = Ok tr ->
  tokens_of (matches_from "" (l ++ quoted s ++ r)) = Ok (tl ++ Tok STRING s :: tr)%list.
Proof.
  intros Hl Hs Htl Htr.
  rewrite (matches_from_literal l s r Hl Hs).
  rewrite (tokenize_plain_line l (proj1 (before_literal_parts l Hl))) in Htl.
  apply (tokens_of_app _ _ _ _ Htl).
  change (tokens_of (matches_from "" r) = Ok tr) in Htr.
  cbn [tokens_of token_of]. rewrite unquote, Htr. reflexivity.
Qed.

(** X18. A string literal is one token that holds the text between the
    quotes, wherever it stands on its line and whatever follows the
    closing quote, when that text has no quote, no line end and no [#] in
    it and the quote that opens it is not one that closes: the part of
    the line before it has no [#] and its quotes are paired. The tokens
    of the text are those of what is before the literal, the token of the
    literal, and those of what is after it; lines before that line
    change nothing. *)
Theorem string_literal_is_one_token (l s r : string) (tl tr : list Token) :
  before_literal l = true -> literal_text s = true ->
  tokenize l = Ok tl -> tokenize r = Ok tr ->
  tokenize (l ++ quoted s ++ r) = Ok (tl ++ Tok STRING s :: tr)%list /\
  (forall a c ta, is_linebreak c = true -> tokenize a = Ok ta ->
     tokenize (a ++ String c (l ++ quoted s ++ r)) =
       Ok (ta ++ tl ++ Tok STRING s :: tr)%list).
Proof.
  intros Hl Hs Htl Htr. split.
  - apply tokenize_literal; assumption.
  - intros a c ta Hc Hta.
    change (tokens_of (matches_from "" (a ++ String c (l ++ quoted s ++ r))) =
            Ok (ta ++ tl ++ Tok STRING s :: tr)%list).
    rewrite (matches_from_lines _ a "" c _ (le_n _) Hc).
    apply tokens_of_app; [exact Hta | apply tokenize_literal; assumption].
Qed.

Lemma string_literal_is_one_token_witness :
  tokenize ("set " ++ quoted "abc" ++ " pl x") =
    Ok ([Tok SET "set"] ++ Tok STRING "abc" :: [Tok PL "pl"; Tok IDENT "x"])%list /\
  tokenize ("var x = 1" ++ String (ascii_of_nat 10)
              ("set " ++ quoted "if" ++ " pl " ++ quoted "x = 1 { }" ++ "le 2")) =
    Ok ([Tok VAR "var"; Tok IDENT "x"; Tok ASSIGN "="; NumTok (NInt 1)] ++
        [Tok SET "set"; Tok STRING "if"; Tok PL "pl"] ++
        Tok STRING "x = 1 { }" :: [Tok LE "le"; NumTok (NInt 2)])%list.
Proof.
  split.
  - apply (string_literal_is_one_token "set " "abc" " pl x"); reflexivity.
  - apply (string_literal_is_one_token ("set " ++ quoted "if" ++ " pl ") "x = 1 { }" "le 2");
      reflexivity.
Defined.

(** ** Host language: an integer written and read back *)

Lemma digits_tail_digit c acc n s :
  is_digit c = true ->
  digits_tail acc n (String c s) = digits_tail (acc * 10 + digit_value c) (n + 1) s.
Proof. intros H. cbn [digits_tail]. rewrite H. reflexivity. Qed.

(** Reading the digits of a decimal number, after digits worth [acc]. *)
Lemma digits_tail_uint d : forall acc n,
  0 <= acc -> 0 <= n ->
  exists m, m = n + Z.of_nat (String.length (NilEmpty.string_of_uint d)) /\
    digits_tail acc n (NilEmpty.string_of_uint d) =
      (match acc with
       | Zpos a => Zpos (Pos.of_uint_acc d a)
       | _ => Z.of_N (Pos.of_uint d)
       end, m, "").
Proof.
  induction d as [|d IH|d IH|d IH|d IH|d IH|d IH|d IH|d IH|d IH|d IH];
    intros acc n Hacc Hn.
  1:{ exists n. split; [simpl; lia|]. destruct acc; try lia; reflexivity. }
  all: cbn [NilEmpty.string_of_uint String.length]; rewrite digits_tail_digit by reflexivity.
  all: match goal with
       | |- context [digit_value ?c] =>
           let v := eval vm_compute in (digit_value c) in
           change (digit_value c) with v
       end.
  all: destruct acc as [|a|a]; [| |lia]; cbv iota.
  all: try match goal with
       | |- context [digits_tail (0 * 10 + ?k) _ _] =>
           change (0 * 10 + k) with k;
           destruct (IH k (n + 1) ltac:(lia) ltac:(lia)) as (m & Hm & ->);
           exists m; split; [lia | reflexivity]
       end.
  all: cbn [Pos.of_uint_acc];
       match goal with
       | |- context [Pos.of_uint_acc _ ?p] =>
           match goal with
           | |- context [digits_tail ?x _ _] =>
               replace x with (Z.pos p) by lia;
               destruct (IH (Z.pos p) (n + 1) ltac:(lia) ltac:(lia)) as (m & Hm & ->);
               exists m; split; [lia | reflexivity]
           end
       end.
Qed.

Lemma uint_digits d : all_in is_digit (NilEmpty.string_of_uint d) = true.
Proof. induction d; cbn [NilEmpty.string_of_uint all_in]; try reflexivity; exact IHd. Qed.

Lemma uint_text_digits d : digits1 (NilZero.string_of_uint d).
Proof.
  destruct d; (split; [discriminate|]); try reflexivity;
    cbn [NilZero.string_of_uint NilEmpty.string_of_uint all_in]; apply uint_digits.
Qed.

Lemma digitpart_uint d :
  digitpart (NilZero.string_of_uint d) =
    (Z.of_uint d, Z.of_nat (String.length (NilZero.string_of_uint d)), "").
Proof.
  destruct d as [|d|d|d|d|d|d|d|d|d|d]; [reflexivity| | | | | | | | | |].
  all: cbn [NilZero.string_of_uint NilEmpty.string_of_uint digitpart String.length].
  all: match goal with
       | |- context [is_digit ?c] => change (is_digit c) with true; cbv iota;
           let v := eval vm_compute in (digit_value c) in
           change (digit_value c) with v
       end.
  all: match goal with
       | |- context [digits_tail ?a _ _] =>
           destruct (digits_tail_uint d a 1 ltac:(lia) ltac:(lia)) as (m & Hm & ->)
       end.
  all: replace m with (Z.of_nat (S (String.length (NilEmpty.string_of_uint d)))) by lia;
       reflexivity.
Qed.

(** [int] reads back what [str] wrote: a decimal text within the limit. *)
Lemma int_of_string_of_Z z :
  Z.of_nat (String.length (string_of_Z (Z.abs z))) <= max_str_digits ->
  int_of_string (string_of_Z z) = Ok z.
Proof.
  intros Hfit.
  assert (Hgo : forall d, Z.of_nat (String.length (NilZero.string_of_uint d)) <= max_str_digits ->
            (max_str_digits <? Z.of_nat (String.length (NilZero.string_of_uint d))) = false /\
            (Z.of_nat (String.length (NilZero.string_of_uint d)) =? 0) = false).
  { intros d Hd. pose proof (uint_text_digits d) as [Hne _].
    split; [apply Z.ltb_ge, Hd|]. apply Z.eqb_neq.
    destruct (NilZero.string_of_uint d); [congruence | simpl; lia]. }
  unfold string_of_Z in *. rewrite <- (DecimalZ.of_to z) at 2.
  destruct z as [|p|p]; cbn [Z.abs Z.to_int NilZero.string_of_int Z.of_int] in *.
  - reflexivity.
  - pose proof (uint_text_digits (Pos.to_uint p)) as [Hne Hd].
    destruct (Hgo _ Hfit) as [H1 H2].
    unfold int_of_string. rewrite (strip_id _ (digits_no_space _ Hd)).
    pose proof (digitpart_uint (Pos.to_uint p)) as Hp.
    destruct (NilZero.string_of_uint (Pos.to_uint p)) as [|c s] eqn:E; [congruence|].
    cbn [all_in] in Hd. apply andb_true_iff in Hd as [Hc _].
    destruct (digit_first c s Hc) as (-> & _). rewrite Hp, H1, H2. reflexivity.
  - pose proof (uint_text_digits (Pos.to_uint p)) as [Hne Hd].
    destruct (Hgo _ Hfit) as [H1 H2].
    unfold int_of_string. rewrite strip_id.
    2:{ cbn [all_in]. rewrite (digits_no_space _ Hd). reflexivity. }
    cbn [sign]. rewrite digitpart_uint, H1, H2. reflexivity.
Qed.

(** ** Lexer: integer literals *)

Lemma substring_all s : substring 0 (String.length s) s = s.
Proof. induction s as [|c s IH]; simpl; [reflexivity | rewrite IH; reflexivity]. Qed.

Lemma digits_match ds :
  digits1 ds -> match_at token_spec (ds ++ "") = Some (NUMBER, ds).
Proof.
  intros [Hne Hd]. rewrite append_empty.
  destruct ds as [|c s]; [congruence|].
  cbn [all_in] in Hd. apply andb_true_iff in Hd as [Hc Hs].
  assert (Hr : rmatch number_re Some (String c s) = Some "").
  { unfold number_re, Plus. cbn [rmatch]. rewrite Hc.
    rewrite star_total
      by (intros x; destruct (match x with EmptyString => _ | _ => _ end); discriminate).
    assert (Ha : after_run is_digit s = "").
    { clear -Hs. induction s as [|a s IH]; [reflexivity|].
      cbn [all_in] in Hs. apply andb_true_iff in Hs as [Ha Hs].
      cbn [after_run]. rewrite Ha. exact (IH Hs). }
    rewrite Ha. reflexivity. }
  unfold token_spec. cbn [match_at]. fold number_re. rewrite Hr.
  f_equal. f_equal. cbn [String.length]. rewrite Nat.sub_0_r.
  apply (substring_all (String c s)).
Qed.

Lemma plain_digits ds : all_in is_digit ds = true -> plain ds = true.
Proof.
  apply all_in_impl. intros c H.
  destruct c as [[] [] [] [] [] [] [] []]; try discriminate H; reflexivity.
Qed.

(** The matches of a text of one line without comment. *)
Lemma matches_of_line w : plain w = true -> matches_from "" w = finditer token_spec 0 w.
Proof.
  intros Hp. rewrite <- (append_empty w) at 1.
  rewrite matches_from_line by (apply plain_one_line, Hp).
  rewrite matches_from_end. cbn [String.append]. unfold line_matches.
  rewrite <- (append_empty w) at 1. rewrite before_hash_plain by exact Hp.
  cbn [before_hash]. rewrite append_empty. reflexivity.
Qed.

(** A text of one line that is one lexeme. *)
Lemma matches_of_lexeme v k :
  v <> "" -> plain v = true -> match_at token_spec (v ++ "") = Some (k, v) ->
  matches_from "" v = [(k, v)].
Proof.
  intros Hv Hp Hm. rewrite (matches_of_line _ Hp).
  rewrite <- (append_empty v) at 1. rewrite (finditer_match _ _ _ _ Hv Hm). reflexivity.
Qed.

(** The text that [str] writes for an integer, when it writes one. *)
Lemma py_str_int z t :
  py_str (VInt z) = Ok t ->
  t = string_of_Z z /\
  Z.of_nat (String.length (string_of_Z (Z.abs z))) <= max_str_digits.
Proof.
  cbn [py_str].
  destruct (Z.ltb_spec max_str_digits (Z.of_nat (String.length (string_of_Z (Z.abs z)))));
    [discriminate|].
  intros E. injection E as <-. split; [reflexivity | assumption].
Qed.

Lemma tokenize_digits z :
  0 <= z -> Z.of_nat (String.length (string_of_Z z)) <= max_str_digits ->
  tokenize (string_of_Z z) = Ok [NumTok (NInt z)].
Proof.
  intros Hz Hfit. pose proof (int_of_string_of_Z z) as Hi.
  rewrite Z.abs_eq in Hi by exact Hz. specialize (Hi Hfit). unfold string_of_Z in *.
  destruct (Z.to_int z) as [d|d] eqn:E.
  - cbn [NilZero.string_of_int] in *. pose proof (uint_text_digits d) as Hd.
    change (tokens_of (matches_from "" (NilZero.string_of_uint d)) = Ok [NumTok (NInt z)]).
    rewrite (matches_of_lexeme _ NUMBER (proj1 Hd) (plain_digits _ (proj2 Hd))
               (digits_match _ Hd)).
    cbn [tokens_of token_of]. rewrite (contains_digits _ (proj2 Hd)).
    cbn [py_int]. rewrite Hi. reflexivity.
  - destruct z; try lia; discriminate E.
Qed.

Lemma minus_is_passed s : tokenize (String "-" s) = tokenize s.
Proof.
  change (tokens_of (matches_from "" ("-" ++ s)) = tokens_of (matches_from "" s)).
  rewrite (matches_from_prefix "-" []); [reflexivity | reflexivity |].
  intros l. unfold line_matches. cbn [String.append before_hash Ascii.eqb Bool.eqb].
  cbn [finditer]. rewrite match_at_unmatched by reflexivity. reflexivity.
Qed.

(** X19. An integer that the host writes is read back by the lexer as
    one NUMBER token, without its sign: whenever [str(n)] returns a text,
    that is for [n] of at most 4300 digits, the tokens of the text are
    the one token of the integer [|n|]. A minus sign makes no token; the
    language has no negative literal. *)
Theorem integer_text_is_one_token (z : Z) (t : string) :
  py_str (VInt z) = Ok t ->
  tokenize t = Ok [NumTok (NInt (Z.abs z))].
Proof.
  intros H. destruct (py_str_int z t H) as [-> Hfit].
  destruct (Z.le_gt_cases 0 z) as [Hz|Hz].
  - rewrite Z.abs_eq in * by exact Hz. apply tokenize_digits; assumption.
  - rewrite <- (tokenize_digits (Z.abs z) (Z.abs_nonneg z) Hfit).
    destruct z as [|p|p]; try lia.
    unfold string_of_Z. cbn [Z.to_int Z.abs NilZero.string_of_int].
    apply minus_is_passed.
Qed.

Lemma integer_text_is_one_token_witness :
  tokenize "-42" = Ok [NumTok (NInt (Z.abs (-42)))].
Proof. apply integer_text_is_one_token. reflexivity. Defined.

(** ** The pipeline: a literal is printed as it is written *)

Lemma blank_match lit :
  starts_unblank lit = true -> match_at token_spec (" " ++ lit) = Some (SKIP, " ").
Proof.
  intros H.
  change token_spec with
    (firstn 33 token_spec ++ (SKIP, Plus is_blank) :: skipn 34 token_spec)%list.
  rewrite (match_at_app _ SKIP _ _ _ lit).
  - rewrite (lexeme_of_rest " " lit). reflexivity.
  - repeat (apply List.Forall_cons; [reflexivity|]). apply List.Forall_nil.
  - change (star is_blank Some lit = Some lit).
    destruct lit as [|c lit]; [reflexivity|].
    cbn [starts_unblank] in H. apply negb_true_iff in H.
    cbn [star]. rewrite H. reflexivity.
Qed.

Lemma plain_append a b : plain (a ++ b) = plain a && plain b.
Proof. apply all_in_append. Qed.

(** The tokens of [set] and one lexeme. *)
Lemma tokenize_set_lexeme lit k t :
  lit <> "" -> plain lit = true -> starts_unblank lit = true ->
  match_at token_spec (lit ++ "") = Some (k, lit) ->
  token_of k lit = Ok (Some t) ->
  tokenize ("set " ++ lit) = Ok [Tok SET "set"; t].
Proof.
  intros Hne Hp Hb Hm Ht.
  change (tokens_of (matches_from "" ("set " ++ lit)) = Ok [Tok SET "set"; t]).
  rewrite matches_of_line by (rewrite plain_append, Hp; reflexivity).
  change ("set " ++ lit) with ("set" ++ (" " ++ lit)).
  rewrite (finditer_match _ "set" _ SET); [|discriminate|].
  2:{ apply keyword_match. unfold keywords. repeat (first [left; reflexivity | right]). }
  rewrite (finditer_match _ " " _ SKIP); [|discriminate | apply blank_match, Hb].
  rewrite <- (append_empty lit) at 1.
  rewrite (finditer_match _ _ _ _ Hne Hm).
  cbn [finditer tokens_of token_of]. rewrite Ht. reflexivity.
Qed.

Lemma starts_unblank_digits ds : all_in is_digit ds = true -> starts_unblank ds = true.
Proof.
  destruct ds as [|c ds]; [reflexivity|]. cbn [all_in starts_unblank].
  intros H. apply andb_true_iff in H as [H _].
  destruct c as [[] [] [] [] [] [] [] []]; try discriminate H; reflexivity.
Qed.

(** X20. A literal is printed as it is written: the program [set "s"]
    writes the line [s], for every text [s] without quote, line end and
    [#]; the program [set n] writes the line [n], for every integer
    [n >= 0] that the host can write, that is of at most 4300 digits,
    in the host's decimal writing. The banner comes first and nothing
    else is written. *)
Theorem set_prints_its_literal (fuel : nat) (lines : list string) :
  (forall s, literal_text s = true ->
     run_code (S fuel) ("set " ++ quoted s) lines =
       Ran (Ret tt (init lines [Banner; Line s]))) /\
  (forall z t, 0 <= z -> py_str (VInt z) = Ok t ->
     run_code (S fuel) ("set " ++ t) lines =
       Ran (Ret tt (init lines [Banner; Line t]))).
Proof.
  split.
  - intros s Hs. destruct (literal_text_parts s Hs) as [Hq Hp].
    unfold run_code.
    rewrite (tokenize_set_lexeme (quoted s) STRING (Tok STRING s)).
    + change (parse [Tok SET "set"; Tok STRING s]) with (Parsed [Print (Str s)] []).
      destruct fuel; reflexivity.
    + discriminate.
    + apply plain_quoted, Hp.
    + reflexivity.
    + apply string_match, Hq.
    + cbn [token_of]. rewrite unquote. reflexivity.
  - intros z t Hz Ht. pose proof Ht as Hstr.
    destruct (py_str_int z t Ht) as [-> Hfit]. unfold run_code.
    pose proof (int_of_string_of_Z z Hfit) as Hi. rewrite Z.abs_eq in Hfit by exact Hz.
    unfold string_of_Z in Hi |- *.
    destruct (Z.to_int z) as [d|d] eqn:E; [|destruct z; try lia; discriminate E].
    cbn [NilZero.string_of_int] in *. pose proof (uint_text_digits d) as [Hne Hd].
    rewrite (tokenize_set_lexeme _ NUMBER (NumTok (NInt z))).
    + change (parse [Tok SET "set"; NumTok (NInt z)]) with (Parsed [Print (Num (VInt z))] []).
      cbn [map]. destruct fuel; cbn [run eval obind]; rewrite Hstr; unfold string_of_Z;
        rewrite E; reflexivity.
    + exact Hne.
    + apply plain_digits, Hd.
    + apply starts_unblank_digits, Hd.
    + apply digits_match. split; assumption.
    + cbn [token_of]. rewrite (contains_digits _ Hd). cbn [py_int]. rewrite Hi.
      reflexivity.
Qed.

Lemma set_prints_its_literal_witness :
  run_code 1 ("set " ++ quoted "Hello, world") [] =
    Ran (Ret tt (init [] [Banner; Line "Hello, world"])) /\
  run_code 1 ("set " ++ "2024") [] =
    Ran (Ret tt (init [] [Banner; Line "2024"])).
Proof.
  destruct (set_prints_its_literal 0 []) as [Hs Hz]. split.
  - apply Hs. reflexivity.
  - apply (Hz 2024); [lia | reflexivity].
Defined.

(** ** Lexer: a quote that is not closed *)

Lemma star_no_quote s :
  all_in not_quote s = true ->
  star not_quote (rmatch (Class (is_char quote)) Some) s = None.
Proof.
  induction s as [|c s IH]; intros H; [reflexivity|].
  cbn [all_in] in H. apply andb_true_iff in H as [Hc Hs].
  cbn [star]. rewrite Hc, (IH Hs). cbn [rmatch].
  unfold not_quote in Hc. apply negb_true_iff, Z.eqb_neq in Hc.
  destruct (is_char quote c) eqn:E; [|reflexivity].
  unfold is_char in E. apply Ascii.eqb_eq in E. subst c. exfalso. apply Hc. reflexivity.
Qed.

Lemma open_quote_unmatched l :
  all_in not_quote l = true -> match_at token_spec (String quote l) = None.
Proof.
  intros H. unfold token_spec. cbn [match_at].
  change (rmatch (Cat (Plus is_digit) _) Some (String quote l)) with (@None string).
  cbv iota.
  change (rmatch (Cat (Class (is_char quote)) (Cat (Star not_quote) (Class (is_char quote))))
            Some (String quote l))
    with (star not_quote (rmatch (Class (is_char quote)) Some) l).
  rewrite (star_no_quote l H). reflexivity.
Qed.

Lemma before_hash_no_quote l :
  all_in not_quote l = true -> all_in not_quote (before_hash l) = true.
Proof.
  induction l as [|c l IH]; intros H; [reflexivity|].
  cbn [all_in] in H. apply andb_true_iff in H as [Hc Hl].
  cbn [before_hash]. destruct (Ascii.eqb c "#"); [reflexivity|].
  cbn [all_in]. rewrite Hc. exact (IH Hl).
Qed.

(** X21. A quote that is not closed on its line makes no token and no
    error: when no other quote follows, the text after the quote is lexed
    as if the quote were not there. *)
Theorem open_quote_is_passed (s : string) :
  all_in not_quote s = true -> tokenize (String quote s) = tokenize s.
Proof.
  intros Hs.
  change (tokens_of (matches_from "" (String quote "" ++ s)) =
          tokens_of (matches_from "" s)).
  rewrite (matches_from_prefix_if (all_in not_quote) (String quote "") []);
    [reflexivity | reflexivity | | | exact Hs].
  - intros a b H. rewrite all_in_append in H. apply andb_true_iff in H as [H _]. exact H.
  - intros l Hl. unfold line_matches.
    change (before_hash (String quote "" ++ l)) with (String quote (before_hash l)).
    cbn [finditer]. rewrite (open_quote_unmatched _ (before_hash_no_quote l Hl)).
    reflexivity.
Qed.

Lemma open_quote_is_passed_witness :
  tokenize (String quote "hello") = tokenize "hello".
Proof. apply open_quote_is_passed. reflexivity. Defined.

(** ** Parser: where [factor] is called *)

Lemma traced_bind_outcome {A B} (m : Traced.traced A) (f : A -> list Token -> Traced.traced B) :
  snd (Traced.tbind m f) = pbind (snd m) (fun a rest => snd (f a rest)).
Proof. unfold Traced.tbind. destruct (snd m); reflexivity. Qed.

Lemma pbind_ext {A B} (m : presult A) (f g : A -> list Token -> presult B) :
  (forall a rest, f a rest = g a rest) -> pbind m f = pbind m g.
Proof. intros H. destruct m; simpl; auto. Qed.

Lemma traced_factor_outcome ts : snd (Traced.factor ts) = factor ts.
Proof.
  induction ts as [|[n|k v] ts IH]; try reflexivity.
  destruct k; try reflexivity.
  cbn [Traced.factor factor snd]. rewrite traced_bind_outcome, IH. reflexivity.
Qed.

Lemma traced_expr_loop_outcome fuel : forall n ts,
  snd (Traced.expr_loop fuel n ts) = expr_loop fuel n ts.
Proof.
  induction fuel as [|fuel IH]; intros n [|tok rest]; try reflexivity.
  - cbn [Traced.expr_loop expr_loop]. destruct (binop_of_kind (type tok)); reflexivity.
  - cbn [Traced.expr_loop expr_loop]. destruct (binop_of_kind (type tok)); [|reflexivity].
    rewrite traced_bind_outcome, traced_factor_outcome. apply pbind_ext. intros; apply IH.
Qed.

Lemma traced_expr_outcome ts : snd (Traced.expr ts) = expr ts.
Proof.
  unfold Traced.expr, expr. rewrite traced_bind_outcome, traced_factor_outcome.
  apply pbind_ext. intros; apply traced_expr_loop_outcome.
Qed.

(** Unfolds the outcome of a sequence of steps. *)
Ltac traced_outcome :=
  repeat (rewrite traced_bind_outcome; cbn [Traced.quiet snd];
          apply pbind_ext; intros);
  try reflexivity.

Lemma traced_set_stmt_outcome ts : snd (Traced.set_stmt ts) = set_stmt ts.
Proof.
  unfold Traced.set_stmt, set_stmt. traced_outcome.
  rewrite traced_bind_outcome, traced_expr_outcome. reflexivity.
Qed.

Lemma traced_var_decl_outcome ts : snd (Traced.var_decl ts) = var_decl ts.
Proof.
  unfold Traced.var_decl, var_decl. rewrite traced_bind_outcome. cbn [Traced.quiet snd].
  apply pbind_ext. intros _ [|tok rest]; [reflexivity|]. traced_outcome.
  rewrite traced_bind_outcome, traced_expr_outcome. reflexivity.
Qed.

Section TracedStatements.
Variable tbos : list Token -> Traced.traced (option stmt).
Variable bos : list Token -> presult (option stmt).
Hypothesis tbos_outcome : forall ts, snd (tbos ts) = bos ts.

Lemma traced_if_stmt_outcome ts : snd (Traced.if_stmt tbos ts) = if_stmt bos ts.
Proof.
  unfold Traced.if_stmt, if_stmt. rewrite traced_bind_outcome. cbn [Traced.quiet snd].
  apply pbind_ext. intros _ ts1.
  rewrite traced_bind_outcome, traced_expr_outcome. apply pbind_ext. intros c ts2.
  rewrite traced_bind_outcome, tbos_outcome. apply pbind_ext. intros th ts3.
  destruct ts3 as [|[m|k v] ts3']; try reflexivity. destruct k; try reflexivity.
  rewrite traced_bind_outcome. cbn [Traced.quiet snd]. apply pbind_ext. intros _ ts4.
  rewrite traced_bind_outcome, tbos_outcome. reflexivity.
Qed.

Lemma traced_wset_stmt_outcome ts : snd (Traced.wset_stmt tbos ts) = wset_stmt bos ts.
Proof.
  unfold Traced.wset_stmt, wset_stmt. rewrite traced_bind_outcome. cbn [Traced.quiet snd].
  apply pbind_ext. intros _ ts1.
  rewrite traced_bind_outcome, traced_expr_outcome. apply pbind_ext. intros c ts2.
  rewrite traced_bind_outcome, tbos_outcome. reflexivity.
Qed.

Lemma traced_try_stmt_outcome ts : snd (Traced.try_stmt tbos ts) = try_stmt bos ts.
Proof.
  unfold Traced.try_stmt, try_stmt. rewrite traced_bind_outcome. cbn [Traced.quiet snd].
  apply pbind_ext. intros _ ts1.
  rewrite traced_bind_outcome, tbos_outcome. apply pbind_ext. intros t ts2.
  rewrite traced_bind_outcome. cbn [Traced.quiet snd]. apply pbind_ext. intros _ ts3.
  rewrite traced_bind_outcome, tbos_outcome. reflexivity.
Qed.
End TracedStatements.

Lemma traced_statements_outcome fuel :
  (forall ts, snd (Traced.statement fuel ts) = statement fuel ts) /\
  (forall ts, snd (Traced.block_or_stmt fuel ts) = block_or_stmt fuel ts) /\
  (forall s ts, snd (Traced.block_loop fuel s ts) = block_loop fuel s ts).
Proof.
  induction fuel as [|fuel (IHs & IHb & IHl)]; [repeat split; reflexivity|].
  repeat split.
  - intros [|tok rest]; [reflexivity|]. cbn [Traced.statement statement].
    destruct (type tok); try reflexivity.
    + apply traced_var_decl_outcome.
    + apply traced_set_stmt_outcome.
    + apply traced_if_stmt_outcome, IHb.
    + apply traced_wset_stmt_outcome, IHb.
    + apply traced_try_stmt_outcome, IHb.
  - intros ts. cbn [Traced.block_or_stmt block_or_stmt].
    destruct ts as [|[m|k v] rest]; try apply IHs.
    destruct k; try apply IHs.
    rewrite traced_bind_outcome. cbn [Traced.quiet snd]. apply pbind_ext. intros _ ts1.
    rewrite traced_bind_outcome, IHl. apply pbind_ext. intros s ts2.
    rewrite traced_bind_outcome. reflexivity.
  - intros s ts. cbn [Traced.block_loop block_loop].
    assert (Hgo : snd (Traced.tbind (Traced.statement fuel ts) (fun st ts' =>
                    Traced.block_loop fuel (match st with Some x => s ++ [x] | None => s end) ts'))
                  = pbind (statement fuel ts) (fun st ts' =>
                    block_loop fuel (match st with Some x => s ++ [x] | None => s end) ts')).
    { rewrite traced_bind_outcome, IHs. apply pbind_ext. intros; apply IHl. }
    destruct ts as [|[m|k v] rest]; [reflexivity | exact Hgo |].
    destruct k; try exact Hgo. reflexivity.
Qed.

Lemma traced_parse_loop_outcome fuel : forall stmts ts,
  snd (Traced.parse_loop fuel stmts ts) = parse_loop fuel stmts ts.
Proof.
  induction fuel as [|fuel IH]; intros stmts ts; [reflexivity|].
  cbn [Traced.parse_loop parse_loop]. destruct ts as [|tok rest]; [reflexivity|].
  rewrite traced_bind_outcome, (proj1 (traced_statements_outcome fuel)).
  apply pbind_ext. intros; apply IH.
Qed.

(** Writing the calls down changes nothing: the outcome is that of
    [parse]. *)
Lemma traced_parse_outcome ts : snd (Traced.parse ts) = parse ts.
Proof. apply traced_parse_loop_outcome. Qed.

(** *** A call of [factor] that raises is the end of [parse] *)

Lemma raises_quiet {A} (r : presult A) : raises_where_called (Traced.quiet r).
Proof. intros pos []. Qed.

Lemma raises_bind {A B} (m : Traced.traced A) (f : A -> list Token -> Traced.traced B) :
  raises_where_called m -> (forall a rest, raises_where_called (f a rest)) ->
  raises_where_called (Traced.tbind m f).
Proof.
  intros Hm Hf pos Hin Hbad. unfold Traced.tbind in *.
  destruct (snd m) as [a rest|e|] eqn:E; cbn [fst snd] in *.
  - apply in_app_or in Hin as [Hin|Hin].
    + specialize (Hm pos Hin Hbad). congruence.
    + exact (Hf a rest pos Hin Hbad).
  - specialize (Hm pos Hin Hbad). congruence.
  - specialize (Hm pos Hin Hbad). congruence.
Qed.

Lemma raises_factor ts : raises_where_called (Traced.factor ts).
Proof.
  induction ts as [|tok ts IH]; intros pos Hin Hbad.
  - destruct Hin as [<-|[]]. discriminate Hbad.
  - rewrite traced_factor_outcome. cbn [Traced.factor fst] in Hin.
    destruct Hin as [<-|Hin]; [exact Hbad|].
    destruct tok as [n|k v]; [destruct Hin|].
    destruct k; try (destruct Hin; fail).
    pose proof (raises_bind (Traced.factor ts)
                  (fun n rest' => Traced.quiet (Parsed (Len n) rest')) IH
                  (fun _ _ => raises_quiet _) pos Hin Hbad) as H.
    rewrite traced_bind_outcome, traced_factor_outcome in H. exact H.
Qed.

Lemma raises_expr_loop fuel : forall n ts, raises_where_called (Traced.expr_loop fuel n ts).
Proof.
  induction fuel as [|fuel IH]; intros n [|tok rest]; cbn [Traced.expr_loop];
    try apply raises_quiet.
  - destruct (binop_of_kind (type tok)); apply raises_quiet.
  - destruct (binop_of_kind (type tok)); [|apply raises_quiet].
    apply raises_bind; [apply raises_factor | intros; apply IH].
Qed.

Lemma raises_expr ts : raises_where_called (Traced.expr ts).
Proof.
  apply raises_bind; [apply raises_factor | intros; apply raises_expr_loop].
Qed.

Create HintDb traced.
#[local] Hint Resolve raises_quiet raises_expr : traced.

Ltac raises_steps :=
  repeat (apply raises_bind; [auto with traced | intros]); auto with traced.

Lemma raises_set_stmt ts : raises_where_called (Traced.set_stmt ts).
Proof. unfold Traced.set_stmt. raises_steps. Qed.

Lemma raises_var_decl ts : raises_where_called (Traced.var_decl ts).
Proof.
  unfold Traced.var_decl. apply raises_bind; [auto with traced|].
  intros _ [|tok rest]; raises_steps.
Qed.

Section RaisesStatements.
Variable tbos : list Token -> Traced.traced (option stmt).
Hypothesis raises_tbos : forall ts, raises_where_called (tbos ts).

Lemma raises_if_stmt ts : raises_where_called (Traced.if_stmt tbos ts).
Proof.
  unfold Traced.if_stmt.
  apply raises_bind; [auto with traced|]. intros _ ts1.
  apply raises_bind; [auto with traced|]. intros c ts2.
  apply raises_bind; [apply raises_tbos|]. intros th ts3.
  destruct ts3 as [|[m|k v] ts3']; auto with traced. destruct k; auto with traced.
  apply raises_bind; [auto with traced|]. intros _ ts4.
  apply raises_bind; [apply raises_tbos|]. intros; auto with traced.
Qed.

Lemma raises_wset_stmt ts : raises_where_called (Traced.wset_stmt tbos ts).
Proof.
  unfold Traced.wset_stmt.
  apply raises_bind; [auto with traced|]. intros _ ts1.
  apply raises_bind; [auto with traced|]. intros c ts2.
  apply raises_bind; [apply raises_tbos|]. intros; auto with traced.
Qed.

Lemma raises_try_stmt ts : raises_where_called (Traced.try_stmt tbos ts).
Proof.
  unfold Traced.try_stmt.
  apply raises_bind; [auto with traced|]. intros _ ts1.
  apply raises_bind; [apply raises_tbos|]. intros t ts2.
  apply raises_bind; [auto with traced|]. intros _ ts3.
  apply raises_bind; [apply raises_tbos|]. intros; auto with traced.
Qed.
End RaisesStatements.

Lemma raises_statements fuel :
  (forall ts, raises_where_called (Traced.statement fuel ts)) /\
  (forall ts, raises_where_called (Traced.block_or_stmt fuel ts)) /\
  (forall s ts, raises_where_called (Traced.block_loop fuel s ts)).
Proof.
  induction fuel as [|fuel (IHs & IHb & IHl)]; [repeat split; intros; apply raises_quiet|].
  repeat split.
  - intros [|tok rest]; cbn [Traced.statement]; [apply raises_quiet|].
    destruct (type tok); try apply raises_quiet.
    + apply raises_var_decl.
    + apply raises_set_stmt.
    + apply raises_if_stmt, IHb.
    + apply raises_wset_stmt, IHb.
    + apply raises_try_stmt, IHb.
  - intros ts. cbn [Traced.block_or_stmt].
    destruct ts as [|[m|k v] rest]; try apply IHs.
    destruct k; try apply IHs.
    apply raises_bind; [apply raises_quiet|]. intros _ ts1.
    apply raises_bind; [apply IHl|]. intros s ts2.
    apply raises_bind; [apply raises_quiet|]. intros; apply raises_quiet.
  - intros s ts. cbn [Traced.block_loop].
    assert (Hgo : raises_where_called (Traced.tbind (Traced.statement fuel ts) (fun st ts' =>
                    Traced.block_loop fuel (match st with Some x => s ++ [x] | None => s end) ts')))
      by (apply raises_bind; [apply IHs | intros; apply IHl]).
    destruct ts as [|[m|k v] rest]; [apply raises_quiet | exact Hgo |].
    destruct k; try exact Hgo. apply raises_quiet.
Qed.

Lemma raises_parse_loop fuel : forall stmts ts,
  raises_where_called (Traced.parse_loop fuel stmts ts).
Proof.
  induction fuel as [|fuel IH]; intros stmts ts; cbn [Traced.parse_loop];
    [apply raises_quiet|].
  destruct ts as [|tok rest]; [apply raises_quiet|].
  apply raises_bind; [apply (proj1 (raises_statements fuel)) | intros; apply IH].
Qed.

(** Wherever [parse] calls [factor] on tokens that make it raise
    "bad expr", [parse] raises "bad expr": nothing catches it. *)
Lemma parse_raises_where_factor_does ts pos :
  In pos (fst (Traced.parse ts)) -> factor pos = Failed bad_expr ->
  parse ts = Failed bad_expr.
Proof.
  intros Hin Hbad. rewrite <- traced_parse_outcome.
  exact (raises_parse_loop _ _ _ pos Hin Hbad).
Qed.

(** C2. In the alternation LE comes before LEN, so the text [len] is
    lexed as the token LE followed by the identifier [n], also with any
    text after it, and no text at all gives a LEN token. A LE token where
    [factor] expects a factor makes it raise "bad expr", which nothing
    catches: [expr] raises it for a first factor and for the right operand
    of an operator, and [parse] raises it wherever it calls [factor] on
    such tokens, in the first statement or a later one, in a block, a
    branch or later in a chain of operators ([Traced.parse] is [parse]
    with the tokens at each call of [factor] written down). So [run_code]
    ends with "bad expr" for such a text. No text is parsed to a tree
    with a [Len] node. *)
Theorem len_is_lexed_as_le :
  tokenize "len" = Ok [Tok LE "le"; Tok IDENT "n"] /\
  (forall code ts, tokenize code = Ok ts -> Forall (fun t => type t <> LEN) ts) /\
  (forall v rest, factor (Tok LE v :: rest) = Failed bad_expr) /\
  (forall v rest, expr (Tok LE v :: rest) = Failed bad_expr) /\
  (forall ts0 first o op v rest,
     reads_factor ts0 first -> binop_of_kind (type o) = Some op ->
     expr (ts0 ++ o :: Tok LE v :: rest) = Failed bad_expr) /\
  (forall a v rest, parse (Tok SET a :: Tok LE v :: rest) = Failed bad_expr) /\
  (forall a b x t v rest,
     parse (Tok VAR a :: t :: Tok IDENT x :: Tok ASSIGN b :: Tok LE v :: rest) =
       Failed bad_expr) /\
  (forall a v rest, parse (Tok IF a :: Tok LE v :: rest) = Failed bad_expr) /\
  (forall a v rest, parse (Tok WSET a :: Tok LE v :: rest) = Failed bad_expr) /\
  (forall code ts tree rest, tokenize code = Ok ts -> parse ts = Parsed tree rest ->
     existsb stmt_has_len tree = false) /\
  (forall fuel lines,
     run_code fuel ("set len " ++ quoted "abc") lines = ParserRaised bad_expr) /\
  (forall fuel lines,
     run_code fuel ("var int n = 1 pl len " ++ quoted "abc") lines = ParserRaised bad_expr) /\
  (forall ts, snd (Traced.parse ts) = parse ts) /\
  (forall ts v rest, In (Tok LE v :: rest) (fst (Traced.parse ts)) ->
     parse ts = Failed bad_expr) /\
  (forall code ts v rest fuel lines,
     tokenize code = Ok ts -> In (Tok LE v :: rest) (fst (Traced.parse ts)) ->
     run_code fuel code lines = ParserRaised bad_expr) /\
  (forall r ts, tokenize ("n" ++ r) = Ok ts ->
     tokenize ("len" ++ r) = Ok (Tok LE "le" :: ts)) /\
  (forall fuel lines,
     run_code fuel ("set 1 set len " ++ quoted "abc") lines = ParserRaised bad_expr) /\
  (forall fuel lines,
     run_code fuel ("if true { set len " ++ quoted "abc" ++ " }") lines =
       ParserRaised bad_expr) /\
  (forall fuel lines,
     run_code fuel ("set 1 pl 2 pl len " ++ quoted "abc") lines = ParserRaised bad_expr) /\
  (forall fuel lines,
     run_code fuel ("try { set 1 } catch { wset x lt 3 set len x }") lines =
       ParserRaised bad_expr).
Proof.
  repeat apply conj.
  - vm_compute. reflexivity.
  - intros code ts H. eapply Forall_impl; [exact (tokenize_types _ _ H)|].
    simpl. intuition.
  - reflexivity.
  - reflexivity.
  - intros ts0 first o op v rest Hf Ho. unfold expr.
    rewrite (Hf _). cbn [pbind length expr_loop]. rewrite Ho. reflexivity.
  - intros a v rest. unfold parse. simpl. reflexivity.
  - intros a b x t v rest. unfold parse. 
    cbn [length Nat.mul Nat.add parse_loop statement type]. unfold var_decl, eat.
    cbn [type]. destruct (decide (VAR = VAR)); [|congruence]. cbn [pbind].
    destruct (decide (type t = type t)); [|congruence]. reflexivity.
  - intros a v rest. unfold parse. simpl. reflexivity.
  - intros a v rest. unfold parse. simpl. reflexivity.
  - apply parse_never_builds_Len.
  - intros fuel lines. reflexivity.
  - intros fuel lines. reflexivity.
  - apply traced_parse_outcome.
  - intros ts v rest Hin. apply (parse_raises_where_factor_does ts _ Hin). reflexivity.
  - intros code ts v rest fuel lines Hts Hin. unfold run_code. rewrite Hts.
    rewrite (parse_raises_where_factor_does ts _ Hin); reflexivity.
  - intros r ts Hts. change ("len" ++ r) with ("le" ++ ("n" ++ r)).
    apply (tokenize_first "le" LE).
    + discriminate.
    + reflexivity.
    + intros y. apply keyword_match. simpl. tauto.
    + reflexivity.
    + exact Hts.
  - intros fuel lines. reflexivity.
  - intros fuel lines. reflexivity.
  - intros fuel lines. reflexivity.
  - intros fuel lines. reflexivity.
Qed.

Lemma len_is_lexed_as_le_witness :
  Forall (fun t => type t <> LEN) [Tok LE "le"; Tok IDENT "n"] /\
  expr ([NumTok (NInt 1)] ++ [Tok PL "pl"; Tok LE "le"; Tok IDENT "n"; Tok STRING "abc"]) =
    Failed bad_expr /\
  existsb stmt_has_len [Print (Bin Op.LE (VarRef "n") (Num (VInt 3)))] = false /\
  parse [Tok IF "if"; Tok TRUE "true"; Tok LBRACE "{"; Tok SET "set"; NumTok (NInt 1);
         Tok SET "set"; Tok LE "le"; Tok IDENT "n"; Tok STRING "abc"; Tok RBRACE "}"] =
    Failed bad_expr /\
  run_code 0 ("set 1" ++ nl ++ "wset true { set 2 np len x }") [] = ParserRaised bad_expr /\
  tokenize ("len" ++ "gth") = Ok [Tok LE "le"; Tok IDENT "ngth"].
Proof.
  destruct len_is_lexed_as_le as
    (_ & Hnever & _ & _ & Hright & _ & _ & _ & _ & Hlen & _ & _ & _ & Hpos & Hrun & Hlex & _).
  repeat apply conj.
  - apply (Hnever "len"). vm_compute. reflexivity.
  - apply (Hright [NumTok (NInt 1)] (Num (VInt 1)) (Tok PL "pl") Op.PL).
    + intros rest. reflexivity.
    + reflexivity.
  - apply (Hlen "set n le 3" [Tok SET "set"; Tok IDENT "n"; Tok LE "le"; NumTok (NInt 3)]
             _ []); vm_compute; reflexivity.
  - apply (Hpos _ "le" [Tok IDENT "n"; Tok STRING "abc"; Tok RBRACE "}"]).
    vm_compute. tauto.
  - apply (Hrun _ [Tok SET "set"; NumTok (NInt 1); Tok WSET "wset"; Tok TRUE "true";
                   Tok LBRACE "{"; Tok SET "set"; NumTok (NInt 2); Tok NP "np";
                   Tok LE "le"; Tok IDENT "n"; Tok IDENT "x"; Tok RBRACE "}"]
                 "le" [Tok IDENT "n"; Tok IDENT "x"; Tok RBRACE "}"]).
    + vm_compute. reflexivity.
    + vm_compute. tauto.
  - apply Hlex. vm_compute. reflexivity.
Defined.
